(* ===== verification/_CoqProject ===== *)
-Q . S2P
Prelude.v
Text.v
Hasher.v
Sha256Impl.v
Clock.v
Store.v
Handlers.v
Endpoints.v
Service.v
Threads.v
Concurrent.v
ThreadLogic.v
Committed.v
Scenarios.v
Races.v
