(* ===== verification/Prelude.v ===== *)
(** * A verification development of the messenger backend (src/server.py)

    The program is a FastAPI service over one SQLite file [messenger.db].
    Its parts, leaves first, and how they interact:

    - the store: two SQLite tables, [users(username TEXT PRIMARY KEY,
      password_hash TEXT NOT NULL)] and [messages(id INTEGER PRIMARY KEY
      AUTOINCREMENT, sender, receiver, text, timestamp DATETIME DEFAULT
      CURRENT_TIMESTAMP)], created by [init_db] (server.py:46-61, run at
      import, server.py:63);
    - the sqlite3 module: [get_db] (server.py:41-44) opens a connection;
      an INSERT opens an implicit transaction that [commit()] writes and
      [close()] discards; [str] parameters are UTF-8 encoded when bound
      and TEXT columns decoded when fetched;
    - the credential hasher [hash_password] (server.py:66-67):
      [hashlib.sha256(password.encode()).hexdigest()];
    - the five handlers [register], [login], [get_users], [send_message],
      [get_messages] (server.py:70-123): each opens a connection, runs one
      statement, maybe commits, and closes the connection (only [register]
      in a [finally]);
    - the service: FastAPI routes a request to its handler and maps the
      handler's outcome to an HTTP response (200 with the JSON value, the
      status of an [HTTPException], 500 for any other exception).  The
      handlers are [def] functions, so FastAPI runs each request in a
      worker thread: requests are served concurrently, their statements
      interleaved, and only SQLite's locking orders their writes (an
      INSERT needs the write lock, which a connection holds from its
      INSERT to its commit or close; a connection that cannot get it
      waits, and after the 5 s busy timeout of [sqlite3.connect] raises
      "database is locked").

    Files (each opens with a note on what it holds), in dependency order:

    - [Prelude] (this file): the state-and-exception monad [M] the
      handlers are written in ([ret], [bind] with the notation
      [let* x := c in k], [raise], Python's [try]/[except]/[finally] as
      [try_except] and [try_finally]); the byte-string order [lex_leb] of
      SQLite's BINARY collation; the stable insertion sort [sort_by] that
      models [ORDER BY], with its permutation and sortedness lemmas; the [messenger] hint database and the shared tactics.
    - [Text]: a Python [str] as the list of its code points ([pystr]);
      CPython's strict UTF-8 encoder [utf8_encode] (raising on a lone
      surrogate) and decoder [utf8_decode], written with the bit
      operations of the C code; round trip, injectivity, failure and
      byte bounds.
    - [Hasher]: the [Sha256] interface (a type class: a function to 32
      bytes), [hexdigest] and [hash_password]; the digest's shape,
      injectivity of [hexdigest], when hashing raises, what equal digests
      mean.
    - [Sha256Impl]: an executable FIPS 180-4 SHA-256 (Module [SHA256])
      and the instance of [Sha256] it gives; known answers.
    - [Clock]: [current_timestamp], the [CURRENT_TIMESTAMP] text
      ["YYYY-MM-DD HH:MM:SS"] of a Unix time (civil calendar from days);
      its byte order, which [ORDER BY timestamp] uses, is the order of
      the instants ([current_timestamp_order]).
    - [Store]: the tables as a record [db], one definition per SQL
      statement, the invariant [wf_db], the abstract model of [users] as
      a finite map with the refinement theorems, and the [ORDER BY]
      results and their limits.
    - [Handlers]: the world (file, open connections, clock), the
      connection operations, the text conversions of the sqlite3 module,
      and the handlers as programs in [M] statement by statement; lemmas
      giving each handler's result on every branch.
    - [Endpoints]: what each endpoint does, as seen by a client, on a
      well-formed world ([wf_world]): registration, login, listing,
      sending, reading a conversation, and which paths leave a connection
      open.
    - [Service]: requests, HTTP responses, routing ([dispatch],
      [to_http], [handle]), the server as a step relation over requests
      and clock changes from [boot], and the invariant of every reachable
      state.
    - [Threads]: the handlers again, as threads cut at their statements
      ([register_t] ... [get_messages_t], read line for line against the
      handlers of [Handlers]), with the INSERT as a step that needs the
      write lock ([write], [unlocked]) or raises [database_locked]; [run]
      executes a thread alone, and the lemma [dispatch_t_run] checks that
      this reading of the code agrees with [Handlers] when no other thread
      runs.
    - [Concurrent]: the server as a pool of threads ([cfg], [tstep],
      [cstep]), with requests arriving and the clock moving ([sstep],
      [sreachable]); the invariant [cinv] (key constraints and the locking
      discipline) of every reachable configuration and no lost update
      ([sstep_grows]); [run_schedule], which runs a concrete schedule.
    - [ThreadLogic]: a rely-guarantee logic for one thread among others:
      triples [hoare Q o P t] indexed by the connection the thread owns,
      rules following the program's [let*], [try]/[except], [try]/[finally]
      and statements, and their soundness over the pool ([pool_cstep]).
    - [Committed]: every handler keeps its guarantee; the postconditions of
      [register_t], [send_message_t], [login_t] and [get_messages_t] in
      terms of the committed file, carried to any interleaving.
    - [Scenarios]: concrete worlds with the executable SHA-256, and every
      sequential theorem applied at concrete inputs.
    - [Races]: a registration race whose loser gets "database is locked",
      and the concurrency theorems applied to concrete runs of the pool.

    Theorem groups: functional behaviour of each endpoint on every branch,
    errors included (Endpoints); the invariant [wf_world] of reachable
    states (Service); refinement of the users table by a finite map and
    the SQL-level facts about AUTOINCREMENT and ORDER BY (Store); UTF-8
    round trip and bounds (Text); the hasher's shape and injectivity
    (Hasher); under concurrency, the invariant of every reachable
    configuration and no lost update (Concurrent), and what an answer of
    each writing or reading handler means for the committed file, whatever
    the other requests do: a 200 registration or a sent message is
    committed, a 400 registration saw the name committed, a successful
    login and a returned conversation read committed rows only
    (Committed).  These theorems record where the code departs from its
    spec: [login_surrogate_password] (login tells registered names from
    unknown ones on a password with a surrogate),
    [send_message_leaks_connection] and [reads_leak_connection] (an
    exception skips [conn.close()]), and the lemma [register_race_locked]
    (the losing writer of a registration race can get a 500 "database is
    locked" instead of the 400 of a conflict).

    Bounds and fuel: every recursion of the program's model is structural
    (on strings, byte lists, row lists, request lists, and on threads,
    whose continuations are smaller), and SHA-256 runs over the
    [length / 64] blocks of the padded message.  No definition uses fuel.
    The calendar facts are checked by evaluation on the 146097 days of
    one 400-year era and carried to every day by the era's periodicity;
    the timestamp order holds for the instants of the years 1970 to 9999
    ([max_time]), where the year has four digits.  [current_timestamp]
    prints the year as four digits, as SQLite does for the years 0000 to
    9999 only; outside them (a clock before year 0 or after 9999) SQLite
    prints a sign or fails, which the model does not follow, and no
    theorem depends on it.
    Integers are [Z] with their widths written out: SHA-256's 32-bit
    words wrap as the low 32 bits of the sum ([add32], equal to
    [mod 2^32] by [add32_mod]), bytes are checked in
    [0, 256), code points in [0, 0x110000), and the AUTOINCREMENT id is
    bounded by SQLite's [2^63 - 1] ([max_rowid]), past which the insert
    fails.

    Not modelled: the CORS middleware (server.py:11-17; headers only);
    pydantic's request validation (422) and JSON serialisation (a request
    is modelled once validated); the file system beyond the database
    contents.  The concurrency model simplifies SQLite in three ways
    that only remove schedules no handler depends on: a SELECT and its
    fetch are one step (so a reader never holds a lock a writer waits
    for), an INSERT that fails opens no transaction, and the busy timeout
    is a choice of the scheduler rather than a clock (a blocked INSERT
    either waits, by not being scheduled, or raises "database is
    locked"). *)

From stdpp Require Import base list.
From Stdlib Require Import ZArith Lia Sorted.

Declare Scope messenger_scope.
Delimit Scope messenger_scope with msgr.

Create HintDb messenger.

(** [invc H] inverts [H] and substitutes the equations it produces. *)
Ltac invc H := inversion H; subst; clear H.

(** ** A state-and-exception monad

    A handler runs on a world [S] and either returns a value or raises an
    exception of type [E]; the world is threaded through both outcomes, as
    Python keeps the side effects made before a [raise]. *)

Inductive outcome (E A : Type) : Type :=
| Ok (a : A)
| Raise (e : E).
Arguments Ok {E A} a.
Arguments Raise {E A} e.

Definition M (E S A : Type) : Type := S -> outcome E A * S.

Section Monad.
Context {E S : Type}.

Definition ret {A} (a : A) : M E S A := fun s => (Ok a, s).

Definition bind {A B} (c : M E S A) (k : A -> M E S B) : M E S B :=
  fun s => match c s with
           | (Ok a, s') => k a s'
           | (Raise e, s') => (Raise e, s')
           end.

Definition raise {A} (e : E) : M E S A := fun s => (Raise e, s).

Definition get_state : M E S S := fun s => (Ok s, s).

Definition put_state (s' : S) : M E S unit := fun _ => (Ok tt, s').

(** [try: c except e: h e]: the handler sees every exception; it
    re-raises the ones it does not catch. *)
Definition try_except {A} (c : M E S A) (h : E -> M E S A) : M E S A :=
  fun s => match c s with
           | (Ok a, s') => (Ok a, s')
           | (Raise e, s') => h e s'
           end.

(** [try: c finally: f]: [f] runs on both exits; an exception raised by
    [f] replaces the outcome of [c]. *)
Definition try_finally {A} (c : M E S A) (f : M E S unit) : M E S A :=
  fun s => match c s with
           | (r, s') => match f s' with
                        | (Ok _, s'') => (r, s'')
                        | (Raise e, s'') => (Raise e, s'')
                        end
           end.
End Monad.

(** [let* x := c in k] runs [c], then [k] on its value. *)
Notation "'let*' x ':=' c 'in' k" := (bind c (fun x => k))
  (at level 10, x name, c at level 100, k at level 200,
   format "'[v' 'let*'  x  ':='  c  'in' '/' k ']'") : messenger_scope.

Notation "'try' c 'except' h" := (try_except c h)
  (at level 10, c at level 100, h at level 200) : messenger_scope.
Notation "'try' c 'finally' f" := (try_finally c f)
  (at level 10, c at level 100, f at level 200) : messenger_scope.

Section MonadLaws.
Context {E S A B : Type}.

Lemma try_except_ok (c : M E S A) h s a s' :
  c s = (Ok a, s') -> try_except c h s = (Ok a, s').
Proof. intros Hc. unfold try_except. by rewrite Hc. Qed.

Lemma try_except_raise (c : M E S A) h s e s' :
  c s = (Raise e, s') -> try_except c h s = h e s'.
Proof. intros Hc. unfold try_except. by rewrite Hc. Qed.

Lemma try_finally_run (c : M E S A) (f : M E S unit) s r s' s'' :
  c s = (r, s') -> f s' = (Ok tt, s'') -> try_finally c f s = (r, s'').
Proof. intros Hc Hf. unfold try_finally. by rewrite Hc, Hf. Qed.

Lemma bind_ok (c : M E S A) (k : A -> M E S B) s a s' :
  c s = (Ok a, s') -> bind c k s = k a s'.
Proof. intros H. unfold bind. by rewrite H. Qed.

Lemma bind_raise (c : M E S A) (k : A -> M E S B) s e s' :
  c s = (Raise e, s') -> bind c k s = (Raise e, s').
Proof. intros H. unfold bind. by rewrite H. Qed.
End MonadLaws.

(** ** Lexicographic order on byte strings

    SQLite compares TEXT under the BINARY collation with [memcmp] on the
    stored UTF-8 bytes, a shorter prefix first. *)

Fixpoint lex_leb (a b : list Z) : bool :=
  match a, b with
  | [], _ => true
  | _ :: _, [] => false
  | x :: a', y :: b' => (x <? y)%Z || ((x =? y)%Z && lex_leb a' b')
  end.

Lemma lex_leb_refl a : lex_leb a a = true.
Proof. induction a as [|x a IH]; simpl; [done|]. rewrite Z.eqb_refl, IH. apply orb_true_r. Qed.

Lemma lex_leb_total a b : lex_leb a b = true \/ lex_leb b a = true.
Proof.
  revert b; induction a as [|x a IH]; intros [|y b]; simpl; auto.
  destruct (Z.lt_trichotomy x y) as [Hl|[->|Hl]].
  - left. apply orb_true_intro. left. by apply Z.ltb_lt.
  - rewrite Z.eqb_refl, Z.ltb_irrefl. simpl. apply IH.
  - right. apply orb_true_intro. left. by apply Z.ltb_lt.
Qed.

Lemma lex_leb_trans a b c :
  lex_leb a b = true -> lex_leb b c = true -> lex_leb a c = true.
Proof.
  revert b c; induction a as [|x a IH]; intros [|y b] [|z c]; simpl; auto; try discriminate.
  rewrite !orb_true_iff, !andb_true_iff, !Z.ltb_lt, !Z.eqb_eq.
  intros [Hxy|[-> Hab]] [Hyz|[-> Hbc]]; [left; lia|left; lia|left; lia|].
  right. split; [done|]. eauto.
Qed.

Lemma lex_leb_antisym a b : lex_leb a b = true -> lex_leb b a = true -> a = b.
Proof.
  revert b; induction a as [|x a IH]; intros [|y b]; simpl; auto; try discriminate.
  rewrite !orb_true_iff, !andb_true_iff, !Z.ltb_lt, !Z.eqb_eq.
  intros [H1|[-> H1]] [H2|[H3 H2]]; try lia. f_equal. auto.
Qed.

#[export] Hint Resolve lex_leb_refl lex_leb_trans : messenger.

(** ** A stable insertion sort

    [ORDER BY key ASC] and the scan of an index both produce the rows in
    the order of a key, rows with equal keys in the order of the scan.
    [sort_by] is the insertion sort that does this: an element is
    inserted before the first element it is less than or equal to. *)

Section SortBy.
Context {A : Type} (leb : A -> A -> bool).

Fixpoint insert_by (x : A) (l : list A) : list A :=
  match l with
  | [] => [x]
  | y :: l' => if leb x y then x :: y :: l' else y :: insert_by x l'
  end.

Fixpoint sort_by (l : list A) : list A :=
  match l with
  | [] => []
  | x :: l' => insert_by x (sort_by l')
  end.

Lemma insert_by_perm x l : insert_by x l ≡ₚ x :: l.
Proof.
  induction l as [|y l IH]; simpl; [done|].
  destruct (leb x y); [done|]. rewrite IH. constructor.
Qed.

Lemma sort_by_perm l : sort_by l ≡ₚ l.
Proof. induction l as [|x l IH]; simpl; [done|]. by rewrite insert_by_perm, IH. Qed.

Context (leb_total : forall x y, leb x y = true \/ leb y x = true).
Context (leb_trans : forall x y z, leb x y = true -> leb y z = true -> leb x z = true).

Lemma insert_by_sorted x l :
  Sorted (fun a b => leb a b = true) l ->
  Sorted (fun a b => leb a b = true) (insert_by x l).
Proof.
  induction 1 as [|y l Hs IH Hhd]; simpl; [by repeat constructor|].
  destruct (leb x y) eqn:Hxy; [by repeat constructor|].
  constructor; [done|].
  assert (leb y x = true) by (destruct (leb_total x y); congruence).
  destruct l as [|z l]; simpl in *; [by constructor|].
  inversion Hhd; subst. destruct (leb x z); by constructor.
Qed.

Lemma sort_by_sorted l : Sorted (fun a b => leb a b = true) (sort_by l).
Proof. induction l; simpl; [constructor|]. by apply insert_by_sorted. Qed.

(** Two elements are tied when each is less than or equal to the
    other. *)
Definition tied (k y : A) : Prop := leb y k = true /\ leb k y = true.

#[local] Instance tied_dec k y : Decision (tied k y).
Proof. unfold tied. apply _. Defined.

Lemma insert_by_filter_tied k x l :
  filter (tied k) (insert_by x l) =
  if decide (tied k x) then x :: filter (tied k) l else filter (tied k) l.
Proof.
  induction l as [|y l IH]; simpl.
  - rewrite filter_cons, filter_nil. done.
  - destruct (leb x y) eqn:Hxy.
    + rewrite filter_cons. case_decide; done.
    + rewrite !filter_cons, IH.
      destruct (decide (tied k y)) as [[Hyk Hky]|], (decide (tied k x)) as [[Hxk Hkx]|];
        try done.
      by rewrite (leb_trans x k y Hxk Hky) in Hxy.
Qed.

End SortBy.

(** ** Lists *)

Lemma StronglySorted_snoc {A} (R : A -> A -> Prop) l x :
  StronglySorted R l -> Forall (fun y => R y x) l -> StronglySorted R (l ++ [x]).
Proof.
  induction 1 as [|y l Hl IH Hy]; simpl; intros Hx.
  - repeat constructor.
  - invc Hx. constructor; [auto|]. apply Forall_app. split; [done|]. by constructor.
Qed.

Lemma StronglySorted_filter {A} (R : A -> A -> Prop) (P : A -> Prop) `{!forall x, Decision (P x)} l :
  StronglySorted R l -> StronglySorted R (filter P l).
Proof.
  induction 1 as [|y l Hl IH Hy]; [constructor|].
  rewrite filter_cons. case_decide; [|done].
  constructor; [done|]. rewrite Forall_forall in Hy |- *. intros z Hz%list_elem_of_filter.
  apply Hy. apply Hz.
Qed.

Lemma NoDup_StronglySorted {A} (R : A -> A -> Prop) l :
  (forall x, ~ R x x) -> StronglySorted R l -> NoDup l.
Proof.
  intros Hirr. induction 1 as [|y l Hl IH Hy]; constructor; [|done].
  intros Hin. rewrite Forall_forall in Hy. exact (Hirr y (Hy y Hin)).
Qed.

Section Forall2Lemmas.
Context {A B : Type} (R : A -> B -> Prop).

Lemma Forall2_elem_l xs ys x : Forall2 R xs ys -> x ∈ xs -> exists y, y ∈ ys /\ R x y.
Proof.
  induction 1 as [|x' y' xs ys Hxy _ IH]; [by intros ?%elem_of_nil|].
  intros [->|Hin]%elem_of_cons; [exists y'; split; [left|done]|].
  destruct (IH Hin) as (y & Hy & Hr). exists y. split; [by right|done].
Qed.

Lemma Forall2_elem_r xs ys y : Forall2 R xs ys -> y ∈ ys -> exists x, x ∈ xs /\ R x y.
Proof.
  induction 1 as [|x' y' xs ys Hxy _ IH]; [by intros ?%elem_of_nil|].
  intros [->|Hin]%elem_of_cons; [exists x'; split; [left|done]|].
  destruct (IH Hin) as (x & Hx & Hr). exists x. split; [by right|done].
Qed.

(** A relation that determines its right side carries [NoDup] back. *)
Lemma NoDup_Forall2 xs ys :
  (forall x y1 y2, R x y1 -> R x y2 -> y1 = y2) ->
  Forall2 R xs ys -> NoDup ys -> NoDup xs.
Proof.
  intros Hfun. induction 1 as [|x y xs ys Hxy HF IH]; [constructor|].
  intros (Hnin & Hnd)%NoDup_cons. constructor; [|auto].
  intros Hin. destruct (Forall2_elem_l _ _ _ HF Hin) as (y' & Hy' & Hr).
  by rewrite (Hfun _ _ _ Hxy Hr) in Hnin.
Qed.

(** Sortedness carries over a relation that maps the order. *)
Lemma Sorted_Forall2 (P : B -> B -> Prop) (Q : A -> A -> Prop) xs ys :
  (forall x1 y1 x2 y2, R x1 y1 -> R x2 y2 -> P y1 y2 -> Q x1 x2) ->
  Forall2 R xs ys -> Sorted P ys -> Sorted Q xs.
Proof.
  intros HPQ. induction 1 as [|x y xs ys Hxy HF IH]; [constructor|].
  intros [Hs Hhd]%Sorted_inv. constructor; [auto|].
  destruct HF as [|x2 y2 xs' ys' Hxy2 _]; constructor. invc Hhd. eauto.
Qed.
End Forall2Lemmas.

(** ** Bit operations on small non-negative integers

    The byte-level code (UTF-8, hex digits) is written with shifts, masks
    and [|]; these lemmas turn them into division, remainder and addition,
    which [lia] handles after [Z.to_euclidean_division_equations]. *)

Open Scope Z_scope.

Lemma Z_lor_add_low c v n :
  0 <= n -> c mod 2 ^ n = 0 -> 0 <= v < 2 ^ n -> Z.lor c v = c + v.
Proof.
  intros Hn Hc Hv.
  assert (Z.land c v = 0) as Hand.
  { apply Z.bits_inj'. intros i Hi. rewrite Z.land_spec, Z.bits_0.
    destruct (Z.lt_ge_cases i n) as [Hlt|Hge].
    - replace c with (c / 2 ^ n * 2 ^ n) by (pose proof (Z.div_mod c (2 ^ n)); lia).
      by rewrite Z.mul_pow2_bits_low.
    - rewrite andb_false_iff. right. apply Z.testbit_false; [lia|].
      rewrite Z.div_small; [done|]. split; [lia|].
      eapply Z.lt_le_trans; [apply Hv|]. apply Z.pow_le_mono_r; lia. }
  pose proof (Z.add_lor_land c v). lia.
Qed.

Lemma Z_lor_add_pow c v n m :
  0 <= n -> 2 ^ n = m -> c mod m = 0 -> 0 <= v < m -> Z.lor c v = c + v.
Proof. intros ? <-. by apply Z_lor_add_low. Qed.

Lemma Z_land_63 x : Z.land x 63 = x mod 64.
Proof. change 63 with (Z.ones 6). by rewrite Z.land_ones. Qed.
Lemma Z_land_31 x : Z.land x 31 = x mod 32.
Proof. change 31 with (Z.ones 5). by rewrite Z.land_ones. Qed.
Lemma Z_land_15 x : Z.land x 15 = x mod 16.
Proof. change 15 with (Z.ones 4). by rewrite Z.land_ones. Qed.
Lemma Z_land_7 x : Z.land x 7 = x mod 8.
Proof. change 7 with (Z.ones 3). by rewrite Z.land_ones. Qed.
Lemma Z_land_255 x : Z.land x 255 = x mod 256.
Proof. change 255 with (Z.ones 8). by rewrite Z.land_ones. Qed.

Lemma Z_shiftr_div x n : 0 <= n -> Z.shiftr x n = x / 2 ^ n.
Proof. apply Z.shiftr_div_pow2. Qed.
Lemma Z_shiftl_mul x n : 0 <= n -> Z.shiftl x n = x * 2 ^ n.
Proof. apply Z.shiftl_mul_pow2. Qed.

Create HintDb bits.
#[export] Hint Rewrite Z_land_63 Z_land_31 Z_land_15 Z_land_7 Z_land_255 : bits.
#[export] Hint Rewrite Z_shiftr_div Z_shiftl_mul using lia : bits.

Close Scope Z_scope.

(** ** Tactics *)

(** [zarith] closes linear goals over [Z] with division and remainder by
    constants. *)
Ltac zarith := Z.to_euclidean_division_equations; lia.

(** [decide_cmps] cases on every integer comparison of the goal and
    closes the cases the context refutes. *)
Ltac decide_cmps :=
  repeat match goal with
  | |- context [Z.ltb ?a ?b] => destruct (Z.ltb_spec a b); try (exfalso; zarith)
  | |- context [Z.leb ?a ?b] => destruct (Z.leb_spec a b); try (exfalso; zarith)
  end.



(** [decide_vm] proves a decidable proposition on closed data by
    evaluating its decision procedure. *)
Ltac decide_vm := apply (bool_decide_unpack _); vm_compute; exact I.
