(* ===== verification/Text.v ===== *)
(** * Text: Python strings and their UTF-8 bytes

    A Python [str] is a sequence of code points in [0, 0x10FFFF]; lone
    surrogates [0xD800..0xDFFF] are allowed in a [str] (a JSON body may
    carry ["\ud800"]), but [str.encode()] with the default strict error
    handler raises [UnicodeEncodeError] on them.  The program encodes a
    string twice: in [hash_password] (server.py:67, [password.encode()])
    and when the sqlite3 module binds a [str] parameter to a statement
    (server.py:75, 88, 108, 120).  The sqlite3 module decodes TEXT columns
    back with the strict UTF-8 decoder when it fetches a row (server.py:89,
    100, 121).

    [encode_cp] follows CPython's UTF-8 encoder case by case, with its
    shifts and masks; [utf8_decode] is the strict decoder (continuation
    bytes in [0x80, 0xC0), no overlong forms, no surrogates, nothing above
    [0x10FFFF]).  The theorems: encoding fails exactly on strings with a
    surrogate; the bytes are bytes; the byte length is between one and
    four times the string's; decoding inverts encoding, so encoding is
    injective and SQLite's byte equality is Python's string equality; and
    encoding inverts decoding on bytes, so a TEXT value the decoder accepts
    has exactly one byte form ([utf8_encode_decode]). *)

From stdpp Require Import base list.
From Stdlib Require Import ZArith Lia.
From Stdlib Require Ascii String.
Export String.StringSyntax.
From S2P Require Import Prelude.

Open Scope Z_scope.

(** ** Data *)

(** A Python [str], as its list of code points. *)
Definition pystr := list Z.

(** A Python [str] holds code points [0 <= c <= 0x10FFFF]. *)
Definition valid_cp (c : Z) : Prop := 0 <= c <= 0x10FFFF.
Definition valid_str (s : pystr) : Prop := Forall valid_cp s.

(** The string literal of the source, as a [pystr] (ASCII literals). *)
Definition py (s : String.string) : pystr :=
  map (fun a => Z.of_nat (Ascii.nat_of_ascii a)) (String.list_ascii_of_string s).

Arguments py _%_string_scope.

Definition is_byte (b : Z) : Prop := 0 <= b < 256.

(** [Py_UNICODE_IS_SURROGATE]. *)
Definition is_surrogate (c : Z) : bool := (0xD800 <=? c) && (c <=? 0xDFFF).

(** ** The strict UTF-8 encoder ([str.encode()]) *)

Definition encode_cp (c : Z) : option (list Z) :=
  if c <? 0x80 then Some [c]
  else if c <? 0x800 then
    Some [Z.lor 0xC0 (Z.shiftr c 6); Z.lor 0x80 (Z.land c 0x3F)]
  else if is_surrogate c then None
  else if c <? 0x10000 then
    Some [Z.lor 0xE0 (Z.shiftr c 12);
          Z.lor 0x80 (Z.land (Z.shiftr c 6) 0x3F);
          Z.lor 0x80 (Z.land c 0x3F)]
  else
    Some [Z.lor 0xF0 (Z.shiftr c 18);
          Z.lor 0x80 (Z.land (Z.shiftr c 12) 0x3F);
          Z.lor 0x80 (Z.land (Z.shiftr c 6) 0x3F);
          Z.lor 0x80 (Z.land c 0x3F)].

(** [None] is the [UnicodeEncodeError] of the first surrogate. *)
Fixpoint utf8_encode (s : pystr) : option (list Z) :=
  match s with
  | [] => Some []
  | c :: s' =>
      match encode_cp c, utf8_encode s' with
      | Some bs, Some rest => Some (bs ++ rest)
      | _, _ => None
      end
  end.

(** ** The strict UTF-8 decoder (the sqlite3 module on TEXT columns) *)

(** [IS_CONTINUATION_BYTE] of CPython's decoder. *)
Definition is_cont (b : Z) : bool := (0x80 <=? b) && (b <? 0xC0).

Definition dec2 (b0 b1 : Z) : Z :=
  Z.lor (Z.shiftl (Z.land b0 0x1F) 6) (Z.land b1 0x3F).
Definition dec3 (b0 b1 b2 : Z) : Z :=
  Z.lor (Z.lor (Z.shiftl (Z.land b0 0x0F) 12) (Z.shiftl (Z.land b1 0x3F) 6))
        (Z.land b2 0x3F).
Definition dec4 (b0 b1 b2 b3 : Z) : Z :=
  Z.lor (Z.lor (Z.lor (Z.shiftl (Z.land b0 0x07) 18) (Z.shiftl (Z.land b1 0x3F) 12))
               (Z.shiftl (Z.land b2 0x3F) 6))
        (Z.land b3 0x3F).

Fixpoint utf8_decode (bs : list Z) : option pystr :=
  match bs with
  | [] => Some []
  | b0 :: r =>
      if b0 <? 0x80 then cons b0 <$> utf8_decode r
      else if (0xC2 <=? b0) && (b0 <=? 0xDF) then
        match r with
        | b1 :: r' =>
            if is_cont b1 then cons (dec2 b0 b1) <$> utf8_decode r' else None
        | [] => None
        end
      else if (0xE0 <=? b0) && (b0 <=? 0xEF) then
        match r with
        | b1 :: b2 :: r' =>
            let c := dec3 b0 b1 b2 in
            if is_cont b1 && is_cont b2 && (0x800 <=? c) && negb (is_surrogate c)
            then cons c <$> utf8_decode r' else None
        | _ => None
        end
      else if (0xF0 <=? b0) && (b0 <=? 0xF4) then
        match r with
        | b1 :: b2 :: b3 :: r' =>
            let c := dec4 b0 b1 b2 b3 in
            if is_cont b1 && is_cont b2 && is_cont b3 && (0x10000 <=? c) && (c <=? 0x10FFFF)
            then cons c <$> utf8_decode r' else None
        | _ => None
        end
      else None
  end.

(** ** The bytes in arithmetic form *)

(** [lor_add n m] rewrites an [|] of a prefix with a smaller field. *)
Ltac lor_add n m :=
  match goal with
  | |- context [Z.lor ?c ?v] => rewrite (Z_lor_add_pow c v n m) by (reflexivity || zarith)
  end.

Lemma encode_cp_1 c : c < 0x80 -> encode_cp c = Some [c].
Proof. intros. unfold encode_cp. by decide_cmps. Qed.

Lemma encode_cp_2 c :
  0x80 <= c < 0x800 -> encode_cp c = Some [0xC0 + c / 64; 0x80 + c mod 64].
Proof.
  intros. unfold encode_cp. decide_cmps. autorewrite with bits.
  change (2 ^ 6) with 64. lor_add 5 32. lor_add 6 64. done.
Qed.

Lemma encode_cp_3 c :
  0x800 <= c < 0x10000 -> is_surrogate c = false ->
  encode_cp c = Some [0xE0 + c / 4096; 0x80 + c / 64 mod 64; 0x80 + c mod 64].
Proof.
  intros ? Hs. unfold encode_cp. rewrite Hs. decide_cmps. autorewrite with bits.
  change (2 ^ 12) with 4096. change (2 ^ 6) with 64.
  lor_add 4 16. lor_add 6 64. lor_add 6 64. done.
Qed.

Lemma encode_cp_4 c :
  0x10000 <= c <= 0x10FFFF ->
  encode_cp c = Some [0xF0 + c / 262144; 0x80 + c / 4096 mod 64;
                      0x80 + c / 64 mod 64; 0x80 + c mod 64].
Proof.
  intros. unfold encode_cp, is_surrogate. decide_cmps. simpl. autorewrite with bits.
  change (2 ^ 18) with 262144. change (2 ^ 12) with 4096. change (2 ^ 6) with 64.
  lor_add 3 8. do 3 lor_add 6 64. done.
Qed.

Lemma encode_cp_surrogate c : is_surrogate c = true -> encode_cp c = None.
Proof.
  unfold encode_cp, is_surrogate. rewrite andb_true_iff, Z.leb_le, Z.leb_le.
  intros. decide_cmps. done.
Qed.

Lemma dec2_val b0 b1 : dec2 b0 b1 = b0 mod 32 * 64 + b1 mod 64.
Proof. unfold dec2. autorewrite with bits. change (2 ^ 6) with 64. lor_add 6 64. done. Qed.

Lemma dec3_val b0 b1 b2 :
  dec3 b0 b1 b2 = b0 mod 16 * 4096 + b1 mod 64 * 64 + b2 mod 64.
Proof.
  unfold dec3. autorewrite with bits. change (2 ^ 12) with 4096. change (2 ^ 6) with 64.
  lor_add 12 4096. lor_add 6 64. done.
Qed.

Lemma dec4_val b0 b1 b2 b3 :
  dec4 b0 b1 b2 b3 = b0 mod 8 * 262144 + b1 mod 64 * 4096 + b2 mod 64 * 64 + b3 mod 64.
Proof.
  unfold dec4. autorewrite with bits.
  change (2 ^ 18) with 262144. change (2 ^ 12) with 4096. change (2 ^ 6) with 64.
  lor_add 18 262144. lor_add 12 4096. lor_add 6 64. done.
Qed.

Lemma encode_cp_None c : encode_cp c = None <-> is_surrogate c = true.
Proof.
  split; [|apply encode_cp_surrogate].
  unfold encode_cp. destruct (is_surrogate c); [done|].
  repeat case_match; done.
Qed.

(** ** Decoding inverts encoding *)

(** One step of the decoder on the bytes of one code point. *)
Ltac decode_step :=
  simpl; unfold is_cont, is_surrogate;
  rewrite ?dec2_val, ?dec3_val, ?dec4_val;
  decide_cmps; simpl; do 2 f_equal; zarith.

Lemma decode_encode_cp c bs r :
  valid_cp c -> encode_cp c = Some bs ->
  utf8_decode (bs ++ r) = cons c <$> utf8_decode r.
Proof.
  unfold valid_cp. intros Hc Henc.
  destruct (Z.lt_ge_cases c 0x80) as [H1|H1];
    [rewrite encode_cp_1 in Henc by done; invc Henc; simpl; by decide_cmps|].
  destruct (Z.lt_ge_cases c 0x800) as [H2|H2].
  { rewrite encode_cp_2 in Henc by lia. invc Henc. decode_step. }
  destruct (is_surrogate c) eqn:Hs; [by rewrite encode_cp_surrogate in Henc|].
  destruct (Z.lt_ge_cases c 0x10000) as [H3|H3].
  { rewrite encode_cp_3 in Henc by done. invc Henc. unfold is_surrogate in Hs. decode_step. }
  rewrite encode_cp_4 in Henc by lia. invc Henc. decode_step.
Qed.

Lemma utf8_decode_encode s bs :
  valid_str s -> utf8_encode s = Some bs -> utf8_decode bs = Some s.
Proof.
  intros Hv. revert bs. induction Hv as [|c s Hc Hs IH]; intros bs; simpl.
  - by intros [= <-].
  - destruct (encode_cp c) as [b|] eqn:Hb, (utf8_encode s) as [rest|]; intros [=<-]; try done.
    rewrite (decode_encode_cp c b rest Hc Hb), (IH rest eq_refl). done.
Qed.

(** C27. The bytes SQLite stores for a string decode back to the string. *)
Theorem utf8_roundtrip s bs :
  valid_str s -> utf8_encode s = Some bs -> utf8_decode bs = Some s.
Proof. apply utf8_decode_encode. Qed.

Lemma utf8_encode_injective s1 s2 bs :
  valid_str s1 -> valid_str s2 ->
  utf8_encode s1 = Some bs -> utf8_encode s2 = Some bs -> s1 = s2.
Proof.
  intros H1 H2 E1 E2.
  pose proof (utf8_decode_encode _ _ H1 E1). pose proof (utf8_decode_encode _ _ H2 E2). congruence.
Qed.

(** C31. Two strings with the same UTF-8 bytes are equal: SQLite's TEXT keys compare the strings. *)
Corollary utf8_encode_inj s1 s2 bs :
  valid_str s1 -> valid_str s2 ->
  utf8_encode s1 = Some bs -> utf8_encode s2 = Some bs -> s1 = s2.
Proof. apply utf8_encode_injective. Qed.

Lemma utf8_encode_None s :
  utf8_encode s = None <-> Exists (fun c => is_surrogate c = true) s.
Proof.
  induction s as [|c s IH]; simpl.
  - split; [done|]. inversion 1.
  - rewrite Exists_cons, <- IH, <- encode_cp_None.
    destruct (encode_cp c), (utf8_encode s); naive_solver.
Qed.

(** C29. [str.encode()] raises exactly when the string has a surrogate. *)
Theorem utf8_encode_fails s :
  utf8_encode s = None <-> Exists (fun c => is_surrogate c = true) s.
Proof. exact (utf8_encode_None s). Qed.

Ltac forall_bytes := rewrite ?Forall_cons, ?Forall_nil; repeat split; zarith.

Lemma encode_cp_bytes c bs :
  valid_cp c -> encode_cp c = Some bs -> Forall is_byte bs /\ (1 <= length bs <= 4)%nat.
Proof.
  unfold valid_cp, is_byte. intros Hc Henc.
  destruct (Z.lt_ge_cases c 0x80) as [H1|H1];
    [rewrite encode_cp_1 in Henc by done; invc Henc; split; [forall_bytes|simpl; lia]|].
  destruct (Z.lt_ge_cases c 0x800) as [H2|H2].
  { rewrite encode_cp_2 in Henc by lia. invc Henc. split; [forall_bytes|simpl; lia]. }
  destruct (is_surrogate c) eqn:Hs; [by rewrite encode_cp_surrogate in Henc|].
  destruct (Z.lt_ge_cases c 0x10000) as [H3|H3].
  { rewrite encode_cp_3 in Henc by done. invc Henc. split; [forall_bytes|simpl; lia]. }
  rewrite encode_cp_4 in Henc by lia. invc Henc. split; [forall_bytes|simpl; lia].
Qed.

(** C30. The encoder produces bytes, one to four per code point. *)
Theorem utf8_encode_bounds s bs :
  valid_str s -> utf8_encode s = Some bs ->
  Forall is_byte bs /\ (length s <= length bs <= 4 * length s)%nat.
Proof.
  intros Hv. revert bs. induction Hv as [|c s Hc Hs IH]; intros bs; simpl.
  - intros [= <-]. done.
  - destruct (encode_cp c) as [b|] eqn:Hb, (utf8_encode s) as [rest|]; intros [=<-]; try done.
    destruct (encode_cp_bytes c b Hc Hb) as [Hbb Hlen]. destruct (IH rest eq_refl) as [Hr Hrl].
    rewrite Forall_app, length_app. split; [done|lia].
Qed.

(** An ASCII string is its own encoding. *)
Definition is_ascii (s : pystr) : Prop := Forall (fun c => 0 <= c < 0x80) s.

Lemma utf8_encode_ascii s : is_ascii s -> utf8_encode s = Some s.
Proof.
  induction 1 as [|c s Hc Hs IH]; simpl; [done|].
  rewrite encode_cp_1 by lia. by rewrite IH.
Qed.

Lemma ascii_valid s : is_ascii s -> valid_str s.
Proof. unfold is_ascii, valid_str. intros H. eapply Forall_impl; [done|]. unfold valid_cp. lia. Qed.

(** A literal read through [py] is a string of Latin-1 code points. *)
Lemma py_valid s : valid_str (py s).
Proof.
  unfold valid_str, valid_cp, py.
  induction (String.list_ascii_of_string s) as [|a l IH]; simpl; constructor; [|done].
  pose proof (Ascii.nat_ascii_bounded a). lia.
Qed.

#[export] Hint Resolve utf8_encode_ascii ascii_valid py_valid : messenger.

Lemma utf8_decode_ascii s : is_ascii s -> utf8_decode s = Some s.
Proof.
  induction 1 as [|c s Hc Hs IH]; simpl; [done|].
  decide_cmps. by rewrite IH.
Qed.

(** A string that encodes to ASCII bytes is those bytes. *)
Lemma utf8_encode_to_ascii s bs : valid_str s -> utf8_encode s = Some bs -> is_ascii bs -> s = bs.
Proof.
  intros Hv He Ha. pose proof (utf8_decode_encode _ _ Hv He) as Hd.
  rewrite utf8_decode_ascii in Hd by done. congruence.
Qed.

(** ** Encoding inverts decoding *)

(** One code point read by the decoder, with the bytes it came from. *)
Lemma utf8_decode_cons b0 r s :
  Forall is_byte (b0 :: r) -> utf8_decode (b0 :: r) = Some s ->
  exists c bs rest s', encode_cp c = Some bs /\ valid_cp c /\ b0 :: r = bs ++ rest /\
    utf8_decode rest = Some s' /\ s = c :: s'.
Proof.
  intros Hb. apply Forall_cons in Hb as [H0 Hr]. unfold is_byte in H0. simpl.
  destruct (Z.ltb_spec b0 0x80).
  { destruct (utf8_decode r) as [s'|] eqn:E; [intros [= <-]|done].
    exists b0, [b0], r, s'. rewrite encode_cp_1 by done. unfold valid_cp. split_and!; done || lia. }
  destruct ((0xC2 <=? b0) && (b0 <=? 0xDF)) eqn:E2.
  { apply andb_true_iff in E2 as [?%Z.leb_le ?%Z.leb_le].
    destruct r as [|b1 r]; [done|]. unfold is_cont.
    destruct (Z.leb_spec 0x80 b1), (Z.ltb_spec b1 0xC0); simpl; try done.
    destruct (utf8_decode r) as [s'|] eqn:E; [intros [= <-]|done].
    exists (dec2 b0 b1), [b0; b1], r, s'. rewrite dec2_val, encode_cp_2 by zarith.
    unfold valid_cp. split_and!; try done; try zarith. do 3 f_equal; zarith. }
  destruct ((0xE0 <=? b0) && (b0 <=? 0xEF)) eqn:E3.
  { apply andb_true_iff in E3 as [?%Z.leb_le ?%Z.leb_le].
    destruct r as [|b1 [|b2 r]]; try done. apply Forall_cons in Hr as [Hb1 Hr].
    apply Forall_cons in Hr as [Hb2 Hr]. unfold is_byte in Hb1, Hb2.
    destruct (is_cont b1 && is_cont b2 && (0x800 <=? dec3 b0 b1 b2) && negb (is_surrogate (dec3 b0 b1 b2))) eqn:Ec; [|done].
    apply andb_true_iff in Ec as [Ec Hs]. apply negb_true_iff in Hs.
    apply andb_true_iff in Ec as [Ec ?%Z.leb_le]. apply andb_true_iff in Ec as [Ec1 Ec2].
    unfold is_cont in Ec1, Ec2. apply andb_true_iff in Ec1 as [?%Z.leb_le ?%Z.ltb_lt].
    apply andb_true_iff in Ec2 as [?%Z.leb_le ?%Z.ltb_lt].
    destruct (utf8_decode r) as [s'|] eqn:E; [intros [= <-]|done].
    exists (dec3 b0 b1 b2), [b0; b1; b2], r, s'. rewrite dec3_val in *.
    rewrite encode_cp_3 by (done || zarith).
    unfold valid_cp. split_and!; try done; try zarith. do 4 f_equal; zarith. }
  destruct ((0xF0 <=? b0) && (b0 <=? 0xF4)) eqn:E4; [|done].
  apply andb_true_iff in E4 as [?%Z.leb_le ?%Z.leb_le].
  destruct r as [|b1 [|b2 [|b3 r]]]; try done. apply Forall_cons in Hr as [Hb1 Hr].
  apply Forall_cons in Hr as [Hb2 Hr]. apply Forall_cons in Hr as [Hb3 Hr]. unfold is_byte in Hb1, Hb2, Hb3.
  destruct (is_cont b1 && is_cont b2 && is_cont b3 && (0x10000 <=? dec4 b0 b1 b2 b3) && (dec4 b0 b1 b2 b3 <=? 0x10FFFF)) eqn:Ec; [|done].
  rewrite !andb_true_iff in Ec. unfold is_cont in Ec. rewrite !andb_true_iff, !Z.leb_le, !Z.ltb_lt in Ec.
  destruct (utf8_decode r) as [s'|] eqn:E; [intros [= <-]|done].
  exists (dec4 b0 b1 b2 b3), [b0; b1; b2; b3], r, s'. rewrite dec4_val in *.
  rewrite encode_cp_4 by zarith.
  unfold valid_cp. split_and!; try done; try zarith. do 5 f_equal; zarith.
Qed.

(** C28. The converse round trip: bytes the strict decoder accepts are the
    encoding of the string it returns, so a TEXT value the sqlite3 module
    reads back has exactly one byte form (no overlong or surrogate
    forms get through). *)
Theorem utf8_encode_decode bs s :
  Forall is_byte bs -> utf8_decode bs = Some s -> valid_str s /\ utf8_encode s = Some bs.
Proof.
  revert s. induction bs as [bs IH] using (induction_ltof1 _ (@length Z)). unfold ltof in IH.
  intros s Hb Hd. destruct bs as [|b0 r].
  - injection Hd as <-. split; [constructor|done].
  - destruct (utf8_decode_cons b0 r s Hb Hd) as (c & bs & rest & s' & Hc & Hv & Heq & Hr & ->).
    assert (length rest < length (b0 :: r))%nat as Hlt.
    { rewrite Heq, length_app. apply encode_cp_bytes in Hc as [_ ?]; [lia|done]. }
    assert (Forall is_byte rest) as Hbr by (rewrite Heq in Hb; apply Forall_app in Hb as [_ ?]; done).
    destruct (IH rest Hlt s' Hbr Hr) as [Hv' He].
    split; [by constructor|]. simpl. by rewrite Hc, He, Heq.
Qed.
