(* ===== verification/Hasher.v ===== *)
(** * Hasher: [hash_password] (server.py:66-67)

    [hash_password(password)] is
    [hashlib.sha256(password.encode()).hexdigest()]: the strict UTF-8
    encoding of the password (which raises on a lone surrogate), the
    SHA-256 digest of those bytes, and its lowercase hexadecimal text.

    SHA-256 is a library function; the handlers only rely on it being a
    function from bytes to 32 bytes.  That is the [Sha256] class below;
    [Sha256Impl] gives the executable instance.  [hexdigest] follows
    CPython's [_Py_strhex]: two characters per byte, looked up in
    ["0123456789abcdef"] by the high and the low nibble.

    The theorems: the stored hash is 64 lowercase hex characters (so it is
    ASCII and binding it to SQLite never fails); [hexdigest] is injective,
    so the comparison of hex texts in [login] is the comparison of
    digests; [hash_password] raises exactly on passwords with a
    surrogate. *)

From stdpp Require Import base list.
From Stdlib Require Import ZArith Lia.
From S2P Require Import Prelude Text.

Open Scope Z_scope.

(** ** The digest interface *)

Class Sha256 := {
  sha256 : list Z -> list Z;
  sha256_length : forall bs, length (sha256 bs) = 32%nat;
  sha256_bytes : forall bs, Forall is_byte (sha256 bs)
}.

(** ** [hexdigest] *)

(** [Py_hexdigits]. *)
Definition Py_hexdigits : pystr := py "0123456789abcdef".

Definition hexdigit (n : Z) : Z := nth (Z.to_nat n) Py_hexdigits 0.

Definition hexdigest (bs : list Z) : pystr :=
  flat_map (fun c => [hexdigit (Z.shiftr c 4); hexdigit (Z.land c 0x0f)]) bs.

(** ** [hash_password]; [None] is the [UnicodeEncodeError] of [encode()] *)

Definition hash_password `{Sha256} (password : pystr) : option pystr :=
  match utf8_encode password with
  | Some bs => Some (hexdigest (sha256 bs))
  | None => None
  end.

(** ** Hex digits *)

(** A lowercase hex digit: ['0'..'9'] or ['a'..'f']. *)
Definition is_hex_char (c : Z) : Prop := 48 <= c <= 57 \/ 97 <= c <= 102.

Lemma hexdigit_spec n :
  0 <= n < 16 -> hexdigit n = if n <? 10 then 48 + n else 87 + n.
Proof.
  intros Hn.
  assert (Forall (fun k => hexdigit k = if k <? 10 then 48 + k else 87 + k) (seqZ 0 16)) as Hall
    by (vm_compute; repeat constructor).
  rewrite Forall_forall in Hall. apply Hall, elem_of_seqZ. lia.
Qed.

Lemma hexdigit_hex n : 0 <= n < 16 -> is_hex_char (hexdigit n).
Proof. intros Hn. rewrite hexdigit_spec by done. unfold is_hex_char. decide_cmps; lia. Qed.

(** The value of a hex digit, the left inverse of [hexdigit]. *)
Definition hexval (c : Z) : Z := if c <=? 57 then c - 48 else c - 87.

Lemma hexval_hexdigit n : 0 <= n < 16 -> hexval (hexdigit n) = n.
Proof. intros Hn. rewrite hexdigit_spec by done. unfold hexval. decide_cmps; lia. Qed.

Lemma byte_nibbles c :
  is_byte c -> 0 <= Z.shiftr c 4 < 16 /\ 0 <= Z.land c 0x0f < 16 /\
               c = Z.shiftr c 4 * 16 + Z.land c 0x0f.
Proof.
  unfold is_byte. intros Hc. autorewrite with bits. change (2 ^ 4) with 16. zarith.
Qed.

Lemma length_hexdigest bs : length (hexdigest bs) = (2 * length bs)%nat.
Proof. induction bs as [|c bs IH]; simpl; [done|]. rewrite IH. lia. Qed.

Lemma hexdigest_hex bs : Forall is_byte bs -> Forall is_hex_char (hexdigest bs).
Proof.
  induction 1 as [|c bs Hc Hbs IH]; simpl; [done|].
  destruct (byte_nibbles c Hc) as (Hhi & Hlo & _).
  constructor; [by apply hexdigit_hex|]. constructor; [by apply hexdigit_hex|]. done.
Qed.

Lemma hexdigest_injective a b :
  Forall is_byte a -> Forall is_byte b -> hexdigest a = hexdigest b -> a = b.
Proof.
  intros Ha. revert b. induction Ha as [|c a Hc Ha IH]; intros b Hb; invc Hb; simpl; try done.
  intros [= E1 E2 E3]. rename x into d.
  destruct (byte_nibbles c Hc) as (Hc1 & Hc2 & Hc3), (byte_nibbles d H) as (Hd1 & Hd2 & Hd3).
  apply (f_equal hexval) in E1, E2. rewrite !hexval_hexdigit in E1, E2 by done.
  f_equal; [lia|]. by apply IH.
Qed.

(** C35. Two byte strings with the same hex text are equal. *)
Theorem hexdigest_inj a b :
  Forall is_byte a -> Forall is_byte b -> hexdigest a = hexdigest b -> a = b.
Proof. apply hexdigest_injective. Qed.

Lemma hex_ascii s : Forall is_hex_char s -> is_ascii s.
Proof. unfold is_ascii, is_hex_char. intros H. eapply Forall_impl; [done|]. simpl. lia. Qed.

(** ** [hash_password] *)

Section HashPassword.
Context `{Sha256}.

Lemma hash_password_hex pw h :
  hash_password pw = Some h -> length h = 64%nat /\ Forall is_hex_char h.
Proof.
  unfold hash_password. destruct (utf8_encode pw) as [bs|]; intros [= <-].
  rewrite length_hexdigest, sha256_length. split; [done|].
  apply hexdigest_hex, sha256_bytes.
Qed.

(** C32. The stored credential is 64 lowercase hex characters. *)
Theorem hash_password_shape pw h :
  hash_password pw = Some h -> length h = 64%nat /\ Forall is_hex_char h.
Proof. apply hash_password_hex. Qed.

(** Hence binding it as a SQLite parameter encodes it to itself. *)
Lemma hash_password_encode pw h :
  hash_password pw = Some h -> utf8_encode h = Some h /\ valid_str h.
Proof.
  intros Hh. destruct (hash_password_hex pw h Hh) as [_ Hx].
  pose proof (hex_ascii h Hx). split; auto with messenger.
Qed.

(** C34. [hash_password] raises exactly on a password with a lone surrogate. *)
Theorem hash_password_fails pw :
  hash_password pw = None <-> Exists (fun c => is_surrogate c = true) pw.
Proof.
  rewrite <- utf8_encode_None. unfold hash_password.
  destruct (utf8_encode pw); naive_solver.
Qed.

(** C33. Comparing two hex digests compares the SHA-256 digests of the two
    encoded passwords. *)
Theorem hash_password_eq_iff pw1 pw2 h1 h2 :
  hash_password pw1 = Some h1 -> hash_password pw2 = Some h2 ->
  h1 = h2 <-> exists b1 b2, utf8_encode pw1 = Some b1 /\ utf8_encode pw2 = Some b2 /\
                      sha256 b1 = sha256 b2.
Proof.
  unfold hash_password.
  destruct (utf8_encode pw1) as [b1|], (utf8_encode pw2) as [b2|]; intros [= <-] [= <-].
  split.
  - intros E. exists b1, b2. split_and!; [done..|].
    apply hexdigest_injective; [apply sha256_bytes..|done].
  - intros (? & ? & [= <-] & [= <-] & E). by rewrite E.
Qed.
End HashPassword.
