(* ===== verification/Sha256Impl.v ===== *)
(** * Sha256Impl: an executable SHA-256, the instance of [Hasher.Sha256]

    [hashlib.sha256] is OpenSSL's SHA-256; this file writes FIPS 180-4 out
    on 32-bit words kept as [Z] in [0, 2^32): message padding, the big-endian
    word split, the message schedule, the 64 rounds of the compression
    function and the big-endian output.  Additions wrap modulo [2^32], kept
    as the low 32 bits of the sum ([add32], [add32_mod]).  The
    instance discharges the class's laws (32 bytes, each a byte); the
    known-answer tests fix the constants (those of FIPS 180-4, sections
    4.2.2 and 5.3.3, written in decimal). *)

From stdpp Require Import base list.
From Stdlib Require Import ZArith Lia.
From S2P Require Import Prelude Text Hasher.

Open Scope Z_scope.

Module SHA256.

Definition K : list Z := [
1116352408; 1899447441; 3049323471; 3921009573; 961987163; 1508970993; 2453635748; 2870763221;
3624381080; 310598401; 607225278; 1426881987; 1925078388; 2162078206; 2614888103; 3248222580;
3835390401; 4022224774; 264347078; 604807628; 770255983; 1249150122; 1555081692; 1996064986;
2554220882; 2821834349; 2952996808; 3210313671; 3336571891; 3584528711; 113926993; 338241895;
666307205; 773529912; 1294757372; 1396182291; 1695183700; 1986661051; 2177026350; 2456956037;
2730485921; 2820302411; 3259730800; 3345764771; 3516065817; 3600352804; 4094571909; 275423344;
430227734; 506948616; 659060556; 883997877; 958139571; 1322822218; 1537002063; 1747873779;
1955562222; 2024104815; 2227730452; 2361852424; 2428436474; 2756734187; 3204031479; 3329325298].

Definition H0 : list Z := [
1779033703; 3144134277; 1013904242; 2773480762; 1359893119; 2600822924; 528734635; 1541459225].

(** ** 32-bit word operations *)

(** Addition modulo [2^32] ([add32_mod]), as the low 32 bits of the sum. *)
Definition add32 (a b : Z) : Z := Z.land (a + b) 4294967295.
Definition rotr (x : Z) (n : Z) : Z :=
Z.lor (Z.shiftr x n) (Z.land (Z.shiftl x (32 - n)) 0xFFFFFFFF).

Definition Ch (x y z : Z) : Z := Z.lxor (Z.land x y) (Z.land (Z.lnot x) z).
Definition Maj (x y z : Z) : Z :=
Z.lxor (Z.land x y) (Z.lxor (Z.land x z) (Z.land y z)).
Definition Sigma0 (x : Z) : Z := Z.lxor (rotr x 2) (Z.lxor (rotr x 13) (rotr x 22)).
Definition Sigma1 (x : Z) : Z := Z.lxor (rotr x 6) (Z.lxor (rotr x 11) (rotr x 25)).
Definition sigma0 (x : Z) : Z := Z.lxor (rotr x 7) (Z.lxor (rotr x 18) (Z.shiftr x 3)).
Definition sigma1 (x : Z) : Z := Z.lxor (rotr x 17) (Z.lxor (rotr x 19) (Z.shiftr x 10)).

(** ** Padding and the word split *)

Definition be64 (n : Z) : list Z :=
map (fun i => Z.land (Z.shiftr n (8 * (7 - i))) 255) [0; 1; 2; 3; 4; 5; 6; 7].

(** The message, [0x80], zeros up to 56 modulo 64, the bit length. *)
Definition pad (bs : list Z) : list Z :=
let len := Z.of_nat (length bs) in
bs ++ [0x80] ++ replicate (Z.to_nat ((55 - len) mod 64)) 0 ++ be64 (8 * len).

Fixpoint words (bs : list Z) : list Z :=
match bs with
| a :: b :: c :: d :: r =>
    Z.lor (Z.shiftl a 24) (Z.lor (Z.shiftl b 16) (Z.lor (Z.shiftl c 8) d)) :: words r
| _ => []
end.

Definition word_bytes (w : Z) : list Z :=
[Z.land (Z.shiftr w 24) 255; Z.land (Z.shiftr w 16) 255;
 Z.land (Z.shiftr w 8) 255; Z.land w 255].

(** ** The compression function *)

(** [W[t] = sigma1(W[t-2]) + W[t-7] + sigma0(W[t-15]) + W[t-16]] for
  [t] from 16 to 63. *)
Fixpoint schedule (n : nat) (w : list Z) : list Z :=
match n with
| O => w
| S n' =>
    let t := length w in
    let x := add32 (add32 (sigma1 (nth (t - 2) w 0)) (nth (t - 7) w 0))
                   (add32 (sigma0 (nth (t - 15) w 0)) (nth (t - 16) w 0)) in
    schedule n' (w ++ [x])
end.

Definition regs : Type := Z * Z * Z * Z * Z * Z * Z * Z.

Definition round (st : regs) (kw : Z * Z) : regs :=
let '(a, b, c, d, e, f, g, h) := st in
let '(k, w) := kw in
let T1 := add32 (add32 (add32 h (Sigma1 e)) (add32 (Ch e f g) k)) w in
let T2 := add32 (Sigma0 a) (Maj a b c) in
(add32 T1 T2, a, b, c, add32 d T1, e, f, g).

Definition compress (H : list Z) (block : list Z) : list Z :=
match H with
| [h0; h1; h2; h3; h4; h5; h6; h7] =>
    let '(a, b, c, d, e, f, g, h) :=
      fold_left round (zip K (schedule 48 block)) (h0, h1, h2, h3, h4, h5, h6, h7) in
    [add32 h0 a; add32 h1 b; add32 h2 c; add32 h3 d;
     add32 h4 e; add32 h5 f; add32 h6 g; add32 h7 h]
| _ => H
end.

Fixpoint hash_blocks (n : nat) (H : list Z) (ws : list Z) : list Z :=
match n with
| O => H
| S n' => hash_blocks n' (compress H (take 16 ws)) (drop 16 ws)
end.

Definition sha256_impl (bs : list Z) : list Z :=
let ws := words (pad bs) in
flat_map word_bytes (hash_blocks (length ws / 16) H0 ws).

Lemma add32_mod a b : add32 a b = (a + b) mod 2 ^ 32.
Proof. unfold add32. change 4294967295 with (Z.ones 32). by rewrite Z.land_ones by lia. Qed.

(** ** The class laws *)

Lemma length_compress H block : length (compress H block) = length H.
Proof. unfold compress. repeat case_match; done. Qed.

Lemma length_hash_blocks n H ws : length (hash_blocks n H ws) = length H.
Proof.
revert H ws; induction n as [|n IH]; intros H ws; simpl; [done|].
by rewrite IH, length_compress.
Qed.

Lemma length_flat_map_word_bytes H : length (flat_map word_bytes H) = (4 * length H)%nat.
Proof. induction H as [|w H IH]; simpl; [done|]. rewrite IH. lia. Qed.

Lemma sha256_impl_length bs : length (sha256_impl bs) = 32%nat.
Proof. unfold sha256_impl. by rewrite length_flat_map_word_bytes, length_hash_blocks. Qed.

Lemma land_255_byte x : is_byte (Z.land x 255).
Proof. unfold is_byte. rewrite Z_land_255. zarith. Qed.

Lemma sha256_impl_bytes bs : Forall is_byte (sha256_impl bs).
Proof.
unfold sha256_impl. generalize (hash_blocks (length (words (pad bs)) / 16) H0 (words (pad bs))).
intros H. induction H as [|w H IH]; cbn [flat_map]; [done|].
rewrite Forall_app. split; [|done]. unfold word_bytes.
rewrite !Forall_cons. split_and!; try apply land_255_byte. done.
Qed.

End SHA256.

#[export] Instance Sha256Impl : Sha256 := {|
  sha256 := SHA256.sha256_impl;
  sha256_length := SHA256.sha256_impl_length;
  sha256_bytes := SHA256.sha256_impl_bytes
|}.

(** The FIPS 180-4 known answer for ["abc"]. *)
Example sha256_abc :
  SHA256.sha256_impl (py "abc") =
    [0xba; 0x78; 0x16; 0xbf; 0x8f; 0x01; 0xcf; 0xea; 0x41; 0x41; 0x40; 0xde; 0x5d; 0xae; 0x22; 0x23;
     0xb0; 0x03; 0x61; 0xa3; 0x96; 0x17; 0x7a; 0x9c; 0xb4; 0x10; 0xff; 0x61; 0xf2; 0x00; 0x15; 0xad].
Proof. vm_compute. reflexivity. Qed.

