(* ===== verification/Clock.v ===== *)
(** * Clock: the text of SQLite's [CURRENT_TIMESTAMP]

    The [timestamp] column of [messages] is [DATETIME DEFAULT
    CURRENT_TIMESTAMP] (server.py:58): SQLite fills it at insert time with
    the UTC time of the statement as the text ["YYYY-MM-DD HH:MM:SS"],
    whole seconds.  The column's NUMERIC affinity leaves that text a TEXT
    value, so [ORDER BY timestamp] (server.py:120) compares these strings
    byte by byte.

    [current_timestamp t] is that text for the Unix time [t] (seconds);
    the civil date is computed with the usual era/day-of-era integer
    algorithm on the proleptic Gregorian calendar, which is what SQLite's
    [datetime] prints for years 0000 to 9999 (the year is printed as four
    digits here whatever it is; SQLite differs outside those years).

    The theorems: the text is ASCII; for instants of the
    years 1970 to 9999 the byte order of two texts is the order of the
    instants ([current_timestamp_order]), through the number
    [YYYYMMDDHHMMSS] ([time_key]) that the text spells: fixed-width
    decimal fields compare as numbers, and [civil_from_days] is strictly
    increasing. *)

From stdpp Require Import base list.
From Stdlib Require Import ZArith Lia.
From S2P Require Import Prelude Text.

Open Scope Z_scope.

(** The civil date (year, month, day) of a day number counted from
    1970-01-01. *)
Definition civil_from_days (z : Z) : Z * Z * Z :=
  let z := z + 719468 in
  let era := z / 146097 in
  let doe := z - era * 146097 in
  let yoe := (doe - doe / 1460 + doe / 36524 - doe / 146096) / 365 in
  let y := yoe + era * 400 in
  let doy := doe - (365 * yoe + yoe / 4 - yoe / 100) in
  let mp := (5 * doy + 2) / 153 in
  let d := doy - (153 * mp + 2) / 5 + 1 in
  let m := if mp <? 10 then mp + 3 else mp - 9 in
  (if m <=? 2 then y + 1 else y, m, d).

(** [%0*d]: the last [w] decimal digits of [n], zero-padded. *)
Fixpoint digits (w : nat) (n : Z) : pystr :=
  match w with
  | O => []
  | S w' => digits w' (n / 10) ++ [48 + n mod 10]
  end.

Definition current_timestamp (t : Z) : pystr :=
  let secs := t mod 86400 in
  let '(y, m, d) := civil_from_days (t / 86400) in
  digits 4 y ++ py "-" ++ digits 2 m ++ py "-" ++ digits 2 d ++ py " " ++
  digits 2 (secs / 3600) ++ py ":" ++ digits 2 (secs / 60 mod 60) ++ py ":" ++
  digits 2 (secs mod 60).

(** ** The order of timestamps

    [ORDER BY timestamp] compares these texts byte by byte.  They sort as
    the times they print: the date and time fields are fixed-width
    decimal numbers, most significant first, and [civil_from_days] is
    increasing.  [civil_of_doe] is [civil_from_days] inside one 400-year
    era (day 0 of an era is 0000-03-01 of its first year); an era is
    146097 days, and the per-day facts are checked on every day of it by
    evaluation ([all_from]). *)
Definition civil_of_doe (doe : Z) : Z * Z * Z :=
  let yoe := (doe - doe / 1460 + doe / 36524 - doe / 146096) / 365 in
  let doy := doe - (365 * yoe + yoe / 4 - yoe / 100) in
  let mp := (5 * doy + 2) / 153 in
  let d := doy - (153 * mp + 2) / 5 + 1 in
  let m := if mp <? 10 then mp + 3 else mp - 9 in
  (if m <=? 2 then yoe + 1 else yoe, m, d).

(** The date as the number [YYYYMMDD]. *)
Definition date_key (ymd : Z * Z * Z) : Z :=
  let '(y, m, d) := ymd in y * 10000 + m * 100 + d.

(** Day [doe] of an era has a month and a day of month in range, and the
    next day has a larger key (the next era's first day after the last). *)
Definition doe_ok (doe : Z) : bool :=
  let '(y, m, d) := civil_of_doe doe in
  (1 <=? m) && (m <=? 12) && (1 <=? d) && (d <=? 31) &&
  (if doe =? 146096 then date_key (civil_of_doe doe) <? 4000000 + date_key (civil_of_doe 0)
   else date_key (civil_of_doe doe) <? date_key (civil_of_doe (doe + 1))).

Fixpoint all_from (n : nat) (doe : Z) : bool :=
  match n with
  | O => true
  | S n' => doe_ok doe && all_from n' (doe + 1)
  end.

(** The instant as the number [YYYYMMDDHHMMSS]. *)
Definition time_key (t : Z) : Z :=
  let secs := t mod 86400 in
  date_key (civil_from_days (t / 86400)) * 1000000 +
  (secs / 3600 * 10000 + secs / 60 mod 60 * 100 + secs mod 60).

(** [10000-01-01 00:00:00] UTC: from here on the year has five digits. *)
Definition max_time : Z := 253402300800.

(** [digits w n] has [w] digits. *)
Lemma length_digits w n : length (digits w n) = w.
Proof. revert n; induction w as [|w IH]; intros n; simpl; [done|]. rewrite length_app, IH. simpl. lia. Qed.

Lemma digits_ascii w n : is_ascii (digits w n).
Proof.
  revert n; induction w as [|w IH]; intros n; simpl; [constructor|].
  apply Forall_app. split; [apply IH|]. constructor; [zarith|constructor].
Qed.

Lemma current_timestamp_ascii t : is_ascii (current_timestamp t).
Proof.
  unfold current_timestamp. destruct (civil_from_days (t / 86400)) as [[y m] d].
  unfold is_ascii. repeat rewrite Forall_app; split_and!; try apply digits_ascii;
    unfold py; simpl; repeat constructor; lia.
Qed.

#[export] Hint Resolve current_timestamp_ascii : messenger.

(** ** The order of timestamps *)

Lemma all_from_spec n doe k :
  all_from n doe = true -> 0 <= k < Z.of_nat n -> doe_ok (doe + k) = true.
Proof.
  revert doe k. induction n as [|n IH]; intros doe k; simpl; [lia|].
  rewrite andb_true_iff. intros [Hd Hn] Hk.
  destruct (decide (k = 0)) as [->|Hk0]; [by rewrite Z.add_0_r|].
  replace (doe + k) with ((doe + 1) + (k - 1)) by lia. apply IH; [done|lia].
Qed.

Lemma all_days : all_from (Z.to_nat 146097) 0 = true.
Proof. vm_compute. reflexivity. Qed.

Lemma doe_ok_all doe : 0 <= doe < 146097 -> doe_ok doe = true.
Proof. intros. rewrite <- (Z.add_0_l doe). apply all_from_spec with (Z.to_nat 146097); [apply all_days|lia]. Qed.

Lemma civil_from_days_era z :
  civil_from_days z =
    let '(y, m, d) := civil_of_doe ((z + 719468) mod 146097) in
    (y + (z + 719468) / 146097 * 400, m, d).
Proof.
  unfold civil_from_days, civil_of_doe. cbv zeta beta iota.
  replace (z + 719468 - (z + 719468) / 146097 * 146097) with ((z + 719468) mod 146097)
    by (rewrite Z.mod_eq by lia; lia).
  set (doe := (z + 719468) mod 146097). set (era := (z + 719468) / 146097).
  match goal with |- (if ?c then _ else _, _, _) = _ => destruct c end; f_equal; f_equal; lia.
Qed.

Lemma date_key_era z :
  date_key (civil_from_days z) =
    (z + 719468) / 146097 * 4000000 + date_key (civil_of_doe ((z + 719468) mod 146097)).
Proof. rewrite civil_from_days_era. destruct (civil_of_doe _) as [[y m] d]. simpl. lia. Qed.

Lemma doe_ok_step doe :
  0 <= doe < 146097 ->
  if doe =? 146096 then date_key (civil_of_doe doe) < 4000000 + date_key (civil_of_doe 0)
  else date_key (civil_of_doe doe) < date_key (civil_of_doe (doe + 1)).
Proof.
  intros Hd. pose proof (doe_ok_all doe Hd) as Hok. unfold doe_ok in Hok.
  destruct (civil_of_doe doe) as [[y m] d]. rewrite !andb_true_iff in Hok.
  destruct Hok as [_ Hok]. case_match; by apply Z.ltb_lt.
Qed.

Lemma date_key_succ z : date_key (civil_from_days z) < date_key (civil_from_days (z + 1)).
Proof.
  rewrite !date_key_era. pose proof (Z.mod_pos_bound (z + 719468) 146097 ltac:(lia)) as Hb.
  pose proof (doe_ok_step _ Hb) as Hs.
  destruct (Z.eqb_spec ((z + 719468) mod 146097) 146096) as [He|Hne].
  - assert ((z + 1 + 719468) / 146097 = (z + 719468) / 146097 + 1 /\ (z + 1 + 719468) mod 146097 = 0)
      as [-> ->] by (split; zarith). rewrite He in Hs |- *. lia.
  - assert ((z + 1 + 719468) / 146097 = (z + 719468) / 146097 /\
            (z + 1 + 719468) mod 146097 = (z + 719468) mod 146097 + 1)
      as [-> ->] by (split; zarith). lia.
Qed.

Lemma date_key_mono z1 z2 : z1 < z2 -> date_key (civil_from_days z1) < date_key (civil_from_days z2).
Proof.
  intros Hlt. replace z2 with (z1 + 1 + Z.of_nat (Z.to_nat (z2 - z1 - 1))) by lia.
  induction (Z.to_nat (z2 - z1 - 1)) as [|n IH].
  - rewrite Z.add_0_r. apply date_key_succ.
  - rewrite Nat2Z.inj_succ. pose proof (date_key_succ (z1 + 1 + Z.of_nat n)). 
    replace (z1 + 1 + Z.succ (Z.of_nat n)) with (z1 + 1 + Z.of_nat n + 1) by lia. lia.
Qed.

Lemma civil_ranges z :
  let '(y, m, d) := civil_from_days z in 1 <= m <= 12 /\ 1 <= d <= 31.
Proof.
  rewrite civil_from_days_era.
  pose proof (doe_ok_all ((z + 719468) mod 146097) (Z.mod_pos_bound (z + 719468) 146097 ltac:(lia))) as Hok.
  unfold doe_ok in Hok. destruct (civil_of_doe _) as [[y m] d].
  rewrite !andb_true_iff, !Z.leb_le in Hok. lia.
Qed.

Lemma lex_leb_digits w a b s1 s2 :
  0 <= a < 10 ^ Z.of_nat w -> 0 <= b < 10 ^ Z.of_nat w ->
  lex_leb (digits w a ++ s1) (digits w b ++ s2) = (a <? b) || ((a =? b) && lex_leb s1 s2).
Proof.
  revert a b s1 s2. induction w as [|w IH]; intros a b s1 s2 Ha Hb; simpl.
  - assert (a = 0 /\ b = 0) as [-> ->] by (simpl in *; lia). done.
  - rewrite Nat2Z.inj_succ, Z.pow_succ_r in Ha, Hb by lia.
    rewrite <- !app_assoc, IH by (split; zarith). simpl.
    destruct (Z.ltb_spec (a / 10) (b / 10)), (Z.eqb_spec (a / 10) (b / 10)),
      (Z.ltb_spec (48 + a mod 10) (48 + b mod 10)), (Z.eqb_spec (48 + a mod 10) (48 + b mod 10)),
      (Z.ltb_spec a b), (Z.eqb_spec a b); simpl; try done; zarith.
Qed.

Lemma lex_leb_digits_end w a b :
  0 <= a < 10 ^ Z.of_nat w -> 0 <= b < 10 ^ Z.of_nat w ->
  lex_leb (digits w a) (digits w b) = (a <=? b).
Proof.
  intros Ha Hb. rewrite <- (app_nil_r (digits w a)), <- (app_nil_r (digits w b)), lex_leb_digits by done.
  simpl. destruct (Z.ltb_spec a b), (Z.eqb_spec a b), (Z.leb_spec a b); simpl; try done; lia.
Qed.

Lemma lex_leb_sep c s1 s2 : lex_leb (c :: s1) (c :: s2) = lex_leb s1 s2.
Proof. simpl. by rewrite Z.ltb_irrefl, Z.eqb_refl. Qed.

(** Comparing a field, then the rest, is comparing the number they make. *)
Lemma lex_fields a1 a2 r1 r2 B :
  0 <= r1 < B -> 0 <= r2 < B ->
  (a1 <? a2) || ((a1 =? a2) && (r1 <=? r2)) = (a1 * B + r1 <=? a2 * B + r2).
Proof.
  intros. destruct (Z.ltb_spec a1 a2), (Z.eqb_spec a1 a2), (Z.leb_spec r1 r2),
    (Z.leb_spec (a1 * B + r1) (a2 * B + r2)); simpl; try done; nia.
Qed.

Lemma secs_key_mono s1 s2 :
  0 <= s1 < s2 -> s2 < 86400 ->
  s1 / 3600 * 10000 + s1 / 60 mod 60 * 100 + s1 mod 60 <
  s2 / 3600 * 10000 + s2 / 60 mod 60 * 100 + s2 mod 60.
Proof.
  intros. rewrite <- !(Z.div_div _ 60 60) by lia. zarith.
Qed.

Lemma time_key_mono t1 t2 : t1 < t2 -> time_key t1 < time_key t2.
Proof.
  intros Hlt. unfold time_key.
  assert (t1 / 86400 <= t2 / 86400) as Hle by (apply Z.div_le_mono; lia).
  pose proof (Z.mod_pos_bound t1 86400 ltac:(lia)). pose proof (Z.mod_pos_bound t2 86400 ltac:(lia)).
  destruct (Z.eq_dec (t1 / 86400) (t2 / 86400)) as [E|Hne].
  - rewrite E. assert (t1 mod 86400 < t2 mod 86400) by zarith.
    pose proof (secs_key_mono (t1 mod 86400) (t2 mod 86400)). lia.
  - pose proof (date_key_mono (t1 / 86400) (t2 / 86400) ltac:(lia)).
    assert (forall s, 0 <= s < 86400 -> 0 <= s / 3600 * 10000 + s / 60 mod 60 * 100 + s mod 60 < 1000000)
      as Hs by (intros; zarith).
    pose proof (Hs (t1 mod 86400) ltac:(lia)). pose proof (Hs (t2 mod 86400) ltac:(lia)). lia.
Qed.

Lemma date_key_range z :
  0 <= z < 2932897 ->
  let '(y, m, d) := civil_from_days z in 1970 <= y <= 9999 /\ 1 <= m <= 12 /\ 1 <= d <= 31.
Proof.
  intros Hz. pose proof (civil_ranges z) as Hr.
  assert (date_key (civil_from_days 0) <= date_key (civil_from_days z) <=
          date_key (civil_from_days 2932896)) as Hk.
  { split; (destruct (Z.eq_dec z 0) as [->|]; [lia|]) || (destruct (Z.eq_dec z 2932896) as [->|]; [lia|]);
      apply Z.lt_le_incl, date_key_mono; lia. }
  assert (date_key (civil_from_days 0) = 19700101 /\ date_key (civil_from_days 2932896) = 99991231)
    as [E0 E1] by (split; vm_compute; reflexivity).
  rewrite E0, E1 in Hk. destruct (civil_from_days z) as [[y m] d]. simpl in Hk. lia.
Qed.

Lemma timestamp_lex t1 t2 :
  0 <= t1 < max_time -> 0 <= t2 < max_time ->
  lex_leb (current_timestamp t1) (current_timestamp t2) = (time_key t1 <=? time_key t2).
Proof.
  unfold max_time. intros H1 H2. unfold current_timestamp, time_key.
  pose proof (date_key_range (t1 / 86400) ltac:(zarith)) as R1.
  pose proof (date_key_range (t2 / 86400) ltac:(zarith)) as R2.
  pose proof (Z.mod_pos_bound t1 86400 ltac:(lia)). pose proof (Z.mod_pos_bound t2 86400 ltac:(lia)).
  destruct (civil_from_days (t1 / 86400)) as [[y1 m1] d1], (civil_from_days (t2 / 86400)) as [[y2 m2] d2].
  simpl date_key. cbn [py String.list_ascii_of_string map Ascii.nat_of_ascii app].
  repeat first [rewrite lex_leb_sep | rewrite lex_leb_digits by (simpl; zarith)
               | rewrite lex_leb_digits_end by (simpl; zarith)].
  assert (forall s, 0 <= s < 86400 -> 0 <= s / 3600 < 24 /\ 0 <= s / 60 mod 60 < 60 /\ 0 <= s mod 60 < 60)
    as Hs by (intros; zarith).
  destruct (Hs (t1 mod 86400)) as (? & ? & ?); [lia|]. destruct (Hs (t2 mod 86400)) as (? & ? & ?); [lia|].
  rewrite (lex_fields _ _ _ _ 100), (lex_fields _ _ _ _ 10000), (lex_fields _ _ _ _ 1000000),
    (lex_fields _ _ _ _ 100000000), (lex_fields _ _ _ _ 10000000000) by lia.
  f_equal; lia.
Qed.

(** C36. Within the years 1970 to 9999, comparing two [CURRENT_TIMESTAMP]
    texts byte by byte, as [ORDER BY timestamp] does, compares the
    instants they were taken at: the text of [t1] sorts before or equal
    to the text of [t2] exactly when [t1 <= t2]. *)
Theorem current_timestamp_order t1 t2 :
  0 <= t1 < max_time -> 0 <= t2 < max_time ->
  lex_leb (current_timestamp t1) (current_timestamp t2) = (t1 <=? t2).
Proof.
  intros H1 H2. rewrite timestamp_lex by done.
  destruct (Z.leb_spec (time_key t1) (time_key t2)), (Z.leb_spec t1 t2); try done.
  - pose proof (time_key_mono t2 t1). lia.
  - destruct (Z.eq_dec t1 t2) as [->|]; [lia|]. pose proof (time_key_mono t1 t2). lia.
Qed.

