(* ===== verification/Store.v ===== *)
(** * Store: the SQLite database [messenger.db]

    The schema is created by [init_db] (server.py:46-61):
    [users(username TEXT PRIMARY KEY, password_hash TEXT NOT NULL)] and
    [messages(id INTEGER PRIMARY KEY AUTOINCREMENT, sender TEXT NOT NULL,
    receiver TEXT NOT NULL, text TEXT NOT NULL, timestamp DATETIME DEFAULT
    CURRENT_TIMESTAMP)].  A table that was never created is [None]; a TEXT
    value is the list of its UTF-8 bytes, as SQLite stores it; rows are
    kept in rowid order.  [sqlite_sequence] is the AUTOINCREMENT
    high-water mark of [messages].

    One definition per SQL statement of the program, on committed or
    uncommitted contents alike (the connection layer is in [Handlers]):
    [create_users] and [create_messages] (server.py:49-59),
    [insert_user] (server.py:75), [select_password_hash] (server.py:88-89),
    [select_usernames] (server.py:99-100), [insert_message]
    (server.py:108), [select_messages] (server.py:118-121).

    Modelling choices, each the behaviour of SQLite on these statements:
    the PRIMARY KEY on [username] rejects a duplicate with an
    [IntegrityError]; comparisons are byte comparisons (BINARY collation);
    [SELECT username FROM users] scans the covering primary-key index, so
    it lists the names in byte order; AUTOINCREMENT gives
    [max(sqlite_sequence, max id) + 1] and fails with "database or disk is
    full" beyond [2^63 - 1]; [ORDER BY timestamp] is the stable sort
    [sort_by] of the rows the WHERE clause keeps, in rowid order.  What the
    SQL itself promises about [ORDER BY] is the weaker [order_by_contract]:
    some permutation sorted by the key.

    The theorems: every statement preserves [wf_db] (unique usernames,
    increasing ids bounded by the sequence, every TEXT value valid UTF-8,
    timestamps ASCII);
    the users table refines a finite map from names to digests, with
    [insert_user] the insert-if-absent and [select_password_hash] the
    lookup; [select_messages] returns exactly the messages of the
    conversation, sorted by timestamp; in this model ties come out in id
    order, which the SQL contract alone does not guarantee; the message id
    bound. *)

From stdpp Require Import base list gmap.
From Stdlib Require Import ZArith Lia Sorted.
From S2P Require Import Prelude Text.

Open Scope Z_scope.

(** ** Data *)

(** [sqlite3.IntegrityError] and [sqlite3.OperationalError], with
    SQLite's message. *)
Inductive sql_error : Type :=
| IntegrityError (reason : String.string)
| OperationalError (reason : String.string).
Arguments IntegrityError _%_string_scope.
Arguments OperationalError _%_string_scope.

Record user_row : Type := mk_user_row {
  username : list Z;
  password_hash : list Z
}.

Record message_row : Type := mk_message_row {
  id : Z;
  sender : list Z;
  receiver : list Z;
  text : list Z;
  timestamp : list Z
}.

Record db : Type := mk_db {
  users : option (list user_row);
  messages : option (list message_row);
  sqlite_sequence : Z
}.

(** A new, empty [messenger.db] file. *)
Definition empty_db : db := mk_db None None 0.

(** The largest rowid, [2^63 - 1]. *)
Definition max_rowid : Z := 2 ^ 63 - 1.

(** ** The statements *)

(** [CREATE TABLE IF NOT EXISTS users (...)] *)
Definition create_users (d : db) : db :=
  match users d with
  | Some _ => d
  | None => mk_db (Some []) (messages d) (sqlite_sequence d)
  end.

(** [CREATE TABLE IF NOT EXISTS messages (...)] *)
Definition create_messages (d : db) : db :=
  match messages d with
  | Some _ => d
  | None => mk_db (users d) (Some []) (sqlite_sequence d)
  end.

(** [INSERT INTO users (username, password_hash) VALUES (?, ?)] *)
Definition insert_user (d : db) (name hash : list Z) : outcome sql_error db :=
  match users d with
  | None => Raise (OperationalError "no such table: users")
  | Some us =>
      if bool_decide (name ∈ map username us)
      then Raise (IntegrityError "UNIQUE constraint failed: users.username")
      else Ok (mk_db (Some (us ++ [mk_user_row name hash])) (messages d) (sqlite_sequence d))
  end.

(** [SELECT password_hash FROM users WHERE username = ?], then
    [fetchone()]: the first row, if any. *)
Definition select_password_hash (d : db) (name : list Z)
    : outcome sql_error (option (list Z)) :=
  match users d with
  | None => Raise (OperationalError "no such table: users")
  | Some us => Ok (password_hash <$> head (filter (fun r => username r = name) us))
  end.

Definition username_leb (a b : user_row) : bool := lex_leb (username a) (username b).

(** [SELECT username FROM users], then [fetchall()]: the scan of the
    primary-key index [sqlite_autoindex_users_1]. *)
Definition select_usernames (d : db) : outcome sql_error (list (list Z)) :=
  match users d with
  | None => Raise (OperationalError "no such table: users")
  | Some us => Ok (map username (sort_by username_leb us))
  end.

Definition max_id (ms : list message_row) : Z := foldr (fun m acc => Z.max (id m) acc) 0 ms.

(** [INSERT INTO messages (sender, receiver, text) VALUES (?, ?, ?)], at
    the time whose [CURRENT_TIMESTAMP] text is [now]. *)
Definition insert_message (d : db) (now s r t : list Z) : outcome sql_error db :=
  match messages d with
  | None => Raise (OperationalError "no such table: messages")
  | Some ms =>
      let new_id := Z.max (sqlite_sequence d) (max_id ms) + 1 in
      if max_rowid <? new_id then Raise (OperationalError "database or disk is full")
      else Ok (mk_db (users d) (Some (ms ++ [mk_message_row new_id s r t now])) new_id)
  end.

(** [WHERE (sender = ? AND receiver = ?) OR (sender = ? AND receiver = ?)]
    with the parameters [(user1, user2, user2, user1)]. *)
Definition conversation (u1 u2 : list Z) (m : message_row) : Prop :=
  (sender m = u1 /\ receiver m = u2) \/ (sender m = u2 /\ receiver m = u1).

#[export] Instance conversation_dec u1 u2 m : Decision (conversation u1 u2 m).
Proof. unfold conversation. apply _. Defined.

Definition timestamp_leb (a b : message_row) : bool := lex_leb (timestamp a) (timestamp b).

(** [SELECT * FROM messages WHERE ... ORDER BY timestamp ASC], then
    [fetchall()]. *)
Definition select_messages (d : db) (u1 u2 : list Z) : outcome sql_error (list message_row) :=
  match messages d with
  | None => Raise (OperationalError "no such table: messages")
  | Some ms => Ok (sort_by timestamp_leb (filter (conversation u1 u2) ms))
  end.

(** What [ORDER BY timestamp ASC] promises by itself: the selected rows,
    in some order that is sorted by the timestamp. *)
Definition order_by_contract (selected result : list message_row) : Prop :=
  result ≡ₚ selected /\ Sorted (fun a b => timestamp_leb a b = true) result.

(** ** Well-formed contents

    The timestamp is SQLite's own ASCII text; the other TEXT values come
    from Python strings through the sqlite3 module. *)

(** A TEXT value written through the sqlite3 module: the UTF-8 bytes of a
    Python string. *)
Definition is_text (bs : list Z) : Prop := exists s, valid_str s /\ utf8_encode s = Some bs.

Definition wf_user (r : user_row) : Prop := is_text (username r) /\ is_text (password_hash r).

Definition wf_users (us : list user_row) : Prop :=
  NoDup (map username us) /\ Forall wf_user us.

Definition wf_message (seq : Z) (m : message_row) : Prop :=
  1 <= id m <= seq /\ is_text (sender m) /\ is_text (receiver m) /\
  is_text (text m) /\ is_ascii (timestamp m).

Definition wf_messages (seq : Z) (ms : list message_row) : Prop :=
  StronglySorted (fun a b => id a < id b) ms /\ Forall (wf_message seq) ms.

Definition wf_db (d : db) : Prop :=
  (forall us, users d = Some us -> wf_users us) /\
  (forall ms, messages d = Some ms -> wf_messages (sqlite_sequence d) ms) /\
  0 <= sqlite_sequence d <= max_rowid.

(** ** Well-formedness of each statement *)

Lemma max_rowid_pos : 0 < max_rowid.
Proof. unfold max_rowid. lia. Qed.

Lemma wf_empty_db : wf_db empty_db.
Proof. pose proof max_rowid_pos. repeat split; simpl; try done; lia. Qed.

Lemma create_users_wf d : wf_db d -> wf_db (create_users d).
Proof.
  unfold create_users. intros Hwf. destruct (users d) eqn:E; [done|].
  destruct Hwf as (Hu & Hm & Hs).
  split_and!; simpl; try done; try lia. intros us [= <-]. split; constructor.
Qed.

Lemma create_messages_wf d : wf_db d -> wf_db (create_messages d).
Proof.
  unfold create_messages. intros Hwf. destruct (messages d) eqn:E; [done|].
  destruct Hwf as (Hu & Hm & Hs).
  split_and!; simpl; try done; try lia. intros ms [= <-]. split; constructor.
Qed.

Lemma insert_user_preserves_wf d name hash d' :
  wf_db d -> is_text name -> is_text hash ->
  insert_user d name hash = Ok d' -> wf_db d'.
Proof.
  unfold insert_user. intros (Hu & Hm & Hs) Hn Hh.
  destruct (users d) as [us|] eqn:E; [|done]. case_bool_decide as Hin; [done|].
  intros [= <-]. split_and!; simpl; try done; try lia.
  intros us' [= <-]. destruct (Hu us eq_refl) as [Hnd Hf]. split.
  - rewrite map_app. simpl. apply NoDup_app. split_and!; [done| |by apply NoDup_singleton].
    intros x Hx ->%list_elem_of_singleton. done.
  - apply Forall_app. split; [done|]. repeat constructor; done.
Qed.

(** C26. An insert of encoded texts into a well-formed users table gives a well-formed database: names stay unique. *)
Lemma insert_user_wf d name hash d' :
  wf_db d -> is_text name -> is_text hash ->
  insert_user d name hash = Ok d' -> wf_db d'.
Proof. apply insert_user_preserves_wf. Qed.

Lemma max_id_le seq ms : 0 <= seq -> Forall (wf_message seq) ms -> max_id ms <= seq.
Proof.
  intros Hs. induction 1 as [|m ms [Hm _] _ IH]; simpl; [done|]. lia.
Qed.

Lemma insert_message_eq d ms now s r t :
  wf_db d -> messages d = Some ms ->
  insert_message d now s r t =
    if sqlite_sequence d <? max_rowid
    then Ok (mk_db (users d) (Some (ms ++ [mk_message_row (sqlite_sequence d + 1) s r t now]))
                   (sqlite_sequence d + 1))
    else Raise (OperationalError "database or disk is full").
Proof.
  intros (_ & Hm & Hs) Hms. unfold insert_message. rewrite Hms.
  destruct (Hm ms Hms) as [_ Hf]. pose proof (max_id_le _ _ (proj1 Hs) Hf).
  rewrite Z.max_l by lia. decide_cmps; done.
Qed.

(** C24. AUTOINCREMENT on a well-formed table: the new id is the sequence plus
    one, and the insert fails with SQLITE_FULL exactly when the sequence
    has reached [2^63 - 1]. *)
Theorem insert_message_id d ms now s r t :
  wf_db d -> messages d = Some ms ->
  insert_message d now s r t =
    if sqlite_sequence d <? max_rowid
    then Ok (mk_db (users d) (Some (ms ++ [mk_message_row (sqlite_sequence d + 1) s r t now]))
                   (sqlite_sequence d + 1))
    else Raise (OperationalError "database or disk is full").
Proof. apply insert_message_eq. Qed.

Lemma insert_message_preserves_wf d now s r t d' :
  wf_db d -> is_ascii now -> is_text s -> is_text r -> is_text t ->
  insert_message d now s r t = Ok d' -> wf_db d'.
Proof.
  intros Hwf Hnow Hs' Hr Ht. destruct (messages d) as [ms|] eqn:Hms;
    [|unfold insert_message; by rewrite Hms].
  rewrite (insert_message_eq d ms) by done.
  destruct Hwf as (Hu & Hm & Hseq). decide_cmps; [|done]. intros [= <-].
  destruct (Hm ms Hms) as [Hsort Hf]. split_and!; simpl; try done; try lia.
  intros ms' [= <-]. split.
  - apply StronglySorted_snoc; [done|]. eapply Forall_impl; [apply Hf|].
    intros m (? & _). simpl. lia.
  - apply Forall_app. split.
    + eapply Forall_impl; [apply Hf|]. intros m (? & ?). split; [lia|done].
    + repeat constructor; simpl; try lia; done.
Qed.

(** C25. An insert into a well-formed messages table of encoded texts and an ASCII timestamp gives a well-formed database. *)
Lemma insert_message_wf d now s r t d' :
  wf_db d -> is_ascii now -> is_text s -> is_text r -> is_text t ->
  insert_message d now s r t = Ok d' -> wf_db d'.
Proof. apply insert_message_preserves_wf. Qed.

(** ** The users table refines a finite map *)

(** The abstract users table: a finite map from a name to its digest. *)
Definition users_map (us : list user_row) : gmap (list Z) (list Z) :=
  list_to_map (map (fun r => (username r, password_hash r)) us).

(** Registration in the abstract: insert if the name is absent. *)
Definition abs_register (m : gmap (list Z) (list Z)) (k v : list Z)
    : option (gmap (list Z) (list Z)) :=
  match m !! k with
  | Some _ => None
  | None => Some (<[k:=v]> m)
  end.

Lemma users_map_lookup us k :
  users_map us !! k = password_hash <$> head (filter (fun r => username r = k) us).
Proof.
  unfold users_map. induction us as [|r us IH]; simpl; [done|].
  rewrite filter_cons. destruct (decide (username r = k)) as [<-|Hne].
  - by rewrite lookup_insert_eq.
  - rewrite lookup_insert_ne by done. apply IH.
Qed.

Lemma users_map_elem us k : k ∈ map username us <-> is_Some (users_map us !! k).
Proof.
  rewrite users_map_lookup. induction us as [|r us IH]; simpl.
  - rewrite elem_of_nil. split; [done|]. by intros [].
  - rewrite elem_of_cons, filter_cons, IH. case_decide; simpl; naive_solver.
Qed.

Lemma users_map_snoc us r :
  username r ∉ map username us ->
  users_map (us ++ [r]) = <[username r := password_hash r]> (users_map us).
Proof.
  unfold users_map. induction us as [|r' us IH]; simpl; intros Hnin; [done|].
  rewrite elem_of_cons in Hnin. rewrite IH by naive_solver.
  apply insert_insert_ne. naive_solver.
Qed.

Lemma select_password_hash_lookup d us k :
  users d = Some us -> select_password_hash d k = Ok (users_map us !! k).
Proof. intros Hus. unfold select_password_hash. by rewrite Hus, users_map_lookup. Qed.

(** C21. [fetchone()] of the lookup query is the map's lookup. *)
Theorem select_password_hash_refines d us k :
  users d = Some us -> select_password_hash d k = Ok (users_map us !! k).
Proof. apply select_password_hash_lookup. Qed.

(** C20. [insert_user] is the abstract insert-if-absent: it fails with the
    UNIQUE error exactly when the abstract map already has the name, and
    otherwise yields the table of the abstract insert. *)
Theorem insert_user_refines d us k v :
  users d = Some us ->
  match insert_user d k v with
  | Ok d' => exists us', users d' = Some us' /\ abs_register (users_map us) k v = Some (users_map us')
  | Raise e => e = IntegrityError "UNIQUE constraint failed: users.username" /\
               abs_register (users_map us) k v = None
  end.
Proof.
  intros Hus. unfold insert_user, abs_register. rewrite Hus.
  case_bool_decide as Hin.
  - apply users_map_elem in Hin as [? ->]. done.
  - destruct (users_map us !! k) eqn:E; [destruct Hin; apply users_map_elem; by rewrite E|].
    eexists. split; [done|]. by rewrite (users_map_snoc us (mk_user_row k v)).
Qed.

(** ** [select_messages] *)

Lemma timestamp_leb_total a b : timestamp_leb a b = true \/ timestamp_leb b a = true.
Proof. unfold timestamp_leb. destruct (lex_leb_total (timestamp a) (timestamp b)); auto. Qed.

Lemma timestamp_leb_trans a b c :
  timestamp_leb a b = true -> timestamp_leb b c = true -> timestamp_leb a c = true.
Proof. unfold timestamp_leb. eauto using lex_leb_trans. Qed.

(** C22. The query runs whenever the table exists, and its rows meet the SQL
    contract of [ORDER BY timestamp ASC] on the rows the WHERE clause
    selects. *)
Theorem select_messages_contract d ms u1 u2 :
  messages d = Some ms ->
  exists res, select_messages d u1 u2 = Ok res /\
              order_by_contract (filter (conversation u1 u2) ms) res.
Proof.
  intros Hms. unfold select_messages. rewrite Hms. eexists. split; [done|]. split.
  - apply sort_by_perm.
  - apply sort_by_sorted, timestamp_leb_total.
Qed.

Lemma select_messages_filter d ms u1 u2 res :
  wf_db d -> messages d = Some ms -> select_messages d u1 u2 = Ok res ->
  NoDup res /\ forall m, m ∈ res <-> m ∈ ms /\ conversation u1 u2 m.
Proof.
  intros (_ & Hm & _) Hms. unfold select_messages. rewrite Hms. intros [= <-].
  destruct (Hm ms Hms) as [Hsort _].
  assert (NoDup ms).
  { eapply NoDup_StronglySorted; [|done]. simpl. lia. }
  split; [rewrite sort_by_perm; by apply NoDup_filter|].
  intros m. rewrite sort_by_perm, list_elem_of_filter. tauto.
Qed.

(** C23. The conversation of [u1] and [u2] is exactly the messages sent by one
    of them to the other, each once (also when [u1 = u2]). *)
Theorem select_messages_members d ms u1 u2 res :
  wf_db d -> messages d = Some ms -> select_messages d u1 u2 = Ok res ->
  NoDup res /\ forall m, m ∈ res <-> m ∈ ms /\ conversation u1 u2 m.
Proof. apply select_messages_filter. Qed.

(** The order the spec asks for: by timestamp, ties by id. *)
Definition ts_id_leb (a b : message_row) : bool :=
  if bool_decide (timestamp a = timestamp b) then id a <=? id b else timestamp_leb a b.

Lemma ts_id_leb_total a b : ts_id_leb a b = true \/ ts_id_leb b a = true.
Proof.
  unfold ts_id_leb. do 2 case_bool_decide; try congruence.
  - decide_cmps; auto.
  - apply timestamp_leb_total.
Qed.

Lemma ts_id_leb_trans a b c :
  ts_id_leb a b = true -> ts_id_leb b c = true -> ts_id_leb a c = true.
Proof.
  unfold ts_id_leb, timestamp_leb.
  case_bool_decide as Hab; case_bool_decide as Hbc; case_bool_decide as Hac;
    rewrite ?Z.leb_le; intros H1 H2; try congruence; try lia.
  - destruct Hab. apply lex_leb_antisym; congruence.
  - eauto using lex_leb_trans.
Qed.

(** On rows in increasing id order, sorting by timestamp alone and by
    (timestamp, id) give the same list: the sort is stable. *)
Lemma insert_by_ts_id x s :
  Forall (fun y => id x < id y) s ->
  insert_by timestamp_leb x s = insert_by ts_id_leb x s.
Proof.
  induction 1 as [|y s Hy _ IH]; simpl; [done|].
  assert (timestamp_leb x y = ts_id_leb x y) as ->; [|by rewrite IH].
  unfold ts_id_leb, timestamp_leb. case_bool_decide as E; [|done].
  rewrite E, lex_leb_refl. decide_cmps; done.
Qed.

Lemma sort_by_ts_id l :
  StronglySorted (fun a b => id a < id b) l -> sort_by timestamp_leb l = sort_by ts_id_leb l.
Proof.
  induction 1 as [|x l Hl IH Hx]; simpl; [done|]. rewrite IH. apply insert_by_ts_id.
  rewrite Forall_forall in Hx |- *. intros y Hy. apply Hx.
  apply list_elem_of_In. rewrite <- (sort_by_perm ts_id_leb l). by apply list_elem_of_In.
Qed.

Lemma select_messages_sorted_ts_id d ms u1 u2 res :
  wf_db d -> messages d = Some ms -> select_messages d u1 u2 = Ok res ->
  Sorted (fun a b => ts_id_leb a b = true) res.
Proof.
  intros (_ & Hm & _) Hms. unfold select_messages. rewrite Hms. intros [= <-].
  destruct (Hm ms Hms) as [Hsort _].
  rewrite sort_by_ts_id by (by apply StronglySorted_filter).
  apply sort_by_sorted, ts_id_leb_total.
Qed.

(** C16. In this model (SQLite's sorter keeping the scan order on ties) the
    conversation comes out ordered by timestamp, ties by id: the order
    the spec's data-model invariant states. *)
Theorem select_messages_ts_id_order d ms u1 u2 res :
  wf_db d -> messages d = Some ms -> select_messages d u1 u2 = Ok res ->
  Sorted (fun a b => ts_id_leb a b = true) res.
Proof. apply select_messages_sorted_ts_id. Qed.

Lemma insert_user_tables d n h d' :
  insert_user d n h = Ok d' -> is_Some (users d') /\ messages d' = messages d.
Proof. unfold insert_user. destruct (users d); [case_bool_decide|]; intros; simplify_eq; done. Qed.

Lemma insert_message_tables d now s r t d' :
  insert_message d now s r t = Ok d' -> users d' = users d /\ is_Some (messages d').
Proof.
  unfold insert_message. destruct (messages d); [|done].
  destruct (max_rowid <? _); intros [= <-]; done.
Qed.
