(* ===== verification/Handlers.v ===== *)
(** * Handlers: [init_db] and the five endpoints (server.py:41-123)

    The world of a handler is the committed database file, the open
    sqlite3 connections and the wall clock.  A connection is opened by
    [get_db] (server.py:41-44) and has, while a transaction is open, its
    uncommitted working copy of the database.  The sqlite3 module (legacy
    transaction control) opens a transaction implicitly before an INSERT;
    [commit()] writes the working copy to the file; [close()] drops the
    connection and with it any uncommitted change.  DDL statements run in
    autocommit mode.

    Each handler is a program in the state-and-exception monad of
    [Prelude], statement by statement as in the source:
    [bind_param] is the sqlite3 module encoding a [str] parameter
    (raising [UnicodeEncodeError] on a surrogate); [fetch_text] is its
    decoding of a TEXT column on fetch; [try ... except] and
    [try ... finally] are Python's.  The exceptions are
    [sqlite3.Error]s, [UnicodeEncodeError] and FastAPI's
    [HTTPException status detail]. *)

From stdpp Require Import base list.
From Stdlib Require Import ZArith Lia.
From S2P Require Import Prelude Text Hasher Clock Store.

Open Scope Z_scope.
Open Scope messenger_scope.

(** ** Requests and responses (server.py:20-38) *)

Record UserCreate : Type := mk_UserCreate { uc_username : pystr; uc_password : pystr }.
Record UserLogin : Type := mk_UserLogin { ul_username : pystr; ul_password : pystr }.
Record MessageCreate : Type := mk_MessageCreate {
  mc_sender : pystr; mc_receiver : pystr; mc_text : pystr }.

Record Message : Type := mk_Message {
  msg_id : Z; msg_sender : pystr; msg_receiver : pystr; msg_text : pystr; msg_timestamp : pystr }.

(** The JSON bodies the handlers return. *)
Inductive response : Type :=
| RMessage (message : String.string)
| RUsers (usernames : list pystr)
| RMessages (messages : list Message).
Arguments RMessage _%_string_scope.

Inductive exn : Type :=
| SqliteError (e : sql_error)
| UnicodeEncodeError
| HTTPException (status_code : Z) (detail : String.string).
Arguments HTTPException _ _%_string_scope.

(** ** The world *)

Record conn : Type := mk_conn { conn_id : nat; conn_txn : option db }.

Record world : Type := mk_world {
  store : db;
  conns : list conn;
  next_conn : nat;
  clock : Z
}.

(** A handler step: a Python computation on the world. *)
Abbreviation Py := (M exn world).

(** ** Connections *)

(** [sqlite3.connect("messenger.db")]. *)
Definition get_db : Py nat :=
  fun w => (Ok (next_conn w),
            mk_world (store w) (conns w ++ [mk_conn (next_conn w) None]) (S (next_conn w)) (clock w)).

Definition find_conn (c : nat) (w : world) : option conn :=
  head (filter (fun k => conn_id k = c) (conns w)).

(** What connection [c] reads: its working copy, or the file. *)
Definition conn_view (c : nat) (w : world) : db :=
  match find_conn c w with
  | Some (mk_conn _ (Some d)) => d
  | _ => store w
  end.

Definition set_txn (c : nat) (t : option db) (w : world) : world :=
  mk_world (store w)
           (map (fun k => if decide (conn_id k = c) then mk_conn c t else k) (conns w))
           (next_conn w) (clock w).

(** [cursor.execute] of a DDL statement: autocommit. *)
Definition execute_ddl (c : nat) (f : db -> db) : Py unit :=
  fun w => (Ok tt, mk_world (f (store w)) (conns w) (next_conn w) (clock w)).

(** [cursor.execute] of an INSERT: in the connection's transaction. *)
Definition execute_write (c : nat) (f : db -> outcome sql_error db) : Py unit :=
  fun w => match f (conn_view c w) with
           | Ok d' => (Ok tt, set_txn c (Some d') w)
           | Raise e => (Raise (SqliteError e), w)
           end.

(** [cursor.execute] of a SELECT. *)
Definition execute_read {A} (c : nat) (f : db -> outcome sql_error A) : Py A :=
  fun w => match f (conn_view c w) with
           | Ok a => (Ok a, w)
           | Raise e => (Raise (SqliteError e), w)
           end.

(** [conn.commit()] *)
Definition commit (c : nat) : Py unit :=
  fun w => match find_conn c w with
           | Some (mk_conn _ (Some d)) =>
               (Ok tt, set_txn c None (mk_world d (conns w) (next_conn w) (clock w)))
           | _ => (Ok tt, w)
           end.

(** [conn.close()]: uncommitted changes are rolled back. *)
Definition close (c : nat) : Py unit :=
  fun w => (Ok tt, mk_world (store w) (filter (fun k => conn_id k <> c) (conns w))
                            (next_conn w) (clock w)).

(** The current UTC time as SQLite's [CURRENT_TIMESTAMP] text. *)
Definition now_text : Py (list Z) := fun w => (Ok (current_timestamp (clock w)), w).

(** ** The sqlite3 module's text conversions *)

(** Binding a [str] parameter: its UTF-8 bytes. *)
Definition bind_param (s : pystr) : Py (list Z) :=
  match utf8_encode s with
  | Some bs => ret bs
  | None => raise UnicodeEncodeError
  end.

(** Fetching a TEXT column: strict UTF-8 decoding. *)
Definition fetch_text (bs : list Z) : Py pystr :=
  match utf8_decode bs with
  | Some s => ret s
  | None => raise (SqliteError (OperationalError "Could not decode to UTF-8 column"))
  end.

Fixpoint fetch_texts (l : list (list Z)) : Py (list pystr) :=
  match l with
  | [] => ret []
  | bs :: l' => let* s := fetch_text bs in let* ss := fetch_texts l' in ret (s :: ss)
  end.

(** [Message] built from the row's columns as keyword arguments. *)
Definition fetch_message (m : message_row) : Py Message :=
  let* s := fetch_text (sender m) in let* r := fetch_text (receiver m) in
  let* t := fetch_text (text m) in let* ts := fetch_text (timestamp m) in
  ret (mk_Message (id m) s r t ts).

Fixpoint fetch_messages (l : list message_row) : Py (list Message) :=
  match l with
  | [] => ret []
  | m :: l' => let* x := fetch_message m in let* xs := fetch_messages l' in ret (x :: xs)
  end.

Section Handlers.
Context `{Sha256}.

(** [hash_password(password)] in the handler; [encode()] may raise. *)
Definition hash_password_h (password : pystr) : Py pystr :=
  match hash_password password with
  | Some h => ret h
  | None => raise UnicodeEncodeError
  end.

(** ** [init_db] (server.py:46-61) *)
Definition init_db : Py unit :=
  let* conn := get_db in
  let* _ := execute_ddl conn create_users in
  let* _ := execute_ddl conn create_messages in
  let* _ := commit conn in
  close conn.

(** ** [register] (server.py:70-82) *)
Definition register (user : UserCreate) : Py response :=
  let* conn := get_db in
  let* _ :=
  (try
     (try
        (let* h := hash_password_h (uc_password user) in
         let* name := bind_param (uc_username user) in
         let* hb := bind_param h in
         let* _ := execute_write conn (fun d => insert_user d name hb) in
         commit conn)
      except (fun e =>
        match e with
        | SqliteError (IntegrityError _) => raise (HTTPException 400 "Username already exists")
        | e => raise e
        end))
   finally close conn) in
  ret (RMessage "User registered").

(** ** [login] (server.py:84-93); [not row or ...] short-circuits *)
Definition login (user : UserLogin) : Py response :=
  let* conn := get_db in
  let* name := bind_param (ul_username user) in
  let* row := execute_read conn (fun d => select_password_hash d name) in
  let* row_s := (match row with
                 | Some bs => let* s := fetch_text bs in ret (Some s)
                 | None => ret None
                 end) in
  let* _ := close conn in
  match row_s with
  | None => raise (HTTPException 401 "Invalid credentials")
  | Some stored =>
      let* h := hash_password_h (ul_password user) in
      if decide (stored = h) then ret (RMessage "Login successful")
      else raise (HTTPException 401 "Invalid credentials")
  end.

(** ** [get_users] (server.py:95-102) *)
Definition get_users : Py response :=
  let* conn := get_db in
  let* rows := execute_read conn select_usernames in
  let* users := fetch_texts rows in
  let* _ := close conn in
  ret (RUsers users).

(** ** [send_message] (server.py:104-112) *)
Definition send_message (msg : MessageCreate) : Py response :=
  let* conn := get_db in
  let* s := bind_param (mc_sender msg) in
  let* r := bind_param (mc_receiver msg) in
  let* t := bind_param (mc_text msg) in
  let* now := now_text in
  let* _ := execute_write conn (fun d => insert_message d now s r t) in
  let* _ := commit conn in
  let* _ := close conn in
  ret (RMessage "Message sent").

(** ** [get_messages] (server.py:114-123) *)
Definition get_messages (user1 user2 : pystr) : Py response :=
  let* conn := get_db in
  let* b1 := bind_param user1 in
  let* b2 := bind_param user2 in
  let* rows := execute_read conn (fun d => select_messages d b1 b2) in
  let* messages := fetch_messages rows in
  let* _ := close conn in
  ret (RMessages messages).
End Handlers.

(** ** The connection layer on a fresh connection

    [opened w d t]: the world [w] after [get_db], the file holding [d] and
    the new connection's transaction [t].  [after w d]: that connection
    closed again.  [fresh_conns w]: every open connection has an id below
    [next_conn w], so the new one is the only one with its id. *)

Definition opened (w : world) (d : db) (t : option db) : world :=
  mk_world d (conns w ++ [mk_conn (next_conn w) t]) (S (next_conn w)) (clock w).

Definition after (w : world) (d : db) : world :=
  mk_world d (conns w) (S (next_conn w)) (clock w).

Definition fresh_conns (w : world) : Prop :=
  Forall (fun k => (conn_id k < next_conn w)%nat) (conns w).

Definition txn_view (d : db) (t : option db) : db :=
  match t with Some d' => d' | None => d end.

Section Connections.
Context (w : world) (Hfresh : fresh_conns w).
Let c := next_conn w.

Lemma filter_fresh : filter (fun k => conn_id k = c) (conns w) = [].
Proof.
  induction Hfresh as [|k l Hk _ IH]; [done|].
  rewrite filter_cons, decide_False by (unfold c in *; lia). done.
Qed.

Lemma filter_not_fresh : filter (fun k => conn_id k <> c) (conns w) = conns w.
Proof.
  induction Hfresh as [|k l Hk _ IH]; [done|].
  rewrite filter_cons, decide_True by (unfold c in *; lia). by f_equal.
Qed.

Lemma map_fresh (f : conn -> conn) :
  map (fun k => if decide (conn_id k = c) then f k else k) (conns w) = conns w.
Proof.
  induction Hfresh as [|k l Hk _ IH]; [done|].
  simpl. rewrite decide_False by (unfold c in *; lia). by f_equal.
Qed.

Lemma get_db_run : get_db w = (Ok c, opened w (store w) None).
Proof. reflexivity. Qed.

Lemma find_conn_opened d t : find_conn c (opened w d t) = Some (mk_conn c t).
Proof.
  unfold find_conn, opened. simpl. rewrite filter_app, filter_fresh. simpl.
  rewrite filter_cons, decide_True by done. done.
Qed.

Lemma conn_view_opened d t : conn_view c (opened w d t) = txn_view d t.
Proof. unfold conn_view. rewrite find_conn_opened. by destruct t. Qed.

Lemma set_txn_opened d t t' : set_txn c t' (opened w d t) = opened w d t'.
Proof.
  unfold set_txn, opened. simpl. rewrite map_app.
  rewrite (map_fresh (fun _ => mk_conn c t')). simpl. rewrite decide_True by done. done.
Qed.

Lemma execute_write_ok f d t d' :
  f (txn_view d t) = Ok d' -> execute_write c f (opened w d t) = (Ok tt, opened w d (Some d')).
Proof. intros Hf. unfold execute_write. by rewrite conn_view_opened, Hf, set_txn_opened. Qed.

Lemma execute_write_raise f d t e :
  f (txn_view d t) = Raise e -> execute_write c f (opened w d t) = (Raise (SqliteError e), opened w d t).
Proof. intros Hf. unfold execute_write. by rewrite conn_view_opened, Hf. Qed.

Lemma execute_read_ok {A} (f : db -> outcome sql_error A) d t a :
  f (txn_view d t) = Ok a -> execute_read c f (opened w d t) = (Ok a, opened w d t).
Proof. intros Hf. unfold execute_read. by rewrite conn_view_opened, Hf. Qed.

Lemma execute_read_raise {A} (f : db -> outcome sql_error A) d t e :
  f (txn_view d t) = Raise e -> execute_read c f (opened w d t) = (Raise (SqliteError e), opened w d t).
Proof. intros Hf. unfold execute_read. by rewrite conn_view_opened, Hf. Qed.

Lemma execute_ddl_run f d t : execute_ddl c f (opened w d t) = (Ok tt, opened w (f d) t).
Proof. reflexivity. Qed.

Lemma commit_some d d' : commit c (opened w d (Some d')) = (Ok tt, opened w d' None).
Proof. unfold commit. rewrite find_conn_opened. apply (f_equal (pair _)), set_txn_opened. Qed.

Lemma commit_none d : commit c (opened w d None) = (Ok tt, opened w d None).
Proof. unfold commit. by rewrite find_conn_opened. Qed.

Lemma close_opened d t : close c (opened w d t) = (Ok tt, after w d).
Proof.
  unfold close, opened, after. simpl. rewrite filter_app, filter_not_fresh. simpl.
  rewrite filter_cons, decide_False by (unfold c; tauto). by rewrite app_nil_r.
Qed.

Lemma now_text_run d t : now_text (opened w d t) = (Ok (current_timestamp (clock w)), opened w d t).
Proof. reflexivity. Qed.
End Connections.

Lemma fresh_after w d : fresh_conns w -> fresh_conns (after w d).
Proof. unfold fresh_conns, after. simpl. intros H. eapply Forall_impl; [apply H|]. intros k Hk. simpl in *. lia. Qed.

Lemma fresh_opened w d t : fresh_conns w -> fresh_conns (opened w d t).
Proof.
  unfold fresh_conns, opened. simpl. intros H. apply Forall_app. split.
  - eapply Forall_impl; [apply H|]. intros k Hk. simpl in *. lia.
  - apply Forall_singleton. simpl. lia.
Qed.

(** ** Text conversions *)

Lemma bind_param_ok s bs w : utf8_encode s = Some bs -> bind_param s w = (Ok bs, w).
Proof. unfold bind_param. by intros ->. Qed.

Lemma bind_param_raise s w : utf8_encode s = None -> bind_param s w = (Raise UnicodeEncodeError, w).
Proof. unfold bind_param. by intros ->. Qed.

Lemma fetch_text_ok bs s w : utf8_decode bs = Some s -> fetch_text bs w = (Ok s, w).
Proof. unfold fetch_text. by intros ->. Qed.

Lemma fetch_text_raise bs w :
  utf8_decode bs = None ->
  fetch_text bs w = (Raise (SqliteError (OperationalError "Could not decode to UTF-8 column")), w).
Proof. unfold fetch_text. by intros ->. Qed.

(** Text the store holds decodes to the string that was bound. *)
Lemma fetch_text_encoded s bs w :
  valid_str s -> utf8_encode s = Some bs -> fetch_text bs w = (Ok s, w).
Proof. intros Hv He. apply fetch_text_ok. by apply utf8_decode_encode. Qed.

Lemma fetch_text_is_text bs w : is_text bs -> exists s, fetch_text bs w = (Ok s, w) /\ utf8_encode s = Some bs.
Proof. intros (s & Hv & He). exists s. split; [by apply fetch_text_encoded|done]. Qed.

Section HashH.
Context `{Sha256}.

Lemma hash_password_h_ok pw h w : hash_password pw = Some h -> hash_password_h pw w = (Ok h, w).
Proof. unfold hash_password_h. by intros ->. Qed.

Lemma hash_password_h_raise pw w :
  hash_password pw = None -> hash_password_h pw w = (Raise UnicodeEncodeError, w).
Proof. unfold hash_password_h. by intros ->. Qed.
End HashH.

(** [py_run] evaluates a handler on a world, one [bind], [try] or
    primitive at a time, using the run lemmas above and the case
    equations in the context. *)
Ltac py_side := solve [eauto using fresh_after, fresh_opened].

Ltac py_prim :=
  first [ eapply get_db_run; py_side
        | eapply close_opened; py_side
        | eapply commit_some; py_side
        | eapply commit_none; py_side
        | eapply execute_ddl_run; py_side
        | eapply now_text_run; py_side
        | eapply execute_write_ok; py_side
        | eapply execute_write_raise; py_side
        | eapply execute_read_ok; py_side
        | eapply execute_read_raise; py_side
        | eapply bind_param_ok; py_side
        | eapply bind_param_raise; py_side
        | eapply fetch_text_ok; py_side
        | eapply fetch_text_raise; py_side
        | eapply hash_password_h_ok; py_side
        | eapply hash_password_h_raise; py_side
        | eassumption
        | reflexivity ].

Ltac py_run :=
  repeat match goal with
  | |- bind ?c ?k ?s = _ =>
      first [ erewrite (bind_ok c k s) by py_eval | erewrite (bind_raise c k s) by py_eval ];
      cbv beta
  | |- try_except ?c ?h ?s = _ =>
      first [ erewrite (try_except_ok c h s) by py_eval
            | erewrite (try_except_raise c h s) by py_eval ]; cbv beta
  | |- try_finally ?c ?f ?s = _ => erewrite (try_finally_run c f s) by py_eval
  | |- ret _ _ = _ => reflexivity
  | |- raise _ _ = _ => reflexivity
  | |- (_, _) = (_, _) => reflexivity
  | |- context [decide ?P] =>
      first [ rewrite (decide_True (P := P)) by assumption
            | rewrite (decide_False (P := P)) by assumption ]
  | |- _ => progress (cbv iota)
  | |- _ = (_, _) => py_prim
  end
with py_eval := first [ py_prim | py_run; py_prim ].

Section HandlerRuns.
Context `{Sha256}.

(** [register] on a world whose connections are fresh: the connection
    is always closed again; the file changes only by the new row. *)
Lemma register_run user w :
  fresh_conns w ->
  register user w =
    match hash_password (uc_password user) with
    | None => (Raise UnicodeEncodeError, after w (store w))
    | Some h =>
        match utf8_encode (uc_username user) with
        | None => (Raise UnicodeEncodeError, after w (store w))
        | Some nb =>
            match insert_user (store w) nb h with
            | Ok d' => (Ok (RMessage "User registered"), after w d')
            | Raise (IntegrityError _) =>
                (Raise (HTTPException 400 "Username already exists"), after w (store w))
            | Raise e => (Raise (SqliteError e), after w (store w))
            end
        end
    end.
Proof.
  intros Hf. unfold register.
  destruct (hash_password (uc_password user)) as [h|] eqn:Eh.
  - pose proof (proj1 (hash_password_encode _ _ Eh)) as Ehh.
    destruct (utf8_encode (uc_username user)) as [nb|] eqn:En.
    + destruct (insert_user (store w) nb h) as [d'|[r|r]] eqn:Ei; py_run.
    + py_run.
  - py_run.
Qed.
End HandlerRuns.

Section LoginSend.
Context `{Sha256}.

(** [login]: an encoding error on the name leaves the connection
    open; afterwards the connection is closed before the password is
    hashed, and the hash is computed only for a name that has a row. *)
Lemma login_run user w :
  fresh_conns w ->
  login user w =
    match utf8_encode (ul_username user) with
    | None => (Raise UnicodeEncodeError, opened w (store w) None)
    | Some nb =>
        match select_password_hash (store w) nb with
        | Raise e => (Raise (SqliteError e), opened w (store w) None)
        | Ok None => (Raise (HTTPException 401 "Invalid credentials"), after w (store w))
        | Ok (Some bs) =>
            match utf8_decode bs with
            | None => (Raise (SqliteError (OperationalError "Could not decode to UTF-8 column")),
                       opened w (store w) None)
            | Some stored =>
                match hash_password (ul_password user) with
                | None => (Raise UnicodeEncodeError, after w (store w))
                | Some h =>
                    if decide (stored = h)
                    then (Ok (RMessage "Login successful"), after w (store w))
                    else (Raise (HTTPException 401 "Invalid credentials"), after w (store w))
                end
            end
        end
    end.
Proof.
  intros Hf. unfold login.
  destruct (utf8_encode (ul_username user)) as [nb|] eqn:En; [|py_run].
  destruct (select_password_hash (store w) nb) as [[bs|]|e] eqn:Es; [|py_run|py_run].
  destruct (utf8_decode bs) as [stored|] eqn:Ed; [|py_run].
  destruct (hash_password (ul_password user)) as [h|] eqn:Eh; [|py_run].
  destruct (decide (stored = h)); py_run.
Qed.

(** [send_message]: the three parameters are bound before the INSERT;
    an encoding error leaves the connection open. *)
Lemma send_message_run msg w :
  fresh_conns w ->
  send_message msg w =
    match utf8_encode (mc_sender msg), utf8_encode (mc_receiver msg), utf8_encode (mc_text msg) with
    | Some s, Some r, Some t =>
        match insert_message (store w) (current_timestamp (clock w)) s r t with
        | Ok d' => (Ok (RMessage "Message sent"), after w d')
        | Raise e => (Raise (SqliteError e), opened w (store w) None)
        end
    | _, _, _ => (Raise UnicodeEncodeError, opened w (store w) None)
    end.
Proof.
  intros Hf. unfold send_message.
  destruct (utf8_encode (mc_sender msg)) as [s|] eqn:Es; [|py_run].
  destruct (utf8_encode (mc_receiver msg)) as [r|] eqn:Er; [|py_run].
  destruct (utf8_encode (mc_text msg)) as [t|] eqn:Et; [|py_run].
  destruct (insert_message (store w) (current_timestamp (clock w)) s r t) eqn:Ei; py_run.
Qed.
End LoginSend.

(** ** Fetching what the store holds *)

(** [s] is the string the sqlite3 module reads back from the bytes [b]. *)
Definition decodes (s : pystr) (b : list Z) : Prop := valid_str s /\ utf8_encode s = Some b.

(** The [Message] the handler builds from a row. *)
Definition row_message (m : Message) (r : message_row) : Prop :=
  msg_id m = id r /\ decodes (msg_sender m) (sender r) /\ decodes (msg_receiver m) (receiver r) /\
  decodes (msg_text m) (text r) /\ msg_timestamp m = timestamp r.

Lemma fetch_texts_ok l w :
  Forall is_text l -> exists ss, fetch_texts l w = (Ok ss, w) /\ Forall2 decodes ss l.
Proof.
  induction 1 as [|b l (s & Hv & He) _ (ss & E & F)]; [by exists []|].
  exists (s :: ss). split; [|by constructor].
  simpl. erewrite bind_ok by (by apply (fetch_text_encoded s)). cbv beta.
  by erewrite bind_ok by apply E.
Qed.

Lemma fetch_message_ok seq r w :
  wf_message seq r -> exists m, fetch_message r w = (Ok m, w) /\ row_message m r.
Proof.
  intros (_ & (s & Hs & Es) & (rc & Hr & Er) & (t & Ht & Et) & Hts).
  exists (mk_Message (id r) s rc t (timestamp r)). split; [|done].
  unfold fetch_message.
  erewrite bind_ok by (by apply (fetch_text_encoded s)). cbv beta.
  erewrite bind_ok by (by apply (fetch_text_encoded rc)). cbv beta.
  erewrite bind_ok by (by apply (fetch_text_encoded t)). cbv beta.
  erewrite bind_ok by (apply fetch_text_ok, utf8_decode_ascii, Hts). done.
Qed.

Lemma fetch_messages_ok seq l w :
  Forall (wf_message seq) l ->
  exists ms, fetch_messages l w = (Ok ms, w) /\ Forall2 row_message ms l.
Proof.
  induction 1 as [|r l Hr _ (ms & E & F)]; [by exists []|].
  destruct (fetch_message_ok seq r w Hr) as (m & Em & Hm).
  exists (m :: ms). split; [|by constructor].
  simpl. erewrite bind_ok by apply Em. cbv beta. by erewrite bind_ok by apply E.
Qed.

Section Queries.
Context `{Sha256}.

Lemma get_users_run w us :
  fresh_conns w -> users (store w) = Some us -> wf_users us ->
  exists names, get_users w = (Ok (RUsers names), after w (store w)) /\
                Forall2 decodes names (map username (sort_by username_leb us)).
Proof.
  intros Hf Hus [_ Hwf].
  assert (Forall is_text (map username (sort_by username_leb us))) as Ht.
  { apply Forall_map. rewrite (sort_by_perm username_leb us).
    eapply Forall_impl; [apply Hwf|]. by intros r [? _]. }
  destruct (fetch_texts_ok _ (opened w (store w) None) Ht) as (names & E & F).
  exists names. split; [|done].
  assert (select_usernames (txn_view (store w) None) = Ok (map username (sort_by username_leb us)))
    by (simpl; unfold select_usernames; by rewrite Hus).
  unfold get_users. py_run.
Qed.

Lemma get_messages_run w ms u1 u2 b1 b2 :
  fresh_conns w -> wf_db (store w) -> messages (store w) = Some ms ->
  utf8_encode u1 = Some b1 -> utf8_encode u2 = Some b2 ->
  exists res, get_messages u1 u2 w = (Ok (RMessages res), after w (store w)) /\
              Forall2 row_message res (sort_by timestamp_leb (filter (conversation b1 b2) ms)).
Proof.
  intros Hf (_ & Hm & _) Hms E1 E2. destruct (Hm ms Hms) as [_ Hwf].
  assert (Forall (wf_message (sqlite_sequence (store w)))
            (sort_by timestamp_leb (filter (conversation b1 b2) ms))) as Ht.
  { rewrite (sort_by_perm timestamp_leb). apply Forall_forall.
    intros r Hr%list_elem_of_filter. rewrite Forall_forall in Hwf. apply Hwf, Hr. }
  destruct (fetch_messages_ok _ _ (opened w (store w) None) Ht) as (res & E & F).
  exists res. split; [|done].
  assert (select_messages (txn_view (store w) None) b1 b2 =
          Ok (sort_by timestamp_leb (filter (conversation b1 b2) ms)))
    by (simpl; unfold select_messages; by rewrite Hms).
  unfold get_messages. py_run.
Qed.

Lemma init_db_run w :
  fresh_conns w ->
  init_db w = (Ok tt, after w (create_messages (create_users (store w)))).
Proof. intros Hf. unfold init_db. py_run. Qed.
End Queries.
