(* ===== verification/Endpoints.v ===== *)
(** * Endpoints: what each handler of server.py does, on every branch

    The theorems of this file are stated on a well-formed world
    ([wf_world]: a well-formed file with both tables, as [init_db] leaves
    it, and connection ids below [next_conn]) and on request fields that
    are Python strings ([valid_str]).  They are derived from the run
    lemmas of [Handlers] and the statement lemmas of [Store]:

    - [register] inserts the row of a new name and closes its connection
      on every path; a taken name gives 400 "Username already exists";
    - [login] succeeds exactly when the stored digest is the digest of the
      password; with an encodable password every failure is the same 401;
      with a password holding a lone surrogate it answers 401 for an
      unknown name and raises [UnicodeEncodeError] (HTTP 500) for a
      registered one;
    - [get_users] lists exactly the registered names, each once;
    - [send_message] appends the row with the next id and the current
      timestamp, whoever the receiver is; an unencodable field raises and
      leaves the connection open;
    - [get_messages] returns exactly the two users' messages, each once,
      ordered by timestamp and, in this model, ties by id. *)

From stdpp Require Import base list gmap.
From Stdlib Require Import ZArith Lia Sorted.
From S2P Require Import Prelude Text Hasher Clock Store Handlers.

Open Scope Z_scope.

(** ** Well-formed worlds *)

Definition wf_world (w : world) : Prop :=
  wf_db (store w) /\ is_Some (users (store w)) /\ is_Some (messages (store w)) /\
  fresh_conns w.

Lemma wf_world_after w d :
  wf_world w -> wf_db d -> is_Some (users d) -> is_Some (messages d) -> wf_world (after w d).
Proof. intros (_ & _ & _ & Hf) ? ? ?. split_and!; [done..|]. by apply fresh_after. Qed.

Lemma wf_world_opened w : wf_world w -> wf_world (opened w (store w) None).
Proof. intros (? & ? & ? & Hf). split_and!; [done..|]. by apply fresh_opened. Qed.

(** A registered digest is the bytes of an ASCII hex string. *)
Lemma users_map_lookup_elem us k v :
  users_map us !! k = Some v -> exists r, r ∈ us /\ username r = k /\ password_hash r = v.
Proof.
  unfold users_map. induction us as [|r us IH]; simpl; [by rewrite lookup_empty|].
  destruct (decide (username r = k)) as [<-|Hne].
  - rewrite lookup_insert_eq. intros [= <-]. exists r. split_and!; [left|done|done].
  - rewrite lookup_insert_ne by done. intros (r' & ? & ? & ?)%IH.
    exists r'. split_and!; [by right|done|done].
Qed.

Section Register.
Context `{Sha256}.

(** C1. A new name is registered: the users table gains exactly the
    row of the name and the digest of the password, nothing else
    changes, and the connection is closed. *)
Theorem register_new_user w name pw nb h us :
  wf_world w -> users (store w) = Some us ->
  utf8_encode name = Some nb -> hash_password pw = Some h -> nb ∉ map username us ->
  register (mk_UserCreate name pw) w =
    (Ok (RMessage "User registered"),
     after w (mk_db (Some (us ++ [mk_user_row nb h])) (messages (store w))
                    (sqlite_sequence (store w)))).
Proof.
  intros (_ & _ & _ & Hf) Hus En Eh Hnin. rewrite register_run by done. simpl.
  rewrite Eh, En. unfold insert_user. rewrite Hus. by try rewrite bool_decide_false.
Qed.

(** C2. A taken name: 400 "Username already exists", the file unchanged. *)
Theorem register_duplicate w name pw nb h us :
  wf_world w -> users (store w) = Some us ->
  utf8_encode name = Some nb -> hash_password pw = Some h -> nb ∈ map username us ->
  register (mk_UserCreate name pw) w =
    (Raise (HTTPException 400 "Username already exists"), after w (store w)).
Proof.
  intros (_ & _ & _ & Hf) Hus En Eh Hin. rewrite register_run by done. simpl.
  rewrite Eh, En. unfold insert_user. rewrite Hus, bool_decide_true by done. done.
Qed.

(** C19. [register] closes its connection on every path ([finally]). *)
Theorem register_closes_connection w user :
  fresh_conns w -> conns (snd (register user w)) = conns w.
Proof.
  intros Hf. rewrite register_run by done.
  repeat case_match; done.
Qed.
End Register.

Section Login.
Context `{Sha256}.

(** A digest in a well-formed users table decodes to the string it was
    written from. *)
Lemma stored_digest us nb bs :
  wf_users us -> users_map us !! nb = Some bs ->
  exists s, utf8_decode bs = Some s /\ utf8_encode s = Some bs /\ valid_str s.
Proof.
  intros [_ Hwf] (r & Hr & _ & <-)%users_map_lookup_elem.
  rewrite Forall_forall in Hwf. destruct (Hwf r Hr) as [_ (s & Hv & He)].
  exists s. split_and!; [by apply utf8_decode_encode|done|done].
Qed.

Lemma hash_password_decode pw h : hash_password pw = Some h -> utf8_decode h = Some h.
Proof.
  intros Hh. destruct (hash_password_hex pw h Hh) as [_ Hx].
  by apply utf8_decode_ascii, hex_ascii.
Qed.

Lemma login_lookup w us user nb :
  wf_world w -> select_password_hash (store w) nb = Ok (users_map us !! nb) ->
  utf8_encode (ul_username user) = Some nb ->
  login user w =
    match users_map us !! nb with
    | None => (Raise (HTTPException 401 "Invalid credentials"), after w (store w))
    | Some bs =>
        match utf8_decode bs with
        | None => (Raise (SqliteError (OperationalError "Could not decode to UTF-8 column")),
                   opened w (store w) None)
        | Some stored =>
            match hash_password (ul_password user) with
            | None => (Raise UnicodeEncodeError, after w (store w))
            | Some h =>
                if decide (stored = h)
                then (Ok (RMessage "Login successful"), after w (store w))
                else (Raise (HTTPException 401 "Invalid credentials"), after w (store w))
            end
        end
    end.
Proof.
  intros (_ & _ & _ & Hf) Hsel En. by rewrite login_run, En, Hsel by done.
Qed.

(** C3. Login succeeds exactly when the name has a row and its stored digest
    is the digest of the given password. *)
Theorem login_ok_iff w us name pw nb :
  wf_world w -> users (store w) = Some us -> utf8_encode name = Some nb ->
  fst (login (mk_UserLogin name pw) w) = Ok (RMessage "Login successful") <->
  exists h, users_map us !! nb = Some h /\ hash_password pw = Some h.
Proof.
  intros Hw Hus En. pose proof Hw as ((Hu & _) & _).
  rewrite (login_lookup w us _ nb) by auto using select_password_hash_lookup. simpl.
  destruct (users_map us !! nb) as [bs|] eqn:El; [|naive_solver].
  destruct (stored_digest us nb bs (Hu us Hus) El) as (s & Hd & Hs & _). rewrite Hd.
  destruct (hash_password pw) as [h|] eqn:Eh; [|naive_solver].
  pose proof (hash_password_decode pw h Eh) as Hhd.
  pose proof (proj1 (hash_password_encode pw h Eh)) as Hhe.
  destruct (decide (s = h)) as [<-|Hne].
  - split; [|done]. intros _. exists bs. split; [done|]. f_equal. congruence.
  - split; [done|]. intros (h' & [= <-] & [= <-]). congruence.
Qed.

(** C4. With an encodable name and password, every failed login is the same
    401 "Invalid credentials", whether the name is unknown or the
    password wrong; the file is unchanged and the connection closed. *)
Theorem login_failure_uniform w name pw nb h :
  wf_world w -> utf8_encode name = Some nb -> hash_password pw = Some h ->
  snd (login (mk_UserLogin name pw) w) = after w (store w) /\
  (fst (login (mk_UserLogin name pw) w) = Ok (RMessage "Login successful") \/
   fst (login (mk_UserLogin name pw) w) = Raise (HTTPException 401 "Invalid credentials")).
Proof.
  intros Hw En Eh. pose proof Hw as ((Hu & _) & [us Hus] & _).
  rewrite (login_lookup w us _ nb) by auto using select_password_hash_lookup. simpl.
  destruct (users_map us !! nb) as [bs|] eqn:El; [|auto].
  destruct (stored_digest us nb bs (Hu us Hus) El) as (s & -> & _). rewrite Eh.
  case_decide; auto.
Qed.

(** C5. A password with a lone surrogate tells registered names from unknown
    ones: 401 for an unknown name, [UnicodeEncodeError] (HTTP 500) for a
    registered one, because the hash is computed only when a row was
    found. *)
Theorem login_surrogate_password w us name pw nb :
  wf_world w -> users (store w) = Some us -> utf8_encode name = Some nb ->
  hash_password pw = None ->
  fst (login (mk_UserLogin name pw) w) =
    if bool_decide (nb ∈ map username us) then Raise UnicodeEncodeError
    else Raise (HTTPException 401 "Invalid credentials").
Proof.
  intros Hw Hus En Eh. pose proof Hw as ((Hu & _) & _).
  rewrite (login_lookup w us _ nb) by auto using select_password_hash_lookup. simpl.
  case_bool_decide as Hin.
  - apply users_map_elem in Hin as [bs El]. rewrite El.
    destruct (stored_digest us nb bs (Hu us Hus) El) as (s & -> & _). by rewrite Eh.
  - rewrite users_map_elem in Hin.
    destruct (users_map us !! nb); [exfalso; apply Hin; eauto|done].
Qed.
End Login.

(** ** Reading back what was written *)

Lemma decodes_fun s b1 b2 : decodes s b1 -> decodes s b2 -> b1 = b2.
Proof. intros [_ E1] [_ E2]. congruence. Qed.

Lemma decodes_inj s1 s2 b : decodes s1 b -> decodes s2 b -> s1 = s2.
Proof. intros [V1 E1] [V2 E2]. by eapply utf8_encode_injective. Qed.

Lemma row_message_fun m r1 r2 : row_message m r1 -> row_message m r2 -> r1 = r2.
Proof.
  destruct r1, r2. intros (? & ? & ? & ? & ?) (? & ? & ? & ? & ?); simpl in *.
  f_equal; try congruence; eapply decodes_fun; eauto.
Qed.

Lemma row_message_inj m1 m2 r : row_message m1 r -> row_message m2 r -> m1 = m2.
Proof.
  destruct m1, m2. intros (? & ? & ? & ? & ?) (? & ? & ? & ? & ?); simpl in *.
  f_equal; try congruence; eapply decodes_inj; eauto.
Qed.

Section Queries.
Context `{Sha256}.

(** C8. [/users] lists every registered name once, and nothing else. *)
Theorem get_users_exact w us :
  wf_world w -> users (store w) = Some us ->
  exists names, get_users w = (Ok (RUsers names), after w (store w)) /\ NoDup names /\
    forall s, s ∈ names <-> exists b, decodes s b /\ b ∈ map username us.
Proof.
  intros Hw Hus. pose proof Hw as ((Hu & _) & _ & _ & Hf).
  destruct (get_users_run w us Hf Hus (Hu us Hus)) as (names & E & F).
  pose proof (Permutation_map username (sort_by_perm username_leb us)) as Hp.
  exists names. split_and!; [done| |].
  - eapply NoDup_Forall2; [apply decodes_fun|apply F|]. rewrite Hp. apply (Hu us Hus).
  - intros s. split.
    + intros (b & Hb & Hd)%(Forall2_elem_l _ _ _ _ F). exists b. split; [done|]. by rewrite <- Hp.
    + intros (b & Hd & Hb). rewrite <- Hp in Hb.
      destruct (Forall2_elem_r _ _ _ _ F Hb) as (s' & Hs' & Hd').
      by rewrite (decodes_inj s s' b).
Qed.
End Queries.

Section Messages.
Context `{Sha256}.

(** C7. [/send] appends the row with the next AUTOINCREMENT id and the
    current [CURRENT_TIMESTAMP] text.  Nothing is checked about the
    receiver (or the sender): no hypothesis mentions the users table. *)
Theorem send_message_appends w ms sender receiver txt s r t :
  wf_world w -> messages (store w) = Some ms ->
  utf8_encode sender = Some s -> utf8_encode receiver = Some r -> utf8_encode txt = Some t ->
  sqlite_sequence (store w) < max_rowid ->
  send_message (mk_MessageCreate sender receiver txt) w =
    (Ok (RMessage "Message sent"),
     after w (mk_db (users (store w))
                    (Some (ms ++ [mk_message_row (sqlite_sequence (store w) + 1) s r t
                                                 (current_timestamp (clock w))]))
                    (sqlite_sequence (store w) + 1))).
Proof.
  intros Hw Hms Es Er Et Hseq. pose proof Hw as (Hwf & _ & _ & Hf).
  rewrite send_message_run by done. simpl. rewrite Es, Er, Et.
  rewrite (insert_message_eq _ ms) by done. by decide_cmps.
Qed.

(** C17. A field that cannot be encoded raises [UnicodeEncodeError] after
    [get_db] and before [conn.close()]: the handler returns with its
    connection still open. *)
Theorem send_message_leaks_connection w msg :
  fresh_conns w ->
  utf8_encode (mc_sender msg) = None \/ utf8_encode (mc_receiver msg) = None \/
  utf8_encode (mc_text msg) = None ->
  send_message msg w = (Raise UnicodeEncodeError, opened w (store w) None) /\
  conns (snd (send_message msg w)) = conns w ++ [mk_conn (next_conn w) None].
Proof.
  intros Hf Hnone. rewrite send_message_run by done.
  destruct Hnone as [E | [E | E]]; rewrite E; repeat case_match; done.
Qed.

(** C18. The two reading handlers leak their connection the same way: a
    [username] of /login, or a [user1] or [user2] of /messages, that
    cannot be encoded raises [UnicodeEncodeError] after [get_db] and
    before [conn.close()], leaving the new connection open. *)
Theorem reads_leak_connection w user u1 u2 :
  fresh_conns w ->
  (utf8_encode (ul_username user) = None ->
   login user w = (Raise UnicodeEncodeError, opened w (store w) None)) /\
  (utf8_encode u1 = None \/ utf8_encode u2 = None ->
   get_messages u1 u2 w = (Raise UnicodeEncodeError, opened w (store w) None)).
Proof.
  intros Hf. split.
  - intros E. rewrite login_run by done. by rewrite E.
  - unfold get_messages, bind_param. intros [E|E]; rewrite E; [done|].
    by destruct (utf8_encode u1).
Qed.

(** The message-level order the spec states: timestamp, then id. *)
Definition message_leb (a b : Message) : bool :=
  if bool_decide (msg_timestamp a = msg_timestamp b) then msg_id a <=? msg_id b
  else lex_leb (msg_timestamp a) (msg_timestamp b).

Lemma conversation_decodes u1 u2 b1 b2 m r :
  decodes u1 b1 -> decodes u2 b2 -> row_message m r ->
  conversation b1 b2 r <->
  (msg_sender m = u1 /\ msg_receiver m = u2) \/ (msg_sender m = u2 /\ msg_receiver m = u1).
Proof.
  intros D1 D2 (_ & Ds & Dr & _). unfold conversation.
  assert (forall s u b x, decodes s x -> decodes u b -> x = b <-> s = u) as Hiff.
  { intros s u b x Hs Hu. split; [intros ->; by eapply decodes_inj|intros ->; by eapply decodes_fun]. }
  rewrite (Hiff _ _ _ _ Ds D1), (Hiff _ _ _ _ Dr D2), (Hiff _ _ _ _ Ds D2), (Hiff _ _ _ _ Dr D1).
  done.
Qed.

(** C6. [/messages] returns exactly the messages one of the two users sent
    to the other, each once, ordered by timestamp and then id. *)
Theorem get_messages_exact w ms u1 u2 b1 b2 :
  wf_world w -> messages (store w) = Some ms ->
  decodes u1 b1 -> decodes u2 b2 ->
  exists res, get_messages u1 u2 w = (Ok (RMessages res), after w (store w)) /\
    NoDup res /\
    (forall m, m ∈ res <->
       (exists r, r ∈ ms /\ row_message m r) /\
       ((msg_sender m = u1 /\ msg_receiver m = u2) \/ (msg_sender m = u2 /\ msg_receiver m = u1))) /\
    Sorted (fun a b => message_leb a b = true) res.
Proof.
  intros Hw Hms D1 D2. pose proof Hw as (Hwf & _ & _ & Hf).
  destruct (get_messages_run w ms u1 u2 b1 b2 Hf Hwf Hms (proj2 D1) (proj2 D2)) as (res & E & F).
  assert (select_messages (store w) b1 b2 = Ok (sort_by timestamp_leb (filter (conversation b1 b2) ms)))
    as Hsel by (unfold select_messages; by rewrite Hms).
  destruct (select_messages_filter _ _ _ _ _ Hwf Hms Hsel) as [Hnd Hmem].
  exists res. split_and!; [done| | |].
  - eapply NoDup_Forall2; [apply row_message_fun|apply F|done].
  - intros m. split.
    + intros (r & Hr & Hm)%(Forall2_elem_l _ _ _ _ F). apply Hmem in Hr as [Hr Hc].
      split; [by exists r|]. by apply (conversation_decodes u1 u2 b1 b2 m r).
    + intros [(r & Hr & Hm) Hc]. apply (conversation_decodes u1 u2 b1 b2 m r) in Hc; [|done..].
      destruct (Forall2_elem_r _ _ _ _ F (proj2 (Hmem r) (conj Hr Hc))) as (m' & Hm' & Hm'r).
      by rewrite (row_message_inj m m' r).
  - eapply Sorted_Forall2; [|apply F|apply (select_messages_sorted_ts_id _ _ _ _ _ Hwf Hms Hsel)].
    intros m1 r1 m2 r2 (Hi1 & _ & _ & _ & Ht1) (Hi2 & _ & _ & _ & Ht2).
    unfold message_leb, ts_id_leb, timestamp_leb. by rewrite Hi1, Ht1, Hi2, Ht2.
Qed.
End Messages.
