(* ===== verification/Service.v ===== *)
(** * Service: the HTTP surface and the server as a transition system

    FastAPI routes each request to its handler (the decorators at
    server.py:70, 84, 95, 104, 114), validates the body or the query
    against the pydantic models (server.py:20-38), and turns the handler's
    outcome into a response: the returned JSON with status 200, an
    [HTTPException]'s status and [detail], or 500 for any other exception.
    [handle] is that dispatch.  Request validation itself (422 on a
    missing field) is the framework's and is not modelled: a [request]
    here is already well-typed, and its fields are Python strings
    ([valid_request]).

    The server is the transition system [step]: one request is served,
    or the wall clock changes (in either direction).  It starts with
    [init_db] on a new, empty [messenger.db] ([boot]).  The invariant
    [wf_world] holds in every reachable state ([reachable_wf]), so the
    theorems of [Endpoints] apply to every request the server ever
    serves: names stay unique, ids increase, every stored text decodes. *)

From stdpp Require Import base list.
From Stdlib Require Import ZArith Lia.
From S2P Require Import Prelude Text Hasher Clock Store Handlers Endpoints.

Open Scope Z_scope.

(** ** Requests and HTTP responses *)

Inductive request : Type :=
| PostRegister (user : UserCreate)
| PostLogin (user : UserLogin)
| GetUsers
| PostSend (msg : MessageCreate)
| GetMessages (user1 user2 : pystr).

Inductive body : Type :=
| JsonBody (r : response)
| DetailBody (detail : String.string).

Arguments DetailBody _%_string_scope.

Record http_response : Type := mk_http_response { status : Z; payload : body }.

Definition valid_request (req : request) : Prop :=
  match req with
  | PostRegister u => valid_str (uc_username u) /\ valid_str (uc_password u)
  | PostLogin u => valid_str (ul_username u) /\ valid_str (ul_password u)
  | GetUsers => True
  | PostSend m => valid_str (mc_sender m) /\ valid_str (mc_receiver m) /\ valid_str (mc_text m)
  | GetMessages u1 u2 => valid_str u1 /\ valid_str u2
  end.

Section Service.
Context `{Sha256}.

(** The route table. *)
Definition dispatch (req : request) : Py response :=
  match req with
  | PostRegister u => register u
  | PostLogin u => login u
  | GetUsers => get_users
  | PostSend m => send_message m
  | GetMessages u1 u2 => get_messages u1 u2
  end.

(** FastAPI's exception handling around the endpoint. *)
Definition to_http (r : outcome exn response) : http_response :=
  match r with
  | Ok resp => mk_http_response 200 (JsonBody resp)
  | Raise (HTTPException code detail) => mk_http_response code (DetailBody detail)
  | Raise _ => mk_http_response 500 (DetailBody "Internal Server Error")
  end.

Definition handle (req : request) (w : world) : http_response * world :=
  let '(r, w') := dispatch req w in (to_http r, w').

(** ** The server as a transition system *)

Inductive step : world -> world -> Prop :=
| step_request req w :
    valid_request req -> step w (snd (handle req w))
| step_clock w t :
    step w (mk_world (store w) (conns w) (next_conn w) t).

(** Module import: [init_db()] (server.py:63) on a new file, at time [t0]. *)
Definition boot (t0 : Z) : world := snd (init_db (mk_world empty_db [] 0 t0)).

(** A sequence of requests served in order. *)
Fixpoint serve (reqs : list request) (w : world) : list http_response * world :=
  match reqs with
  | [] => ([], w)
  | req :: reqs' =>
      let '(resp, w') := handle req w in
      let '(resps, w'') := serve reqs' w' in
      (resp :: resps, w'')
  end.

Inductive reachable : world -> Prop :=
| reachable_boot t0 : reachable (boot t0)
| reachable_step w w' : reachable w -> step w w' -> reachable w'.
End Service.

(** ** The invariant *)

Lemma wf_world_same w : wf_world w -> wf_world (after w (store w)).
Proof. intros Hw. pose proof Hw as (? & ? & ? & _). by apply wf_world_after. Qed.

Lemma encoded_text s bs : valid_str s -> utf8_encode s = Some bs -> is_text bs.
Proof. intros. by exists s. Qed.

#[local] Hint Resolve wf_world_same wf_world_opened encoded_text : core.

Section Invariant.
Context `{Sha256}.

Lemma get_messages_unencodable w u1 u2 :
  fresh_conns w -> utf8_encode u1 = None \/ utf8_encode u2 = None ->
  get_messages u1 u2 w = (Raise UnicodeEncodeError, opened w (store w) None).
Proof.
  intros Hf Hn. unfold get_messages.
  destruct (utf8_encode u1) as [b1|] eqn:E1; [|py_run].
  destruct Hn as [?|E2]; [congruence|]. py_run.
Qed.

Lemma register_wf w u : wf_world w -> valid_str (uc_username u) -> wf_world (snd (register u w)).
Proof.
  intros Hw Hv. pose proof Hw as (Hwf & _ & Hm & Hf). rewrite register_run by done.
  destruct (hash_password (uc_password u)) as [h|] eqn:Eh; [|simpl; auto].
  destruct (utf8_encode (uc_username u)) as [nb|] eqn:En; [|simpl; auto].
  destruct (insert_user (store w) nb h) as [d'|[]] eqn:Ei; simpl; auto.
  destruct (insert_user_tables _ _ _ _ Ei) as [Hu' Hm'].
  apply wf_world_after; [done| |done|by rewrite Hm'].
  pose proof (hash_password_encode _ _ Eh) as [Ehh Hvh].
  eapply insert_user_preserves_wf; [done| | |done]; eauto.
Qed.

Lemma login_wf w u : wf_world w -> wf_world (snd (login u w)).
Proof. intros Hw. pose proof Hw as (_ & _ & _ & Hf). rewrite login_run by done. repeat case_match; simpl; auto. Qed.

Lemma get_users_wf w : wf_world w -> wf_world (snd (get_users w)).
Proof.
  intros Hw. pose proof Hw as ((Hu & _) & [us Hus] & _ & Hf).
  destruct (get_users_run w us Hf Hus (Hu us Hus)) as (names & -> & _). simpl. auto.
Qed.

Lemma send_message_wf w m :
  wf_world w -> valid_str (mc_sender m) -> valid_str (mc_receiver m) -> valid_str (mc_text m) ->
  wf_world (snd (send_message m w)).
Proof.
  intros Hw Hs Hr Ht. pose proof Hw as (Hwf & Hu & _ & Hf). rewrite send_message_run by done.
  repeat case_match; simpl; auto. simplify_eq.
  match goal with Ei : insert_message _ _ _ _ _ = Ok ?d' |- _ =>
    destruct (insert_message_tables _ _ _ _ _ _ Ei) as [Hu' Hm'];
    apply wf_world_after; [done| |by rewrite Hu'|done];
    eapply insert_message_preserves_wf; [done|apply current_timestamp_ascii| | | |apply Ei]; eauto
  end.
Qed.

Lemma get_messages_wf w u1 u2 :
  wf_world w -> valid_str u1 -> valid_str u2 -> wf_world (snd (get_messages u1 u2 w)).
Proof.
  intros Hw V1 V2. pose proof Hw as (Hwf & _ & [ms Hms] & Hf).
  destruct (utf8_encode u1) as [b1|] eqn:E1;
    [|rewrite get_messages_unencodable by auto; simpl; auto].
  destruct (utf8_encode u2) as [b2|] eqn:E2;
    [|rewrite get_messages_unencodable by auto; simpl; auto].
  destruct (get_messages_run w ms u1 u2 b1 b2 Hf Hwf Hms E1 E2) as (res & -> & _). simpl. auto.
Qed.

Lemma handle_wf req w : valid_request req -> wf_world w -> wf_world (snd (handle req w)).
Proof.
  intros Hv Hw. unfold handle.
  assert (wf_world (snd (dispatch req w))) as Hd.
  { destruct req; simpl in Hv |- *; destruct_and?;
      auto using register_wf, login_wf, get_users_wf, send_message_wf, get_messages_wf. }
  destruct (dispatch req w). done.
Qed.

Lemma boot_run t0 :
  boot t0 = after (mk_world empty_db [] 0 t0) (create_messages (create_users empty_db)).
Proof. unfold boot. rewrite init_db_run; [done|constructor]. Qed.

(** The server after [init_db] on a new file is well-formed: both
    tables exist and are empty, and no connection is open. *)
Lemma wf_boot t0 : wf_world (boot t0).
Proof.
  rewrite boot_run. split_and!; [|by eexists|by eexists|constructor].
  apply create_messages_wf, create_users_wf, wf_empty_db.
Qed.

(** C9. Every state the server reaches from [boot] by requests and clock
    changes is well-formed ([wf_world]): usernames are unique, message ids
    strictly increase below the AUTOINCREMENT sequence, every stored text
    decodes, both tables exist, and no two open connections share an id. *)
Theorem reachable_wf w : reachable w -> wf_world w.
Proof.
  induction 1 as [t0|w w' _ IH Hstep].
  - apply wf_boot.
  - destruct Hstep as [req w Hv|w t]; [by apply handle_wf|].
    destruct IH as (? & ? & ? & ?). by split_and!.
Qed.
End Invariant.

Section Startup.
Context `{Sha256}.

(** C37. Restarting the server runs [init_db] again on the existing file:
    [CREATE TABLE IF NOT EXISTS] leaves a well-formed file as it was. *)
Theorem init_db_idempotent w :
  wf_world w -> init_db w = (Ok tt, after w (store w)).
Proof.
  intros (_ & [us Hus] & [ms Hms] & Hf). rewrite init_db_run by done.
  unfold create_users, create_messages. by rewrite Hus, Hms.
Qed.
End Startup.
