(* ===== verification/Threads.v ===== *)
(** * Threads: the handlers as resumable threads

    FastAPI runs a [def] endpoint in a worker thread, so two requests can
    be served at the same time, their statements interleaved.  A
    [thread] is a handler cut at its statements: [Done r] is a finished
    handler with outcome [r]; [Step k u] is one atomic statement, which
    takes the world [w] to [u w] and continues as [k w]; [Write c k u b]
    is an INSERT on connection [c], which needs SQLite's write (RESERVED)
    lock: when another connection has an open transaction, the statement
    cannot run, and after the connection's busy timeout (5 s, the default
    of [sqlite3.connect]) it raises [OperationalError("database is
    locked")], continuing as [b].

    [atom] makes one statement of a handler ([get_db], [cursor.execute],
    [commit], [close], a parameter binding or a fetch) a step; [write] is
    the INSERT, which reads [CURRENT_TIMESTAMP] when it runs.  [tbind],
    [texcept] and [tfinally] are sequencing, [try]/[except] and
    [try]/[finally] on threads, with the notations of [Prelude] in
    [thread_scope], so that [register_t] ... [get_messages_t] read line for
    line as [register] ... [get_messages] of [Handlers].

    [run] executes a thread alone, taking the INSERT's lock check into
    account.  The lemma [dispatch_t_run] says that a thread
    run alone, on a world where no connection has an open transaction, is
    the handler of [Handlers]: the two models are the same program.  It is
    proved by the simulation [agrees], carried through the program's
    structure by the lemmas [agrees_bind] ... [agrees_write] and the tactic
    [agree]. *)

From stdpp Require Import base list.
From Stdlib Require Import ZArith Lia.
From S2P Require Import Prelude Text Hasher Clock Store Handlers Service.

Open Scope Z_scope.

(** ** Threads *)

Inductive thread (A : Type) : Type :=
| Done (r : outcome exn A)
| Step (k : world -> thread A) (u : world -> world)
| Write (c : nat) (k : world -> thread A) (u : world -> world) (busy : thread A).
Arguments Done {A} r.
Arguments Step {A} k u.
Arguments Write {A} c k u busy.

Definition tret {A} (a : A) : thread A := Done (Ok a).
Definition traise {A} (e : exn) : thread A := Done (Raise e).

(** One statement of a handler, run atomically. *)
Definition atom {A} (m : Py A) : thread A :=
  Step (fun w => Done (fst (m w))) (fun w => snd (m w)).

(** Connection [c] holds no write lock of another connection's: no other
    open connection has a transaction. *)
Definition has_txn (k : conn) : bool :=
  match conn_txn k with Some _ => true | None => false end.

Definition unlocked (c : nat) (w : world) : bool :=
  forallb (fun k => bool_decide (conn_id k = c) || negb (has_txn k)) (conns w).

Definition database_locked : exn := SqliteError (OperationalError "database is locked").

(** An INSERT on connection [c]; [f now] is the statement at the time
    [now] of its execution. *)
Definition write (c : nat) (f : Z -> db -> outcome sql_error db) : thread unit :=
  Write c (fun w => Done (fst (execute_write c (f (clock w)) w)))
          (fun w => snd (execute_write c (f (clock w)) w))
          (traise database_locked).

Fixpoint tbind {A B} (t : thread A) (f : A -> thread B) : thread B :=
  match t with
  | Done (Ok a) => f a
  | Done (Raise e) => Done (Raise e)
  | Step k u => Step (fun w => tbind (k w) f) u
  | Write c k u b => Write c (fun w => tbind (k w) f) u (tbind b f)
  end.

Fixpoint texcept {A} (t : thread A) (h : exn -> thread A) : thread A :=
  match t with
  | Done (Ok a) => Done (Ok a)
  | Done (Raise e) => h e
  | Step k u => Step (fun w => texcept (k w) h) u
  | Write c k u b => Write c (fun w => texcept (k w) h) u (texcept b h)
  end.

Fixpoint tfinally {A} (t : thread A) (f : thread unit) : thread A :=
  match t with
  | Done r => tbind f (fun _ => Done r)
  | Step k u => Step (fun w => tfinally (k w) f) u
  | Write c k u b => Write c (fun w => tfinally (k w) f) u (tfinally b f)
  end.

Declare Scope thread_scope.
Delimit Scope thread_scope with thread.

Notation "'let*' x ':=' c 'in' k" := (tbind c (fun x => k))
  (at level 10, x name, c at level 100, k at level 200,
   format "'[v' 'let*'  x  ':='  c  'in' '/' k ']'") : thread_scope.
Notation "'try' c 'except' h" := (texcept c h)
  (at level 10, c at level 100, h at level 200) : thread_scope.
Notation "'try' c 'finally' f" := (tfinally c f)
  (at level 10, c at level 100, f at level 200) : thread_scope.

(** A thread run alone. *)
Fixpoint run {A} (t : thread A) : Py A :=
  match t with
  | Done r => fun w => (r, w)
  | Step k u => fun w => run (k w) (u w)
  | Write c k u b => fun w => if unlocked c w then run (k w) (u w) else run b w
  end.

(** ** The handlers as threads (server.py:70-123) *)

Section HandlerThreads.
Context `{Sha256}.
Local Open Scope thread_scope.

Definition register_t (user : UserCreate) : thread response :=
  let* conn := atom get_db in
  let* _ :=
  (try
     (try
        (let* h := atom (hash_password_h (uc_password user)) in
         let* name := atom (bind_param (uc_username user)) in
         let* hb := atom (bind_param h) in
         let* _ := write conn (fun _ d => insert_user d name hb) in
         atom (commit conn))
      except (fun e =>
        match e with
        | SqliteError (IntegrityError _) => traise (HTTPException 400 "Username already exists")
        | e => traise e
        end))
   finally atom (close conn)) in
  tret (RMessage "User registered").

Definition login_t (user : UserLogin) : thread response :=
  let* conn := atom get_db in
  let* name := atom (bind_param (ul_username user)) in
  let* row := atom (execute_read conn (fun d => select_password_hash d name)) in
  let* row_s := (match row with
                 | Some bs => let* s := atom (fetch_text bs) in tret (Some s)
                 | None => tret None
                 end) in
  let* _ := atom (close conn) in
  match row_s with
  | None => traise (HTTPException 401 "Invalid credentials")
  | Some stored =>
      let* h := atom (hash_password_h (ul_password user)) in
      if decide (stored = h) then tret (RMessage "Login successful")
      else traise (HTTPException 401 "Invalid credentials")
  end.

Definition get_users_t : thread response :=
  let* conn := atom get_db in
  let* rows := atom (execute_read conn select_usernames) in
  let* users := atom (fetch_texts rows) in
  let* _ := atom (close conn) in
  tret (RUsers users).

Definition send_message_t (msg : MessageCreate) : thread response :=
  let* conn := atom get_db in
  let* s := atom (bind_param (mc_sender msg)) in
  let* r := atom (bind_param (mc_receiver msg)) in
  let* t := atom (bind_param (mc_text msg)) in
  let* _ := write conn (fun now d => insert_message d (current_timestamp now) s r t) in
  let* _ := atom (commit conn) in
  let* _ := atom (close conn) in
  tret (RMessage "Message sent").

Definition get_messages_t (user1 user2 : pystr) : thread response :=
  let* conn := atom get_db in
  let* b1 := atom (bind_param user1) in
  let* b2 := atom (bind_param user2) in
  let* rows := atom (execute_read conn (fun d => select_messages d b1 b2)) in
  let* messages := atom (fetch_messages rows) in
  let* _ := atom (close conn) in
  tret (RMessages messages).

Definition dispatch_t (req : request) : thread response :=
  match req with
  | PostRegister u => register_t u
  | PostLogin u => login_t u
  | GetUsers => get_users_t
  | PostSend m => send_message_t m
  | GetMessages u1 u2 => get_messages_t u1 u2
  end.
End HandlerThreads.

(** ** Running a thread alone *)

(** No open connection has a transaction. *)
Definition no_txn (w : world) : Prop := Forall (fun k => conn_txn k = None) (conns w).
(** Only connection [c] may have a transaction. *)
Definition only_txn (c : nat) (w : world) : Prop :=
  Forall (fun k => conn_id k = c \/ conn_txn k = None) (conns w).

Definition preserves {B} (I : world -> Prop) (m : Py B) : Prop := forall w, I w -> I (snd (m w)).
Definition agrees {B} (I : world -> Prop) (t : thread B) (m : Py B) : Prop :=
  forall w, I w -> run t w = m w.

Lemma run_tbind {A B} (t : thread A) (f : A -> thread B) w :
  run (tbind t f) w =
    match run t w with (Ok a, w') => run (f a) w' | (Raise e, w') => (Raise e, w') end.
Proof.
  revert w. induction t as [[a|e]|k IH u|c k IH u b IHb]; intros w; simpl; [done|done|apply IH|].
  case_match; [apply IH|apply IHb].
Qed.

Lemma run_texcept {A} (t : thread A) (h : exn -> thread A) w :
  run (texcept t h) w =
    match run t w with (Ok a, w') => (Ok a, w') | (Raise e, w') => run (h e) w' end.
Proof.
  revert w. induction t as [[a|e]|k IH u|c k IH u b IHb]; intros w; simpl; [done|done|apply IH|].
  case_match; [apply IH|apply IHb].
Qed.

Lemma run_tfinally {A} (t : thread A) (f : thread unit) w :
  run (tfinally t f) w =
    match run t w with
    | (r, w') => match run f w' with (Ok _, w'') => (r, w'') | (Raise e, w'') => (Raise e, w'') end
    end.
Proof.
  revert w. induction t as [r|k IH u|c k IH u b IHb]; intros w.
  - cbn [tfinally]. rewrite run_tbind. simpl. by destruct (run f w) as [[] ?].
  - simpl. apply IH.
  - simpl. case_match; [apply IH|apply IHb].
Qed.

Section Agrees.
Context (I : world -> Prop).

Lemma agrees_bind {A B} t (m : Py A) (f : A -> thread B) g :
  agrees I t m -> preserves I m -> (forall a, agrees I (f a) (g a)) -> agrees I (tbind t f) (bind m g).
Proof.
  intros Ht Hm Hf w Hw. rewrite run_tbind, Ht by done. unfold bind.
  specialize (Hm w Hw). destruct (m w) as [[a|e] w']; simpl in *; [by apply Hf|done].
Qed.

Lemma agrees_except {A} t (m : Py A) h h' :
  agrees I t m -> preserves I m -> (forall e, agrees I (h e) (h' e)) -> agrees I (texcept t h) (try_except m h').
Proof.
  intros Ht Hm Hh w Hw. rewrite run_texcept, Ht by done. unfold try_except.
  specialize (Hm w Hw). destruct (m w) as [[a|e] w']; simpl in *; [done|by apply Hh].
Qed.

Lemma agrees_finally {A} t (m : Py A) f f' :
  agrees I t m -> preserves I m -> agrees I f f' -> agrees I (tfinally t f) (try_finally m f').
Proof.
  intros Ht Hm Hf w Hw. rewrite run_tfinally, Ht by done. unfold try_finally.
  specialize (Hm w Hw). destruct (m w) as [r w']; simpl in *. by rewrite Hf.
Qed.

Lemma agrees_ret {A} (a : A) : agrees I (tret a) (ret a).
Proof. done. Qed.

Lemma agrees_raise {A} e : agrees I (traise (A:=A) e) (raise e).
Proof. done. Qed.

Lemma agrees_atom {A} (m : Py A) : agrees I (atom m) m.
Proof. intros w _. simpl. by destruct (m w). Qed.

Lemma preserves_bind {A B} (m : Py A) (g : A -> Py B) :
  preserves I m -> (forall a, preserves I (g a)) -> preserves I (bind m g).
Proof. intros Hm Hg w Hw. specialize (Hm w Hw). unfold bind. destruct (m w) as [[a|e] w']; [by apply Hg|done]. Qed.

Lemma preserves_except {A} (m : Py A) h :
  preserves I m -> (forall e, preserves I (h e)) -> preserves I (try_except m h).
Proof. intros Hm Hh w Hw. specialize (Hm w Hw). unfold try_except. destruct (m w) as [[a|e] w']; [done|by apply Hh]. Qed.

Lemma preserves_finally {A} (m : Py A) f :
  preserves I m -> preserves I f -> preserves I (try_finally m f).
Proof.
  intros Hm Hf w Hw. specialize (Hm w Hw). unfold try_finally.
  destruct (m w) as [r w']. specialize (Hf w' Hm). by destruct (f w') as [[] w''].
Qed.

Lemma preserves_same {A} (m : Py A) : (forall w, snd (m w) = w) -> preserves I m.
Proof. intros Hm w Hw. by rewrite Hm. Qed.
End Agrees.

(** ** The statements of a handler on its connection *)

Lemma only_txn_unlocked c w : only_txn c w -> unlocked c w = true.
Proof.
  intros Hw. apply forallb_forall. intros k Hk%list_elem_of_In.
  unfold only_txn in Hw. rewrite Forall_forall in Hw. destruct (Hw k Hk) as [->|E].
  - by rewrite bool_decide_true.
  - unfold has_txn. rewrite E. apply orb_true_r.
Qed.

Lemma only_txn_set_txn c t w : only_txn c w -> only_txn c (set_txn c t w).
Proof.
  unfold only_txn, set_txn. simpl. intros Hw. apply Forall_map.
  eapply Forall_impl; [apply Hw|]. intros k Hk. case_decide; simpl; auto.
Qed.

Section Statements.
Context (c : nat).

Lemma preserves_execute_write f : preserves (only_txn c) (execute_write c f).
Proof. intros w Hw. unfold execute_write. case_match; [by apply only_txn_set_txn|done]. Qed.

Lemma preserves_commit : preserves (only_txn c) (commit c).
Proof. intros w Hw. unfold commit. repeat case_match; [by apply only_txn_set_txn|done..]. Qed.

Lemma preserves_close : preserves (only_txn c) (close c).
Proof. intros w Hw. unfold close, only_txn in *. simpl. rewrite Forall_forall in Hw |- *. intros k [_ Hk]%list_elem_of_filter. auto. Qed.

Lemma agrees_write F : agrees (only_txn c) (write c F) (fun w => execute_write c (F (clock w)) w).
Proof. intros w Hw. simpl. rewrite only_txn_unlocked by done. by destruct (execute_write _ _ _). Qed.

(** [send_message]'s INSERT reads [CURRENT_TIMESTAMP] as it runs, where
    [Handlers] reads the clock ([now_text]) just before it. *)
Lemma agrees_write_now {A} F G (f : unit -> thread A) g :
  (forall z, F z = G (current_timestamp z)) -> (forall a, agrees (only_txn c) (f a) (g a)) ->
  agrees (only_txn c) (tbind (write c F) f) (bind now_text (fun now => bind (execute_write c (G now)) g)).
Proof.
  intros HF Hf w Hw. rewrite run_tbind. simpl. rewrite only_txn_unlocked, HF by done.
  unfold bind, now_text. simpl. pose proof (preserves_execute_write (G (current_timestamp (clock w))) w Hw).
  destruct (execute_write _ _ _) as [[[]|e] w']; simpl in *; [by apply Hf|done].
Qed.
End Statements.

Section Pure.
Context `{Sha256} (I : world -> Prop).

Lemma preserves_ret {A} (a : A) : preserves I (ret a).
Proof. by apply preserves_same. Qed.

Lemma preserves_raise {A} e : preserves I (raise (A:=A) e).
Proof. by apply preserves_same. Qed.

Lemma preserves_bind_param s : preserves I (bind_param s).
Proof. apply preserves_same. intros w. unfold bind_param. by case_match. Qed.

Lemma preserves_hash_password_h s : preserves I (hash_password_h s).
Proof. apply preserves_same. intros w. unfold hash_password_h. by case_match. Qed.

Lemma preserves_fetch_text bs : preserves I (fetch_text bs).
Proof. apply preserves_same. intros w. unfold fetch_text. by case_match. Qed.

Lemma preserves_fetch_texts l : preserves I (fetch_texts l).
Proof.
  induction l as [|bs l IH]; simpl; [apply preserves_ret|].
  apply preserves_bind; [apply preserves_fetch_text|]. intros s.
  apply preserves_bind; [done|]. intros ss. apply preserves_ret.
Qed.

Lemma preserves_fetch_message m : preserves I (fetch_message m).
Proof.
  unfold fetch_message. repeat (apply preserves_bind; [apply preserves_fetch_text|]; intros).
  apply preserves_ret.
Qed.

Lemma preserves_fetch_messages l : preserves I (fetch_messages l).
Proof.
  induction l as [|m l IH]; simpl; [apply preserves_ret|].
  apply preserves_bind; [apply preserves_fetch_message|]. intros x.
  apply preserves_bind; [done|]. intros xs. apply preserves_ret.
Qed.

Lemma preserves_execute_read {A} c (f : db -> outcome sql_error A) : preserves I (execute_read c f).
Proof. apply preserves_same. intros w. unfold execute_read. by case_match. Qed.
End Pure.

Lemma agrees_connect {A} f (g : nat -> Py A) :
  (forall c, agrees (only_txn c) (f c) (g c)) -> agrees no_txn (tbind (atom get_db) f) (bind get_db g).
Proof.
  intros Hf w Hw. rewrite run_tbind. simpl. apply Hf.
  unfold only_txn. simpl. apply Forall_app. split; [|by repeat constructor; left].
  eapply Forall_impl; [apply Hw|]. auto.
Qed.

Ltac agree :=
  repeat (intros; first
    [ eapply agrees_write_now; [intros; reflexivity|]
    | apply agrees_bind | apply agrees_except | apply agrees_finally
    | apply agrees_write | apply agrees_atom | apply agrees_ret | apply agrees_raise
    | apply preserves_bind | apply preserves_except | apply preserves_finally
    | apply preserves_execute_write | apply preserves_commit | apply preserves_close
    | apply preserves_ret | apply preserves_raise | apply preserves_bind_param
    | apply preserves_hash_password_h | apply preserves_fetch_text | apply preserves_fetch_texts
    | apply preserves_fetch_messages | apply preserves_execute_read
    | case_match ]).

Section Equivalence.
Context `{Sha256}.

(** A request served by its thread alone, on a world where no connection
    has an open transaction (every state of the sequential server), gets
    the response and leaves the world the handler of [Handlers] does. *)
Theorem dispatch_t_run req w : no_txn w -> run (dispatch_t req) w = dispatch req w.
Proof.
  revert w. change (agrees no_txn (dispatch_t req) (dispatch req)).
  destruct req; simpl;
    [unfold register_t, register|unfold login_t, login|unfold get_users_t, get_users
    |unfold send_message_t, send_message|unfold get_messages_t, get_messages];
    apply agrees_connect; agree.
Qed.
End Equivalence.
