(* ===== verification/Concurrent.v ===== *)
(** * Concurrent: the server serving requests in parallel

    A configuration [cfg] is the world and the threads of the requests
    being served (FastAPI's worker threads, one per request).  [tstep] is
    one statement of one thread: an atomic statement, an INSERT that
    takes the write lock ([unlocked]), or an INSERT that times out on a
    lock held by another connection ([database_locked]).  [cstep] steps
    any thread of the pool, in place; [sstep] adds what happens around
    the threads: a new request arrives ([dispatch_t]) or the clock moves.
    [sreachable] are the configurations of the server started by [boot].

    The invariant [cinv] is SQLite's locking discipline together with the
    key constraints of the schema: usernames unique, message ids strictly
    increasing and at most the AUTOINCREMENT sequence ([keys_ok]); at most
    one connection has an open transaction, and its working copy satisfies
    the key constraints and extends the committed file ([grows]).  Every
    handler thread keeps it ([tsafe], proved statement by statement), so
    every reachable configuration satisfies it ([sreachable_cinv]), and no
    step ever removes a committed row ([sstep_grows]): no update is lost,
    whatever the interleaving.

    [next] lists the configurations one [cstep] reaches ([next_spec]),
    and [run_schedule] runs a given schedule, so that [Races] can run
    concrete schedules by evaluation ([run_schedule_rtc]).  What each
    handler achieves under interference is in [ThreadLogic] and
    [Committed]. *)

From stdpp Require Import base list relations.
From Stdlib Require Import ZArith Lia Sorted.
From S2P Require Import Prelude Text Hasher Clock Store Handlers Service Threads.

Open Scope Z_scope.

(** ** Configurations and steps *)

Record cfg : Type := mk_cfg { cworld : world; threads : list (thread response) }.

Inductive tstep {A} : world -> thread A -> world -> thread A -> Prop :=
| tstep_step w k u : tstep w (Step k u) (u w) (k w)
| tstep_write w c k u b : unlocked c w = true -> tstep w (Write c k u b) (u w) (k w)
| tstep_busy w c k u b : unlocked c w = false -> tstep w (Write c k u b) w b.

Inductive cstep : cfg -> cfg -> Prop :=
| cstep_thread w ts i t w' t' :
    ts !! i = Some t -> tstep w t w' t' -> cstep (mk_cfg w ts) (mk_cfg w' (<[i := t']> ts)).

Section Server.
Context `{Sha256}.

Inductive sstep : cfg -> cfg -> Prop :=
| sstep_thread c c' : cstep c c' -> sstep c c'
| sstep_request w ts req :
    valid_request req -> sstep (mk_cfg w ts) (mk_cfg w (ts ++ [dispatch_t req]))
| sstep_clock w ts t :
    sstep (mk_cfg w ts) (mk_cfg (mk_world (store w) (conns w) (next_conn w) t) ts).

Inductive sreachable : cfg -> Prop :=
| sreachable_boot t0 : sreachable (mk_cfg (boot t0) [])
| sreachable_step c c' : sreachable c -> sstep c c' -> sreachable c'.
End Server.

(** ** The invariant *)

(** The PRIMARY KEY of [users] and the AUTOINCREMENT key of [messages]. *)
Definition keys_ok (d : db) : Prop :=
  (forall us, users d = Some us -> NoDup (map username us)) /\
  (forall ms, messages d = Some ms ->
     StronglySorted (fun a b => id a < id b) ms /\
     Forall (fun m => 1 <= id m <= sqlite_sequence d) ms) /\
  0 <= sqlite_sequence d <= max_rowid.

Definition opt_prefix {A} (o1 o2 : option (list A)) : Prop :=
  match o1, o2 with
  | Some l1, Some l2 => l1 `prefix_of` l2
  | None, None => True
  | _, _ => False
  end.

(** [d'] keeps every row of [d], in place, and its sequence. *)
Definition grows (d d' : db) : Prop :=
  opt_prefix (users d) (users d') /\ opt_prefix (messages d) (messages d') /\
  sqlite_sequence d <= sqlite_sequence d'.

Definition cinv (w : world) : Prop :=
  keys_ok (store w) /\ NoDup (map conn_id (conns w)) /\ fresh_conns w /\
  (forall k d, k ∈ conns w -> conn_txn k = Some d -> keys_ok d /\ grows (store w) d) /\
  (forall k1 k2, k1 ∈ conns w -> k2 ∈ conns w -> has_txn k1 = true -> has_txn k2 = true ->
     conn_id k1 = conn_id k2).

(** A step from [w] to [w'] keeps the invariant and the committed rows. *)
Definition good (w w' : world) : Prop := cinv w' /\ grows (store w) (store w').

(** Every statement of the thread keeps [good], whatever the world it
    runs in, and whatever the other threads did before. *)
Inductive tsafe {A} : thread A -> Prop :=
| tsafe_done r : tsafe (Done r)
| tsafe_step k u :
    (forall w, cinv w -> good w (u w)) -> (forall w, tsafe (k w)) -> tsafe (Step k u)
| tsafe_write c k u b :
    (forall w, cinv w -> unlocked c w = true -> good w (u w)) -> (forall w, tsafe (k w)) ->
    tsafe b -> tsafe (Write c k u b).

(** ** Exploring every schedule *)

(** The configurations one step of thread [i], [t], reaches. *)
Definition succs (w : world) (ts : list (thread response)) (i : nat) (t : thread response) : list cfg :=
  match t with
  | Done _ => []
  | Step k u => [mk_cfg (u w) (<[i := k w]> ts)]
  | Write c k u b =>
      if unlocked c w then [mk_cfg (u w) (<[i := k w]> ts)] else [mk_cfg w (<[i := b]> ts)]
  end.

(** The configurations one [cstep] reaches. *)
Definition next (c : cfg) : list cfg := mjoin (imap (succs (cworld c) (threads c)) (threads c)).

(** The configuration a schedule (the thread of each step) reaches, if
    each step of it can run in one way only. *)
Fixpoint run_schedule (s : list nat) (c : cfg) : option cfg :=
  match s with
  | [] => Some c
  | i :: s' =>
      match threads c !! i with
      | Some t => match succs (cworld c) (threads c) i t with
                  | [c1] => run_schedule s' c1
                  | _ => None
                  end
      | None => None
      end
  end.

(** ** Growth of the file *)

#[export] Instance opt_prefix_preorder {A} : PreOrder (@opt_prefix A).
Proof.
  split; [by intros [l|]; simpl|].
  intros [l1|] [l2|] [l3|]; simpl; try done. apply transitivity.
Qed.

#[export] Instance grows_preorder : PreOrder grows.
Proof.
  split.
  - intros d. split_and!; [reflexivity..|lia].
  - intros d1 d2 d3 (U1 & M1 & S1) (U2 & M2 & S2). split_and!; [etrans; eauto..|lia].
Qed.

Lemma max_id_bound seq ms : 0 <= seq -> Forall (fun m => 1 <= id m <= seq) ms -> max_id ms <= seq.
Proof. intros Hs. induction 1 as [|m ms Hm _ IH]; simpl; lia. Qed.

Lemma insert_user_keys d n h d' :
  insert_user d n h = Ok d' -> keys_ok d -> keys_ok d' /\ grows d d'.
Proof.
  unfold insert_user. destruct (users d) as [us|] eqn:E; [|done]. case_bool_decide as Hin; [done|].
  intros [= <-] (Hu & Hm & Hs). split.
  - split_and!; simpl; try done; try lia. intros us' [= <-]. rewrite map_app. apply NoDup_app.
    split_and!; [by apply Hu| |by apply NoDup_singleton].
    intros x Hx ->%list_elem_of_singleton. done.
  - split_and!; simpl; rewrite ?E; [by exists [mk_user_row n h]|by destruct (messages d)|lia].
Qed.

Lemma insert_message_keys d now s r t d' :
  insert_message d now s r t = Ok d' -> keys_ok d -> keys_ok d' /\ grows d d'.
Proof.
  unfold insert_message. destruct (messages d) as [ms|] eqn:E; [|done].
  intros Hi (Hu & Hm & Hs). destruct (Hm ms E) as [Hsort Hf].
  pose proof (max_id_bound _ _ (proj1 Hs) Hf). rewrite Z.max_l in Hi by lia.
  destruct (Z.ltb_spec max_rowid (sqlite_sequence d + 1)); [done|]. injection Hi as <-.
  split.
  - split_and!; simpl; try done; try lia. intros ms' [= <-]. split.
    + apply StronglySorted_snoc; [done|]. eapply Forall_impl; [apply Hf|]. simpl. lia.
    + apply Forall_app. split; [eapply Forall_impl; [apply Hf|]; simpl; lia|]. constructor; simpl; [lia|done].
  - split_and!; simpl; rewrite ?E; [by destruct (users d)|by eexists|lia].
Qed.

(** ** Each statement keeps the invariant *)

Lemma elem_of_map_iff {A B} (f : A -> B) l x : x ∈ map f l <-> exists y, x = f y /\ y ∈ l.
Proof.
  rewrite list_elem_of_In, in_map_iff. setoid_rewrite list_elem_of_In. naive_solver.
Qed.

Lemma good_same w : cinv w -> good w w.
Proof. split; [done|reflexivity]. Qed.

Lemma find_conn_elem c w k : find_conn c w = Some k -> k ∈ conns w /\ conn_id k = c.
Proof.
  unfold find_conn. intros Hh.
  assert (k ∈ filter (fun k => conn_id k = c) (conns w)) as Hk%list_elem_of_filter.
  { destruct (filter _ _); simpl in *; [done|]. injection Hh as ->. left. }
  tauto.
Qed.

Lemma conn_view_keys c w : cinv w -> keys_ok (conn_view c w) /\ grows (store w) (conn_view c w).
Proof.
  intros (Hk & _ & _ & Ht & _). unfold conn_view.
  destruct (find_conn c w) as [[c' [d|]]|] eqn:E; try (split; [done|reflexivity]).
  apply find_conn_elem in E as [Hin _]. by apply (Ht _ d Hin).
Qed.

Lemma map_conn_id_set_txn c t l :
  map conn_id (map (fun k => if decide (conn_id k = c) then mk_conn c t else k) l) = map conn_id l.
Proof. induction l as [|k l IH]; simpl; [done|]. case_decide; simpl; congruence. Qed.

Lemma good_get_db w : cinv w -> good w (snd (get_db w)).
Proof.
  intros (Hk & Hnd & Hf & Ht & Hh). split; [|reflexivity]. unfold get_db. simpl.
  split_and!; simpl; [done| | | |].
  - rewrite map_app. apply NoDup_app. split_and!; [done| |by apply NoDup_singleton].
    intros x Hx ->%list_elem_of_singleton. apply elem_of_map_iff in Hx as (k & Hkeq & Hx). simpl in Hkeq.
    unfold fresh_conns in Hf. rewrite Forall_forall in Hf. specialize (Hf k Hx). lia.
  - apply Forall_app. split; [eapply Forall_impl; [unfold fresh_conns in Hf; apply Hf|]; simpl; lia|repeat constructor].
  - intros k d Hin. apply elem_of_app in Hin as [Hin|Hin]; [by apply Ht|]. apply list_elem_of_singleton in Hin as ->. done.
  - intros k1 k2 H1 H2 T1 T2.
    apply elem_of_app in H1 as [H1|H1%list_elem_of_singleton];
      apply elem_of_app in H2 as [H2|H2%list_elem_of_singleton]; subst; simpl in *;
      first [by apply Hh | discriminate].
Qed.

Lemma good_execute_write c f w :
  (forall d d', f d = Ok d' -> keys_ok d -> keys_ok d' /\ grows d d') ->
  cinv w -> unlocked c w = true -> good w (snd (execute_write c f w)).
Proof.
  intros Hfk Hw Hu. unfold execute_write.
  destruct (f (conn_view c w)) as [d'|e] eqn:E; [|by apply good_same].
  destruct (conn_view_keys c w Hw) as [Hvk Hvg]. destruct (Hfk _ _ E Hvk) as [Hk' Hg'].
  destruct Hw as (Hk & Hnd & Hf & Ht & Hh). unfold unlocked in Hu. rewrite forallb_forall in Hu.
  split; [|reflexivity]. unfold set_txn. simpl. split_and!; simpl; [done| |..].
  - by rewrite map_conn_id_set_txn.
  - unfold fresh_conns in *. simpl. apply Forall_map. eapply Forall_impl; [apply Hf|].
    intros k Hk1. case_decide; simpl in *; [subst; lia|done].
  - intros k d (k0 & -> & Hk0)%elem_of_map_iff. case_decide as Hc.
    + intros [= <-]. split; [done|by etrans].
    + specialize (Hu k0 (proj1 (list_elem_of_In _ _) Hk0)). rewrite bool_decide_false in Hu by done.
      unfold has_txn in Hu. destruct (conn_txn k0); simpl in Hu; discriminate.
  - intros k1 k2 (k1' & -> & H1)%elem_of_map_iff (k2' & -> & H2)%elem_of_map_iff.
    assert (forall k0, k0 ∈ conns w -> conn_id k0 <> c -> has_txn k0 = false) as Hno.
    { intros k0 Hk0 Hc. specialize (Hu k0 (proj1 (list_elem_of_In _ _) Hk0)).
      rewrite bool_decide_false in Hu by done. by destruct (has_txn k0). }
    do 2 case_decide; simpl; auto; intros T1 T2;
      first [rewrite Hno in T2 by done; discriminate | rewrite Hno in T1 by done; discriminate].
Qed.

Lemma good_commit c w : cinv w -> good w (snd (commit c w)).
Proof.
  intros Hw. unfold commit.
  destruct (find_conn c w) as [[c' [d|]]|] eqn:E; try by apply good_same.
  apply find_conn_elem in E as [Hin <-]. destruct Hw as (Hk & Hnd & Hf & Ht & Hh).
  destruct (Ht _ d Hin eq_refl) as [Hkd Hgd].
  assert (forall k0, k0 ∈ conns w -> has_txn k0 = true -> conn_id k0 = c') as Hone
    by (intros k0 Hk0 T; apply (Hh k0 _ Hk0 Hin T); done).
  split; [|done]. unfold set_txn. simpl. split_and!; simpl; [done|by rewrite map_conn_id_set_txn| |..].
  - unfold fresh_conns in *. simpl in *. apply Forall_map. eapply Forall_impl; [apply Hf|].
    intros k Hk1. case_decide; simpl in *; [subst; lia|done].
  - intros k d' (k0 & -> & Hk0)%elem_of_map_iff. case_decide as Hc; [done|].
    intros Ht0. exfalso. apply Hc, Hone; [done|]. unfold has_txn. by rewrite Ht0.
  - intros k1 k2 (k1' & -> & H1)%elem_of_map_iff (k2' & -> & H2)%elem_of_map_iff.
    do 2 case_decide; simpl; intros T1 T2; try done; [|rewrite (Hone k1')..]; auto.
Qed.

Lemma NoDup_map_filter {A B} (f : A -> B) (P : A -> Prop) `{forall x, Decision (P x)} l :
  NoDup (map f l) -> NoDup (map f (filter P l)).
Proof.
  induction l as [|x l IH]; [done|]. simpl. intros (Hn & Hd)%NoDup_cons. rewrite filter_cons.
  case_decide; simpl; [|auto]. constructor; [|auto].
  intros (y & Hy & [_ Hy2]%list_elem_of_filter)%elem_of_map_iff. apply Hn. rewrite Hy.
  apply elem_of_map_iff. eauto.
Qed.

Lemma good_close c w : cinv w -> good w (snd (close c w)).
Proof.
  intros (Hk & Hnd & Hf & Ht & Hh). split; [|reflexivity]. unfold close. simpl.
  assert (forall k, k ∈ filter (fun k => conn_id k <> c) (conns w) -> k ∈ conns w) as Hsub
    by (intros k [_ Hk1]%list_elem_of_filter; done).
  split_and!; simpl; [done| | |eauto|eauto].
  - by apply NoDup_map_filter.
  - unfold fresh_conns in *. simpl. rewrite Forall_forall in Hf |- *. auto.
Qed.

(** ** Safe threads *)

Lemma tsafe_bind {A B} (t : thread A) (f : A -> thread B) :
  tsafe t -> (forall a, tsafe (f a)) -> tsafe (tbind t f).
Proof.
  intros Ht Hf. induction Ht as [[a|e]| |]; simpl; [done|constructor|constructor|constructor]; auto.
Qed.

Lemma tsafe_except {A} (t : thread A) h : tsafe t -> (forall e, tsafe (h e)) -> tsafe (texcept t h).
Proof. intros Ht Hh. induction Ht as [[a|e]| |]; simpl; try constructor; auto. Qed.

Lemma tsafe_finally {A} (t : thread A) f : tsafe t -> tsafe f -> tsafe (tfinally t f).
Proof.
  intros Ht Hf. induction Ht; simpl; try constructor; auto.
  apply tsafe_bind; [done|]. constructor.
Qed.

Lemma tsafe_atom {A} (m : Py A) : (forall w, cinv w -> good w (snd (m w))) -> tsafe (atom m).
Proof. intros Hm. constructor; [done|]. constructor. Qed.

(** A statement that does not touch the world. *)
Lemma tsafe_pure {A} (m : Py A) : (forall I, preserves I m) -> tsafe (atom m).
Proof. intros Hm. apply tsafe_atom. intros w Hw. apply (Hm (good w) w). by apply good_same. Qed.

Lemma tsafe_insert c F :
  (forall now d d', F now d = Ok d' -> keys_ok d -> keys_ok d' /\ grows d d') -> tsafe (write c F).
Proof.
  intros HF. constructor; [|constructor|constructor].
  intros w Hw Hu. apply good_execute_write; [|done..]. intros d d' E. by apply (HF (clock w)).
Qed.

Ltac tsafe_auto :=
  repeat (intros; first
    [ apply tsafe_bind | apply tsafe_except | apply tsafe_finally
    | apply tsafe_insert; intros ? ? ?; first [apply insert_user_keys | apply insert_message_keys]
    | apply tsafe_atom; intros; first [apply good_get_db | apply good_commit | apply good_close]; assumption
    | apply tsafe_pure; intros;
      first [ apply preserves_bind_param | apply preserves_hash_password_h | apply preserves_fetch_text
            | apply preserves_fetch_texts | apply preserves_fetch_messages | apply preserves_execute_read ]
    | constructor
    | case_match ]).

Section Handlers.
Context `{Sha256}.

Lemma tsafe_dispatch_t req : tsafe (dispatch_t req).
Proof.
  destruct req; simpl;
    [unfold register_t|unfold login_t|unfold get_users_t|unfold send_message_t|unfold get_messages_t];
    tsafe_auto.
Qed.
End Handlers.

(** ** Reachable configurations *)

Lemma cinv_boot `{Sha256} t0 : cinv (boot t0).
Proof.
  rewrite boot_run. split_and!; simpl.
  - split_and!; simpl; [intros us [= <-]; constructor|intros ms [= <-]; split; constructor|..];
      unfold max_rowid; lia.
  - constructor.
  - constructor.
  - intros k d Hk. by apply elem_of_nil in Hk.
  - intros k1 k2 Hk. by apply elem_of_nil in Hk.
Qed.

Lemma cinv_clock w t : cinv w -> cinv (mk_world (store w) (conns w) (next_conn w) t).
Proof. done. Qed.

Lemma tstep_good {A} w (t : thread A) w' t' :
  tstep w t w' t' -> cinv w -> tsafe t -> good w w' /\ tsafe t'.
Proof.
  destruct 1 as [w k u|w c k u b Hu|w c k u b Hu]; intros Hw Ht; inversion Ht; simplify_eq;
    split; auto using good_same.
Qed.

Lemma cstep_good c c' :
  cstep c c' -> cinv (cworld c) -> Forall tsafe (threads c) ->
  good (cworld c) (cworld c') /\ Forall tsafe (threads c').
Proof.
  destruct 1 as [w ts i t w' t' Hi Hs]. simpl. intros Hw Hts.
  destruct (tstep_good w t w' t' Hs Hw) as [Hg Ht']; [by eapply Forall_lookup_1|].
  split; [done|]. by apply Forall_insert.
Qed.

Section Reachable.
Context `{Sha256}.

Lemma sreachable_safe c : sreachable c -> cinv (cworld c) /\ Forall tsafe (threads c).
Proof.
  induction 1 as [t0|c c' _ [Hw Hts] Hs].
  - split; [apply cinv_boot|constructor].
  - destruct Hs as [c c' Hc|w ts req Hv|w ts t]; simpl in *.
    + destruct (cstep_good c c' Hc Hw Hts) as [[? _] ?]. done.
    + split; [done|]. apply Forall_app. split; [done|]. repeat constructor. apply tsafe_dispatch_t.
    + split; [by apply cinv_clock|done].
Qed.

(** C10. Every configuration of the concurrent server satisfies the key
    constraints and SQLite's locking discipline. *)
Theorem sreachable_cinv c : sreachable c -> cinv (cworld c).
Proof. intros Hc. apply (sreachable_safe c Hc). Qed.

(** C11. No lost update: whatever the interleaving, a step never removes or
    changes a committed row, nor lowers the AUTOINCREMENT sequence. *)
Theorem sstep_grows c c' : sreachable c -> sstep c c' -> grows (store (cworld c)) (store (cworld c')).
Proof.
  intros Hc Hs. destruct (sreachable_safe c Hc) as [Hw Hts].
  destruct Hs as [c c' Hc'|w ts req Hv|w ts t]; simpl; [|reflexivity|reflexivity].
  apply (cstep_good c c' Hc' Hw Hts).
Qed.
End Reachable.

(** ** Running a given schedule *)

Lemma next_spec c c' : cstep c c' <-> c' ∈ next c.
Proof.
  unfold next. rewrite list_elem_of_join. split.
  - destruct 1 as [w ts i t w' t' Hi Hs]. simpl.
    exists (succs w ts i t). split; [|by apply elem_of_lookup_imap_2].
    destruct Hs as [w k u|w c0 k u b Hu|w c0 k u b Hu]; simpl; rewrite ?Hu; by left.
  - intros (l & Hc & (i & t & -> & Hi)%elem_of_lookup_imap_1). destruct c as [w ts]. simpl in *.
    destruct t as [r|k u|c0 k u b]; simpl in Hc; [by apply elem_of_nil in Hc| |].
    + apply list_elem_of_singleton in Hc as ->. econstructor; [done|constructor].
    + destruct (unlocked c0 w) eqn:Hu; apply list_elem_of_singleton in Hc as ->;
        (econstructor; [done|]); by constructor.
Qed.

Lemma run_schedule_nsteps s c c' :
  run_schedule s c = Some c' -> nsteps cstep (length s) c c'.
Proof.
  revert c. induction s as [|i s IH]; intros c; simpl; [intros [= ->]; constructor|].
  destruct (threads c !! i) as [t|] eqn:Ht; [|done].
  destruct (succs (cworld c) (threads c) i t) as [|c1 [|]] eqn:Es; try done.
  intros Hr. eapply nsteps_l; [|by apply IH]. apply next_spec, list_elem_of_join.
  exists [c1]. split; [by apply list_elem_of_singleton|]. rewrite <- Es.
  by apply elem_of_lookup_imap_2.
Qed.

Lemma run_schedule_rtc s c c' : run_schedule s c = Some c' -> rtc cstep c c'.
Proof. intros H. by eapply rtc_nsteps_2, run_schedule_nsteps. Qed.
