(* ===== verification/ThreadLogic.v ===== *)
(** * ThreadLogic: what one thread achieves while the others run

    [Concurrent] shows what every thread keeps (the invariant [cinv]).
    This file is a small rely-guarantee logic to show what one thread
    achieves in spite of the others.  A thread owns at most one
    connection, the one its [get_db] opened.  Each of its statements
    keeps [cinv] and the committed rows and touches no connection it
    does not own ([guar]).  So the thread may assume that between two of
    its statements, the others and the clock keep [cinv] and the
    committed rows and leave its connection alone ([rely]).  An
    assertion that survives [rely] is [stable].

    [hoare Q o P t]: thread [t], owning [o], started in a world where
    [P] holds, ends with an outcome [r] such that [Q o' r] holds, where
    [o'] is what it then owns.  The assertions between its statements are
    stable, so they still hold when the thread is scheduled again.  It is
    an inductive predicate on the thread, in the style of a semantic
    Hoare triple.  The rules [hoare_bind], [hoare_except] and
    [hoare_finally] follow the program's [let*], [try]/[except] and
    [try]/[finally]; [hoare_let_get_db], [hoare_let_pure],
    [hoare_let_read], [hoare_let_write], [hoare_let_commit] and
    [hoare_close] are the statements of the handlers.

    The soundness theorem [pool_cstep] carries a [ghost] per thread (its
    owner, the assertion it is at, and its postcondition) through any
    step of the pool: the owners stay distinct, so every thread's
    assertion survives the steps of the others.  [Committed] applies
    it to the handlers. *)

From stdpp Require Import base list relations.
From Stdlib Require Import ZArith Lia Sorted.
From S2P Require Import Prelude Text Hasher Clock Store Handlers Service Threads Concurrent.

Open Scope Z_scope.

(** ** Rely and guarantee *)

(** What the other threads, the arrival of requests and the clock may do
    while a thread owning [o] waits. *)
Definition rely (o : option nat) (w w' : world) : Prop :=
  cinv w' /\ grows (store w) (store w') /\ (next_conn w <= next_conn w')%nat /\
  (forall c, o = Some c -> find_conn c w' = find_conn c w).

(** What one statement of a thread owning [o] may do; [o'] is what the
    thread owns after it ([get_db] gives it the connection it opens). *)
Definition guar (o o' : option nat) (w w' : world) : Prop :=
  good w w' /\ (next_conn w <= next_conn w')%nat /\
  (forall c, (c < next_conn w)%nat -> o <> Some c -> find_conn c w' = find_conn c w) /\
  (o' = o \/ (o = None /\ o' = Some (next_conn w) /\ (next_conn w < next_conn w')%nat)).

Definition stable (o : option nat) (P : world -> Prop) : Prop :=
  forall w w', P w -> rely o w w' -> P w'.

(** ** Triples *)

Inductive hoare {A} (Q : option nat -> outcome exn A -> world -> Prop)
    : option nat -> (world -> Prop) -> thread A -> Prop :=
| hoare_done o P r : (forall w, cinv w -> P w -> Q o r w) -> hoare Q o P (Done r)
| hoare_step o P k u :
    (forall w, cinv w -> P w -> exists o' P',
       guar o o' w (u w) /\ P' (u w) /\ stable o' P' /\ hoare Q o' P' (k w)) ->
    hoare Q o P (Step k u)
| hoare_write o P c k u b :
    (forall w, cinv w -> P w -> unlocked c w = true -> exists o' P',
       guar o o' w (u w) /\ P' (u w) /\ stable o' P' /\ hoare Q o' P' (k w)) ->
    hoare Q o P b -> hoare Q o P (Write c k u b).

(** ** The thread pool with its ghosts *)

(** What the proof knows of a thread: the connection it owns, the
    assertion it is at and its postcondition. *)
Record ghost : Type := mk_ghost {
  g_owner : option nat;
  g_pre : world -> Prop;
  g_post : option nat -> outcome exn response -> world -> Prop
}.

Definition owners (gs : list ghost) : list nat := omap g_owner gs.

Definition ghost_ok (w : world) (g : ghost) (t : thread response) : Prop :=
  hoare (g_post g) (g_owner g) (g_pre g) t /\ g_pre g w /\ stable (g_owner g) (g_pre g).

Definition pool_ok (gs : list ghost) (c : cfg) : Prop :=
  cinv (cworld c) /\ Forall2 (ghost_ok (cworld c)) gs (threads c) /\
  NoDup (owners gs) /\ Forall (fun n => (n < next_conn (cworld c))%nat) (owners gs).

(** ** Which connections a statement touches *)

Lemma find_conn_conns c w w' : conns w' = conns w -> find_conn c w' = find_conn c w.
Proof. unfold find_conn. by intros ->. Qed.

Lemma filter_set_txn_ne c c' t l :
  c' <> c ->
  filter (fun k => conn_id k = c') (map (fun k => if decide (conn_id k = c) then mk_conn c t else k) l) =
  filter (fun k => conn_id k = c') l.
Proof.
  intros Hne. induction l as [|k l IH]; [done|]. simpl. rewrite !filter_cons.
  repeat case_decide; simplify_eq/=; try congruence; by rewrite IH.
Qed.

Lemma find_conn_set_txn_ne c c' t w : c' <> c -> find_conn c' (set_txn c t w) = find_conn c' w.
Proof. intros Hne. unfold find_conn, set_txn. simpl. by rewrite filter_set_txn_ne. Qed.

Lemma find_conn_set_txn_eq c t w k :
  find_conn c w = Some k -> find_conn c (set_txn c t w) = Some (mk_conn c t).
Proof.
  unfold find_conn, set_txn. simpl. generalize (conns w) as l. intros l.
  induction l as [|k0 l IH]; [done|]. simpl. rewrite !filter_cons.
  case_decide as Hk; simpl.
  - rewrite decide_True by done. done.
  - rewrite decide_False by done. apply IH.
Qed.

Lemma find_conn_close_ne c c' w : c' <> c -> find_conn c' (snd (close c w)) = find_conn c' w.
Proof.
  intros Hne. unfold find_conn, close. simpl. rewrite list_filter_filter.
  f_equal. apply list_filter_iff. intros k. split; [tauto|]. intros ->. done.
Qed.

Lemma find_conn_get_db_old c w : (c < next_conn w)%nat -> find_conn c (snd (get_db w)) = find_conn c w.
Proof.
  intros Hlt. unfold find_conn, get_db. simpl. rewrite filter_app, filter_cons, filter_nil.
  rewrite decide_False by (simpl; lia). by rewrite app_nil_r.
Qed.

Lemma find_conn_get_db_new w :
  fresh_conns w -> find_conn (next_conn w) (snd (get_db w)) = Some (mk_conn (next_conn w) None).
Proof.
  intros Hf. unfold find_conn, get_db. simpl. rewrite filter_app, filter_cons, filter_nil.
  rewrite decide_True by done.
  assert (filter (fun k => conn_id k = next_conn w) (conns w) = []) as ->; [|done].
  unfold fresh_conns in Hf. induction Hf as [|k l Hk _ IH]; [done|].
  rewrite filter_cons, decide_False by lia. done.
Qed.

Lemma find_conn_commit_ne c c' w : c' <> c -> find_conn c' (snd (commit c w)) = find_conn c' w.
Proof.
  intros Hne. unfold commit. destruct (find_conn c w) as [[? [d|]]|]; [|done..].
  simpl. rewrite find_conn_set_txn_ne by done. by apply find_conn_conns.
Qed.

Lemma find_conn_execute_write_ne c c' f w :
  c' <> c -> find_conn c' (snd (execute_write c f w)) = find_conn c' w.
Proof.
  intros Hne. unfold execute_write. destruct (f (conn_view c w)); simpl; [|done].
  by apply find_conn_set_txn_ne.
Qed.

(** ** Each statement keeps its guarantee *)

Lemma guar_refl o w : cinv w -> guar o o w w.
Proof. intros Hw. split_and!; [by apply good_same|lia|done|by left]. Qed.

Lemma guar_get_db w : cinv w -> guar None (Some (next_conn w)) w (snd (get_db w)).
Proof.
  intros Hw. split_and!; [by apply good_get_db|simpl; lia| |right; simpl; split_and!; done || lia].
  intros c Hc _. by apply find_conn_get_db_old.
Qed.

(** A statement on connection [c] touches only [c]. *)
Lemma guar_own c w w' :
  good w w' -> next_conn w' = next_conn w ->
  (forall c', c' <> c -> find_conn c' w' = find_conn c' w) -> guar (Some c) (Some c) w w'.
Proof.
  intros Hg Hn Hf. split_and!; [done|lia| |by left].
  intros c' _ Hne. apply Hf. congruence.
Qed.

Lemma guar_commit c w : cinv w -> guar (Some c) (Some c) w (snd (commit c w)).
Proof.
  intros Hw. apply guar_own; [by apply good_commit| |intros; by apply find_conn_commit_ne].
  unfold commit. by destruct (find_conn c w) as [[? [d|]]|].
Qed.

Lemma guar_close c w : cinv w -> guar (Some c) (Some c) w (snd (close c w)).
Proof.
  intros Hw. apply guar_own; [by apply good_close|done|intros; by apply find_conn_close_ne].
Qed.

Lemma guar_execute_write c f w :
  (forall d d', f d = Ok d' -> keys_ok d -> keys_ok d' /\ grows d d') ->
  cinv w -> unlocked c w = true -> guar (Some c) (Some c) w (snd (execute_write c f w)).
Proof.
  intros Hf Hw Hu. apply guar_own; [by apply good_execute_write| |intros; by apply find_conn_execute_write_ne].
  unfold execute_write. by destruct (f (conn_view c w)).
Qed.

(** The step of another thread is a step the thread may rely on. *)
Lemma guar_rely o o' o2 w w' :
  guar o o' w w' -> (forall c, o2 = Some c -> (c < next_conn w)%nat /\ o <> Some c) -> rely o2 w w'.
Proof.
  intros ((Hc & Hg) & Hn & Hf & _) Ho. split_and!; [done..|].
  intros c Hc2. destruct (Ho c Hc2). by apply Hf.
Qed.

Lemma rely_clock o w t :
  cinv w -> rely o w (mk_world (store w) (conns w) (next_conn w) t).
Proof.
  intros Hw. split_and!; [by apply cinv_clock|reflexivity|done|].
  intros c _. by apply find_conn_conns.
Qed.

Lemma stable_True o : stable o (fun _ => True).
Proof. by intros w w' H. Qed.

Lemma stable_and o P R : stable o P -> stable o R -> stable o (fun w => P w /\ R w).
Proof. intros HP HR w w' [? ?] Hr. split; [by eapply HP|by eapply HR]. Qed.

(** An assertion about the committed rows alone, kept as they grow. *)
Lemma stable_store o (S : db -> Prop) :
  (forall d d', grows d d' -> S d -> S d') -> stable o (fun w => S (store w)).
Proof. intros HS w w' Hw (_ & Hg & _). by apply (HS (store w)). Qed.

(** The thread's own connection, as the others leave it. *)
Lemma stable_own c k : stable (Some c) (fun w => find_conn c w = Some k).
Proof. intros w w' Hw (_ & _ & _ & Hf). by rewrite Hf. Qed.

Lemma stable_owner o c : stable o (fun _ => o = Some c).
Proof. by intros w w' H. Qed.

(** ** Structural rules *)

Section Rules.
Context {A : Type}.
Implicit Types (Q : option nat -> outcome exn A -> world -> Prop) (t : thread A).

Lemma hoare_mono Q Q' o P P' t :
  hoare Q o P t -> (forall w, cinv w -> P' w -> P w) ->
  (forall o' r w, cinv w -> Q o' r w -> Q' o' r w) -> hoare Q' o P' t.
Proof.
  revert o P P'. induction t as [r|k IH u|c k IH u b IHb]; intros o P P' Ht HP HQ;
    inversion Ht as [? ? ? Hd|? ? ? ? Hs|? ? ? ? ? ? Hs Hb]; subst.
  - constructor. eauto.
  - constructor. intros w Hw HP'. destruct (Hs w Hw (HP w Hw HP')) as (o' & P'' & Hg & HP'' & Hst & Hk).
    exists o', P''. split_and!; [done..|]. eapply IH; eauto.
  - constructor; [|eapply IHb; eauto].
    intros w Hw HP' Hu. destruct (Hs w Hw (HP w Hw HP') Hu) as (o' & P'' & Hg & HP'' & Hst & Hk).
    exists o', P''. split_and!; [done..|]. eapply IH; eauto.
Qed.

Lemma hoare_False Q o t : hoare Q o (fun _ => False) t.
Proof.
  revert o. induction t as [r|k IH u|c k IH u b IHb]; intros o; constructor; try done.
Qed.

(** A fact the precondition implies may be assumed. *)
Lemma hoare_done_inv Q o P r w : hoare Q o P (Done r) -> cinv w -> P w -> Q o r w.
Proof. inversion 1 as [? ? ? Hd| |]; subst. eauto. Qed.

Lemma hoare_pre_intro Q o P t (φ : Prop) :
  (forall w, cinv w -> P w -> φ) -> (φ -> hoare Q o P t) -> hoare Q o P t.
Proof.
  revert o P. induction t as [r|k IH u|c k IH u b IHb]; intros o P Hφ Ht.
  - constructor. intros w Hw HP. specialize (Ht (Hφ w Hw HP)). by eapply hoare_done_inv.
  - constructor. intros w Hw HP. specialize (Ht (Hφ w Hw HP)).
    inversion Ht as [|? ? ? ? Hs|]; subst. eauto.
  - constructor.
    + intros w Hw HP. specialize (Ht (Hφ w Hw HP)). inversion Ht as [| |? ? ? ? ? ? Hs]; subst. eauto.
    + apply IHb; [done|]. intros Hp. specialize (Ht Hp). by inversion Ht.
Qed.

Lemma hoare_tstep Q o P t w w' t' :
  hoare Q o P t -> stable o P -> cinv w -> P w -> tstep w t w' t' ->
  exists o' P', guar o o' w w' /\ P' w' /\ stable o' P' /\ hoare Q o' P' t'.
Proof.
  intros Ht Hs Hw HP Hst.
  destruct Hst as [w k u|w c k u b Hu|w c k u b Hu];
    inversion Ht as [|? ? ? ? Hk|? ? ? ? ? ? Hk Hb]; subst; eauto.
  exists o, P. split_and!; [by apply guar_refl|done..].
Qed.
End Rules.

(** ** The program's composition *)

Lemma hoare_bind {A B} Q1 Q o P (t : thread A) (f : A -> thread B) :
  hoare Q1 o P t ->
  (forall o' a, hoare Q o' (Q1 o' (Ok a)) (f a)) ->
  (forall o' e w, cinv w -> Q1 o' (Raise e) w -> Q o' (Raise e) w) ->
  hoare Q o P (tbind t f).
Proof.
  intros Ht Hf He. revert o P Ht.
  induction t as [[a|e]|k IH u|c k IH u b IHb]; intros o P Ht; simpl;
    inversion Ht as [? ? ? Hd|? ? ? ? Hs|? ? ? ? ? ? Hs Hb]; subst.
  - eapply hoare_mono; [apply Hf|eauto|done].
  - constructor. eauto.
  - constructor. intros w Hw HP. destruct (Hs w Hw HP) as (o' & P' & ? & ? & ? & ?).
    exists o', P'. split_and!; eauto.
  - constructor; [|eauto]. intros w Hw HP Hu. destruct (Hs w Hw HP Hu) as (o' & P' & ? & ? & ? & ?).
    exists o', P'. split_and!; eauto.
Qed.

Lemma hoare_except {A} Q1 Q o P (t : thread A) (h : exn -> thread A) :
  hoare Q1 o P t ->
  (forall o' e, hoare Q o' (Q1 o' (Raise e)) (h e)) ->
  (forall o' a w, cinv w -> Q1 o' (Ok a) w -> Q o' (Ok a) w) ->
  hoare Q o P (texcept t h).
Proof.
  intros Ht Hh Ha. revert o P Ht.
  induction t as [[a|e]|k IH u|c k IH u b IHb]; intros o P Ht; simpl;
    inversion Ht as [? ? ? Hd|? ? ? ? Hs|? ? ? ? ? ? Hs Hb]; subst.
  - constructor. eauto.
  - eapply hoare_mono; [apply Hh|eauto|done].
  - constructor. intros w Hw HP. destruct (Hs w Hw HP) as (o' & P' & ? & ? & ? & ?).
    exists o', P'. split_and!; eauto.
  - constructor; [|eauto]. intros w Hw HP Hu. destruct (Hs w Hw HP Hu) as (o' & P' & ? & ? & ? & ?).
    exists o', P'. split_and!; eauto.
Qed.

(** The outcome of [try t finally f]: [t]'s, unless [f] raises. *)
Definition finally_post {A} (Q : option nat -> outcome exn A -> world -> Prop) (r : outcome exn A)
    (o : option nat) (r' : outcome exn unit) (w : world) : Prop :=
  match r' with Ok _ => Q o r w | Raise e => Q o (Raise e) w end.

Lemma hoare_finally {A} Q1 Q o P (t : thread A) (f : thread unit) :
  hoare Q1 o P t ->
  (forall o' r, hoare (finally_post Q r) o' (Q1 o' r) f) ->
  hoare Q o P (tfinally t f).
Proof.
  intros Ht Hf. revert o P Ht.
  induction t as [r|k IH u|c k IH u b IHb]; intros o P Ht; simpl;
    inversion Ht as [? ? ? Hd|? ? ? ? Hs|? ? ? ? ? ? Hs Hb]; subst.
  - eapply hoare_bind; [eapply hoare_mono; [apply Hf|eauto|done]| |done].
    intros o' a. constructor. done.
  - constructor. intros w Hw HP. destruct (Hs w Hw HP) as (o' & P' & ? & ? & ? & ?).
    exists o', P'. split_and!; eauto.
  - constructor; [|eauto]. intros w Hw HP Hu. destruct (Hs w Hw HP Hu) as (o' & P' & ? & ? & ? & ?).
    exists o', P'. split_and!; eauto.
Qed.

(** ** The statements of the handlers *)

(** A statement that reads nothing and changes nothing: a parameter
    binding, hashing, a fetch. *)
Definition pure_stmt {A} (m : Py A) (r : outcome exn A) : Prop := forall w, m w = (r, w).

Section Statements.
Context {A B : Type}.
Implicit Types (Q : option nat -> outcome exn B -> world -> Prop) (f : A -> thread B).

Lemma hoare_let_pure Q o P (m : Py A) r f :
  pure_stmt m r -> stable o P ->
  match r with
  | Ok a => hoare Q o P (f a)
  | Raise e => forall w, cinv w -> P w -> Q o (Raise e) w
  end ->
  hoare Q o P (tbind (atom m) f).
Proof.
  intros Hm HP Hr. constructor. intros w Hw HPw. exists o, P. rewrite (Hm w). simpl.
  split_and!; [by apply guar_refl|done|done|]. destruct r; [done|by constructor].
Qed.

Lemma hoare_let_read Q o P c (F : db -> outcome sql_error A) (R : A -> world -> Prop) f :
  o = Some c -> (forall a, stable o (R a)) ->
  (forall w a, cinv w -> P w -> F (conn_view c w) = Ok a -> R a w) ->
  (forall w e, cinv w -> P w -> Q o (Raise (SqliteError e)) w) -> stable o P ->
  (forall a, hoare Q o (R a) (f a)) ->
  hoare Q o P (tbind (atom (execute_read c F)) f).
Proof.
  intros -> HR HFR HQe HP Hf. constructor. intros w Hw HPw. unfold execute_read. simpl.
  destruct (F (conn_view c w)) as [a|e] eqn:E.
  - exists (Some c), (R a). split_and!; [by apply guar_refl|eauto|done|apply Hf].
  - exists (Some c), P. split_and!; [by apply guar_refl|done|done|]. constructor. eauto.
Qed.
End Statements.

Lemma hoare_let_get_db {B} Q P (f : nat -> thread B) :
  (forall o, stable o P) -> (forall w, P w -> P (snd (get_db w))) ->
  (forall a, hoare Q (Some a) (fun w => P w /\ find_conn a w = Some (mk_conn a None)) (f a)) ->
  hoare Q None P (tbind (atom get_db) f).
Proof.
  intros HPs HPg Hf. constructor. intros w Hw HP.
  exists (Some (next_conn w)), (fun w' => P w' /\ find_conn (next_conn w) w' = Some (mk_conn (next_conn w) None)).
  split_and!; [by apply guar_get_db|by apply HPg|apply find_conn_get_db_new, Hw|
               apply stable_and; [apply HPs|apply stable_own]|apply Hf].
Qed.

(** An INSERT on the thread's connection: on success the working copy
    is [R]'s, on an SQL error [Rerr]'s; it may also time out. *)
Lemma hoare_let_write {B} Q o P c F R (Rerr : sql_error -> world -> Prop) (f : unit -> thread B) :
  o = Some c -> (forall now d d', F now d = Ok d' -> keys_ok d -> keys_ok d' /\ grows d d') ->
  (forall w d', cinv w -> P w -> unlocked c w = true -> F (clock w) (conn_view c w) = Ok d' ->
     R (set_txn c (Some d') w)) ->
  (forall w e, cinv w -> P w -> F (clock w) (conn_view c w) = Raise e -> Rerr e w) ->
  (forall e w, cinv w -> Rerr e w -> Q o (Raise (SqliteError e)) w) ->
  (forall w, cinv w -> P w -> Q o (Raise database_locked) w) ->
  stable o R -> (forall e, stable o (Rerr e)) -> hoare Q o R (f tt) ->
  hoare Q o P (tbind (write c F) f).
Proof.
  intros -> HF HR HRe HQe HQl HRs HRes Hf. constructor; [|constructor; apply HQl].
  intros w Hw HP Hu. simpl.
  pose proof (guar_execute_write c (F (clock w)) w ltac:(eauto) Hw Hu) as Hg.
  unfold execute_write in Hg |- *. destruct (F (clock w) (conn_view c w)) as [d'|e] eqn:E; simpl in *.
  - exists (Some c), R. split_and!; eauto.
  - exists (Some c), (Rerr e). split_and!; eauto. constructor. eauto.
Qed.

Lemma hoare_let_commit {B} Q o P c R (f : unit -> thread B) :
  o = Some c -> (forall w, cinv w -> P w -> R (snd (commit c w))) -> stable o R ->
  hoare Q o R (f tt) -> hoare Q o P (tbind (atom (commit c)) f).
Proof.
  intros -> HR HRs Hf. constructor. intros w Hw HP. exists (Some c), R.
  split_and!; [by apply guar_commit|eauto|done|]. simpl. unfold commit.
  by destruct (find_conn c w) as [[? [d|]]|].
Qed.

Lemma hoare_commit Q o P c R :
  o = Some c -> (forall w, cinv w -> P w -> R (snd (commit c w))) -> stable o R ->
  (forall w, cinv w -> R w -> Q o (Ok tt) w) -> hoare Q o P (atom (commit c)).
Proof.
  intros -> HR HRs HQ. constructor. intros w Hw HP. exists (Some c), R.
  split_and!; [by apply guar_commit|eauto|done|]. constructor. unfold commit.
  by destruct (find_conn c w) as [[? [d|]]|].
Qed.

Lemma hoare_close (Q : option nat -> outcome exn unit -> world -> Prop) o P c R :
  o = Some c -> (forall w, cinv w -> P w -> R (snd (close c w))) -> stable o R ->
  (forall w, cinv w -> R w -> Q o (Ok tt) w) -> hoare Q o P (atom (close c)).
Proof.
  intros -> HR HRs HQ. constructor. intros w Hw HP. exists (Some c), R.
  split_and!; [by apply guar_close|eauto|done|]. by constructor.
Qed.

Lemma hoare_let_close {B} Q o P c R (f : unit -> thread B) :
  o = Some c -> (forall w, cinv w -> P w -> R (snd (close c w))) -> stable o R ->
  hoare Q o R (f tt) -> hoare Q o P (tbind (atom (close c)) f).
Proof.
  intros -> HR HRs Hf. constructor. intros w Hw HP. exists (Some c), R.
  split_and!; [by apply guar_close|eauto|done|done].
Qed.

Lemma hoare_ret {A} (Q : option nat -> outcome exn A -> world -> Prop) o P a :
  (forall w, cinv w -> P w -> Q o (Ok a) w) -> hoare Q o P (tret a).
Proof. apply hoare_done. Qed.

Lemma hoare_raise {A} (Q : option nat -> outcome exn A -> world -> Prop) o P e :
  (forall w, cinv w -> P w -> Q o (Raise e) w) -> hoare Q o P (traise e).
Proof. apply hoare_done. Qed.

(** ** Soundness over the pool *)

Lemma owners_insert_same gs i g g' :
  gs !! i = Some g -> g_owner g' = g_owner g -> owners (<[i := g']> gs) = owners gs.
Proof.
  unfold owners. revert i. induction gs as [|g0 gs IH]; intros [|i] Hi Ho; simplify_eq/=; [by rewrite Ho|].
  by rewrite IH.
Qed.

Lemma owners_insert_new gs i g g' n :
  gs !! i = Some g -> g_owner g = None -> g_owner g' = Some n ->
  owners (<[i := g']> gs) ≡ₚ n :: owners gs.
Proof.
  unfold owners. revert i. induction gs as [|g0 gs IH]; intros [|i] Hi Ho Ho'; simplify_eq/=.
  - by rewrite Ho, Ho'.
  - destruct (g_owner g0); [|by apply IH]. rewrite IH by done. by constructor.
Qed.

Lemma owners_insert_none gs i g' : g_owner g' = None -> owners (<[i := g']> gs) `sublist_of` owners gs.
Proof.
  unfold owners. revert i. induction gs as [|g0 gs IH]; intros [|i] Ho; simpl; [done|done| |].
  - rewrite Ho. destruct (g_owner g0); [apply sublist_cons|]; reflexivity.
  - destruct (g_owner g0); [apply sublist_skip|]; auto.
Qed.

Lemma owners_app_none gs g : g_owner g = None -> owners (gs ++ [g]) = owners gs.
Proof.
  unfold owners. intros Ho. rewrite omap_app. simpl. rewrite Ho. apply app_nil_r.
Qed.

Lemma owner_elem gs i g n : gs !! i = Some g -> g_owner g = Some n -> n ∈ owners gs.
Proof.
  unfold owners. revert i. induction gs as [|g0 gs IH]; intros [|i] Hi Ho; simplify_eq/=.
  - rewrite Ho. left.
  - destruct (g_owner g0); [right|]; eauto.
Qed.

(** Two threads never own the same connection. *)
Lemma owners_distinct gs i j g1 g2 n :
  NoDup (owners gs) -> gs !! i = Some g1 -> gs !! j = Some g2 -> i <> j ->
  g_owner g1 = Some n -> g_owner g2 <> Some n.
Proof.
  revert i j. induction gs as [|g0 gs IH]; intros [|i] [|j] Hnd H1 H2 Hij Ho1 Ho2;
    simplify_eq/=; try done; unfold owners in *; simpl in Hnd.
  - rewrite Ho1 in Hnd. apply NoDup_cons in Hnd as [Hn _]. apply Hn. by eapply owner_elem.
  - rewrite Ho2 in Hnd. apply NoDup_cons in Hnd as [Hn _]. apply Hn. by eapply owner_elem.
  - destruct (g_owner g0); [apply NoDup_cons in Hnd as [_ Hnd]|]; eapply IH; eauto.
Qed.

(** Whatever thread steps, every thread keeps its ghost: the one that
    stepped moves to its next assertion, the others' assertions survive. *)
Lemma pool_cstep gs c c' :
  pool_ok gs c -> cstep c c' -> exists gs', pool_ok gs' c' /\ g_post <$> gs' = g_post <$> gs.
Proof.
  intros (Hw & Hts & Hnd & Hlt) Hs. destruct Hs as [w ts i t w' t' Hi Hst]. simpl in *.
  destruct (Forall2_lookup_r _ _ _ _ _ Hts Hi) as (g & Hg & Hht & HP & HPs).
  destruct (hoare_tstep _ _ _ _ _ _ _ Hht HPs Hw HP Hst) as (o' & P' & Hgu & HP' & HPs' & Hk).
  pose proof Hgu as ((Hw' & _) & Hnn & _ & Ho').
  assert (i < length gs)%nat by (by eapply lookup_lt_Some).
  exists (<[i := mk_ghost o' P' (g_post g)]> gs). split; [split_and!|].
  - done.
  - apply Forall2_same_length_lookup. split; [simpl; rewrite !length_insert; eapply Forall2_length, Hts|].
    intros j g2 t2 Hj1 Hj2. simpl in Hj2. destruct (decide (j = i)) as [->|Hne].
    + rewrite list_lookup_insert_eq in Hj1 by done.
      rewrite list_lookup_insert_eq in Hj2 by (eapply lookup_lt_Some, Hi). simplify_eq. by split_and!.
    + rewrite list_lookup_insert_ne in Hj1 by congruence. rewrite list_lookup_insert_ne in Hj2 by congruence.
      destruct (Forall2_lookup_lr _ _ _ _ _ _ Hts Hj1 Hj2) as (Hh2 & HP2 & HPs2).
      split_and!; [done| |done]. eapply HPs2; [done|]. eapply guar_rely; [apply Hgu|].
      intros n Hn. split; [rewrite Forall_forall in Hlt; apply Hlt; by eapply owner_elem|].
      intros Hn'. by apply (owners_distinct gs i j g g2 n).
  - destruct Ho' as [Ho'|(Ho & -> & _)].
    + by rewrite (owners_insert_same gs i g) by done.
    + rewrite (owners_insert_new gs i g _ (next_conn w)) by done. constructor; [|done].
      intros Hin. rewrite Forall_forall in Hlt. specialize (Hlt _ Hin). lia.
  - destruct Ho' as [Ho'|(Ho & -> & Hlt')].
    + rewrite (owners_insert_same gs i g) by done. eapply Forall_impl; [apply Hlt|]. simpl. lia.
    + rewrite (owners_insert_new gs i g _ (next_conn w)) by done. constructor; [done|].
      eapply Forall_impl; [apply Hlt|]. simpl. lia.
  - rewrite list_fmap_insert. simpl. apply list_insert_id. by rewrite list_lookup_fmap, Hg.
Qed.

(** A new request's thread starts owning nothing. *)
Lemma pool_arrive gs w ts t Q :
  pool_ok gs (mk_cfg w ts) -> hoare Q None (fun _ => True) t ->
  pool_ok (gs ++ [mk_ghost None (fun _ => True) Q]) (mk_cfg w (ts ++ [t])).
Proof.
  intros (Hw & Hts & Hnd & Hlt) Ht. unfold pool_ok. cbn [cworld threads] in *.
  rewrite owners_app_none by done.
  split_and!; [done| |done..]. apply Forall2_app; [done|]. constructor; [|constructor].
  split_and!; [done|done|apply stable_True].
Qed.

Lemma pool_clock gs w ts t :
  pool_ok gs (mk_cfg w ts) -> pool_ok gs (mk_cfg (mk_world (store w) (conns w) (next_conn w) t) ts).
Proof.
  intros (Hw & Hts & Hnd & Hlt). simpl in *. split_and!; [by apply cinv_clock| |done..].
  eapply Forall2_impl; [apply Hts|]. intros g t' (Hh & HP & HPs). split_and!; [done| |done].
  eapply HPs; [done|]. by apply rely_clock.
Qed.

(** A thread that has not started may be given a stronger postcondition. *)
Lemma pool_retarget gs c i t Q :
  pool_ok gs c -> threads c !! i = Some t -> hoare Q None (fun _ => True) t ->
  pool_ok (<[i := mk_ghost None (fun _ => True) Q]> gs) c.
Proof.
  intros (Hw & Hts & Hnd & Hlt) Hi Ht. split_and!; [done| | |].
  - rewrite <- (list_insert_id (threads c) i t Hi). apply Forall2_insert; [done|].
    split_and!; [done|done|apply stable_True].
  - eapply sublist_NoDup; [apply Hnd|by apply owners_insert_none].
  - rewrite Forall_forall in Hlt |- *. intros n Hn. apply Hlt.
    pose proof (owners_insert_none gs i (mk_ghost None (fun _ => True) Q) eq_refl) as Hs.
    apply sublist_subseteq in Hs. by apply Hs.
Qed.

(** A finished thread's outcome satisfies its postcondition. *)
Lemma pool_done gs c i g r :
  pool_ok gs c -> gs !! i = Some g -> threads c !! i = Some (Done r) ->
  exists o, g_post g o r (cworld c).
Proof.
  intros (Hw & Hts & _) Hg Hi. destruct (Forall2_lookup_lr _ _ _ _ _ _ Hts Hg Hi) as (Hh & HP & _).
  exists (g_owner g). by eapply hoare_done_inv.
Qed.
