(* ===== verification/Committed.v ===== *)
(** * Committed: what the handlers achieve under any interleaving

    The handlers' threads of [Threads], run by the pool of [Concurrent],
    with the logic of [ThreadLogic].  First, every handler thread keeps
    the guarantee: from its [get_db] on, each statement touches only the
    connection it opened ([owned_by], proved statement by statement like
    [tsafe]).  So every reachable configuration carries a ghost per
    thread ([sreachable_pool]).  A thread of the pool can then be given
    its own postcondition ([thread_post]).

    The theorems say what a handler's answer means for the committed
    file, whatever the other requests did in between:
    - a registration answered 200 has its row, the name and the digest
      of the password, in the committed users table; one answered 400
      found the name already committed ([register_committed]);
    - a message answered "Message sent" is a committed row of the
      messages table ([send_message_committed]);
    - a login answered "Login successful" checked the digest of a
      committed row of the name ([login_committed]);
    - every message GET /messages returns is a committed row of the
      conversation ([get_messages_committed]).
    Since committed rows are never removed ([sstep_grows]), each fact
    holds in the state where the answer is read and in every later
    state. *)

From stdpp Require Import base list relations.
From Stdlib Require Import ZArith Lia Sorted.
From S2P Require Import Prelude Text Hasher Clock Store Handlers Service Threads Concurrent ThreadLogic.

Open Scope Z_scope.

(** ** Every handler touches only its own connection *)

(** [t] runs on connection [a], which it owns. *)
Definition owned_by {A} (a : nat) (t : thread A) : Prop :=
  hoare (fun o _ _ => o = Some a) (Some a) (fun _ => True) t.

Section Owned.
Context {A : Type}.
Variable a : nat.

Lemma owned_cont {B} (Q : option nat -> outcome exn B -> world -> Prop) o (t : thread B) :
  hoare Q (Some a) (fun _ => True) t -> hoare Q o (fun _ => o = Some a) t.
Proof.
  intros Ht. apply (hoare_pre_intro _ _ _ _ (o = Some a)); [done|intros ->].
  eapply hoare_mono; [apply Ht|by intros..].
Qed.

Lemma owned_bind {B} (t : thread A) (f : A -> thread B) :
  owned_by a t -> (forall x, owned_by a (f x)) -> owned_by a (tbind t f).
Proof. intros Ht Hf. eapply hoare_bind; [apply Ht| |by intros]. intros o x. apply owned_cont, Hf. Qed.

Lemma owned_except (t : thread A) h :
  owned_by a t -> (forall e, owned_by a (h e)) -> owned_by a (texcept t h).
Proof. intros Ht Hh. eapply hoare_except; [apply Ht| |by intros]. intros o e. apply owned_cont, Hh. Qed.

Lemma owned_finally (t : thread A) f : owned_by a t -> owned_by a f -> owned_by a (tfinally t f).
Proof.
  intros Ht Hf. eapply hoare_finally; [apply Ht|]. intros o r. apply owned_cont.
  eapply hoare_mono; [apply Hf|by intros|]. intros o' [] w _; done.
Qed.

Lemma owned_done r : owned_by a (Done (A:=A) r).
Proof. by constructor. Qed.

Lemma owned_pure (m : Py A) : (forall I, preserves I m) -> owned_by a (atom m).
Proof.
  intros Hm. constructor. intros w Hw _. exists (Some a), (fun _ => True).
  assert (snd (m w) = w) as -> by (apply (Hm (fun w' => w' = w)); done).
  split_and!; [by apply guar_refl|done|apply stable_True|by constructor].
Qed.
End Owned.

Lemma owned_commit a : owned_by a (atom (commit a)).
Proof.
  constructor. intros w Hw _. exists (Some a), (fun _ => True).
  split_and!; [by apply guar_commit|done|apply stable_True|by constructor].
Qed.

Lemma owned_close a : owned_by a (atom (close a)).
Proof.
  constructor. intros w Hw _. exists (Some a), (fun _ => True).
  split_and!; [by apply guar_close|done|apply stable_True|by constructor].
Qed.

Lemma owned_write a F :
  (forall now d d', F now d = Ok d' -> keys_ok d -> keys_ok d' /\ grows d d') -> owned_by a (write a F).
Proof.
  intros HF. constructor; [|by constructor]. intros w Hw _ Hu. exists (Some a), (fun _ => True).
  split_and!; [apply guar_execute_write; eauto|done|apply stable_True|by constructor].
Qed.

(** A handler: [get_db], then a thread on the connection it opened. *)
Lemma owned_get_db {B} (f : nat -> thread B) :
  (forall a, owned_by a (f a)) -> hoare (fun _ _ _ => True) None (fun _ => True) (tbind (atom get_db) f).
Proof.
  intros Hf. apply hoare_let_get_db; [intros o; apply stable_True|done|].
  intros a. eapply hoare_mono; [apply Hf|by intros..].
Qed.

Ltac owned_auto :=
  repeat (intros; first
    [ apply owned_bind | apply owned_except | apply owned_finally
    | apply owned_write; intros ? ? ?; first [apply insert_user_keys | apply insert_message_keys]
    | apply owned_commit | apply owned_close
    | apply owned_pure; intros;
      first [ apply preserves_bind_param | apply preserves_hash_password_h | apply preserves_fetch_text
            | apply preserves_fetch_texts | apply preserves_fetch_messages | apply preserves_execute_read ]
    | apply owned_done
    | case_match ]).

Section Pool.
Context `{Sha256}.

Lemma hoare_dispatch_t req : hoare (fun _ _ _ => True) None (fun _ => True) (dispatch_t req).
Proof.
  destruct req; simpl;
    [unfold register_t|unfold login_t|unfold get_users_t|unfold send_message_t|unfold get_messages_t];
    apply owned_get_db; owned_auto.
Qed.

(** ** Every reachable configuration carries its ghosts *)

Lemma sreachable_pool c : sreachable c -> exists gs, pool_ok gs c.
Proof.
  induction 1 as [t0|c c' _ [gs Hgs] Hs].
  - exists []. split_and!; [apply cinv_boot|constructor|constructor|constructor].
  - destruct Hs as [c c' Hc|w ts req Hv|w ts t].
    + destruct (pool_cstep gs c c' Hgs Hc) as [gs' [? _]]. by exists gs'.
    + eexists. apply pool_arrive; [done|apply hoare_dispatch_t].
    + exists gs. by apply pool_clock.
Qed.

Lemma pool_sstep gs c c' :
  pool_ok gs c -> sstep c c' -> exists gs', pool_ok gs' c' /\ (g_post <$> gs) `prefix_of` (g_post <$> gs').
Proof.
  intros Hgs Hs. destruct Hs as [c c' Hc|w ts req Hv|w ts t].
  - destruct (pool_cstep gs c c' Hgs Hc) as (gs' & ? & Heq). exists gs'. by rewrite Heq.
  - eexists. split; [apply pool_arrive; [done|apply hoare_dispatch_t]|]. rewrite fmap_app.
    by apply prefix_app_r.
  - exists gs. split; [by apply pool_clock|done].
Qed.

Lemma pool_rtc gs c c' :
  pool_ok gs c -> rtc sstep c c' -> exists gs', pool_ok gs' c' /\ (g_post <$> gs) `prefix_of` (g_post <$> gs').
Proof.
  intros Hgs Hr. revert gs Hgs. induction Hr as [c|c1 c2 c3 Hs _ IH]; intros gs Hgs; [by exists gs|].
  destruct (pool_sstep gs c1 c2 Hgs Hs) as (gs2 & Hgs2 & Hp2). destruct (IH gs2 Hgs2) as (gs3 & ? & Hp3).
  exists gs3. split; [done|by etrans].
Qed.

(** A thread of a reachable configuration that has not started: when it
    has answered, however long after, its answer satisfies the
    postcondition of a triple proved for it alone. *)
Lemma thread_post c c' i t Q r :
  sreachable c -> threads c !! i = Some t -> hoare Q None (fun _ => True) t ->
  rtc sstep c c' -> threads c' !! i = Some (Done r) -> exists o, Q o r (cworld c').
Proof.
  intros Hc Hi Ht Hr Hd. destruct (sreachable_pool c Hc) as [gs Hgs].
  pose proof (pool_retarget gs c i t Q Hgs Hi Ht) as Hgs1.
  destruct (pool_rtc _ c c' Hgs1 Hr) as (gs' & Hgs' & Hp).
  destruct Hgs as (_ & Hts & _). assert (i < length gs)%nat as Hlt.
  { rewrite (Forall2_length _ _ _ Hts). by eapply lookup_lt_Some. }
  assert ((g_post <$> <[i := mk_ghost None (fun _ => True) Q]> gs) !! i = Some Q) as Hq.
  { by rewrite list_lookup_fmap, list_lookup_insert_eq. }
  pose proof (prefix_lookup_Some _ _ _ _ Hq Hp) as Hq'.
  apply list_lookup_fmap_Some in Hq' as (g & Hg & Hpost). subst Q.
  by eapply pool_done.
Qed.
End Pool.

(** ** Facts about the committed file, kept as it grows *)

Lemma users_grows d d' us :
  grows d d' -> users d = Some us -> exists us', users d' = Some us' /\ us `prefix_of` us'.
Proof. intros (Hu & _ & _) E. rewrite E in Hu. destruct (users d') as [us'|]; [by exists us'|done]. Qed.

Lemma messages_grows d d' ms :
  grows d d' -> messages d = Some ms -> exists ms', messages d' = Some ms' /\ ms `prefix_of` ms'.
Proof. intros (_ & Hm & _) E. rewrite E in Hm. destruct (messages d') as [ms'|]; [by exists ms'|done]. Qed.

Lemma elem_of_prefix {A} (x : A) l1 l2 : x ∈ l1 -> l1 `prefix_of` l2 -> x ∈ l2.
Proof. intros Hx [k ->]. apply elem_of_app. by left. Qed.

(** The user row [(nb, hb)] is committed in [d]. *)
Definition has_user (nb hb : list Z) (d : db) : Prop :=
  exists us, users d = Some us /\ mk_user_row nb hb ∈ us.

(** Some committed user row has the name [nb]. *)
Definition name_in (nb : list Z) (d : db) : Prop :=
  exists us, users d = Some us /\ nb ∈ map username us.

Lemma has_user_grows nb hb d d' : grows d d' -> has_user nb hb d -> has_user nb hb d'.
Proof.
  intros Hg (us & E & Hin). destruct (users_grows _ _ _ Hg E) as (us' & E' & Hp).
  exists us'. split; [done|by eapply elem_of_prefix].
Qed.

Lemma name_in_grows nb d d' : grows d d' -> name_in nb d -> name_in nb d'.
Proof.
  intros Hg (us & E & Hin). destruct (users_grows _ _ _ Hg E) as (us' & E' & Hp).
  exists us'. split; [done|]. apply elem_of_map_iff in Hin as (r & -> & Hr).
  apply elem_of_map_iff. exists r. split; [done|by eapply elem_of_prefix].
Qed.

Lemma insert_user_has_user d nb hb d' : insert_user d nb hb = Ok d' -> has_user nb hb d'.
Proof.
  unfold insert_user. destruct (users d) as [us|]; [|done]. case_bool_decide; [done|].
  intros [= <-]. eexists. split; [done|]. apply elem_of_app. right. by left.
Qed.

Lemma insert_user_integrity d nb hb m :
  insert_user d nb hb = Raise (IntegrityError m) -> name_in nb d.
Proof.
  unfold insert_user. destruct (users d) as [us|] eqn:E; [|done]. case_bool_decide; [|done].
  intros _. by exists us.
Qed.

(** ** The thread's own connection *)

Lemma conn_view_own a w : find_conn a w = Some (mk_conn a None) -> conn_view a w = store w.
Proof. unfold conn_view. by intros ->. Qed.

Lemma commit_own a d w : find_conn a w = Some (mk_conn a (Some d)) -> store (snd (commit a w)) = d.
Proof. unfold commit. by intros ->. Qed.

Lemma pure_bind_param s :
  pure_stmt (bind_param s) (match utf8_encode s with Some bs => Ok bs | None => Raise UnicodeEncodeError end).
Proof. intros w. unfold bind_param. by destruct (utf8_encode s). Qed.

Lemma pure_hash_password_h `{Sha256} pw :
  pure_stmt (hash_password_h pw) (match hash_password pw with Some h => Ok h | None => Raise UnicodeEncodeError end).
Proof. intros w. unfold hash_password_h. by destruct (hash_password pw). Qed.

Lemma pure_fetch_text bs :
  pure_stmt (fetch_text bs)
    (match utf8_decode bs with
     | Some s => Ok s
     | None => Raise (SqliteError (OperationalError "Could not decode to UTF-8 column"))
     end).
Proof. intros w. unfold fetch_text. by destruct (utf8_decode bs). Qed.

(** The working copy of connection [a] satisfies [S]. *)
Definition txn_holds (a : nat) (S : db -> Prop) (w : world) : Prop :=
  exists d, find_conn a w = Some (mk_conn a (Some d)) /\ S d.

Lemma stable_txn_holds a S : stable (Some a) (txn_holds a S).
Proof. intros w w' (d & E & HS) (_ & _ & _ & Hf). exists d. by rewrite Hf. Qed.

Lemma stable_fresh a : stable (Some a) (fun w => True /\ find_conn a w = Some (mk_conn a None)).
Proof. apply stable_and; [apply stable_True|apply stable_own]. Qed.

(** ** Registration *)

Section Register.
Context `{Sha256}.
Variable u : UserCreate.

(** The row a registration of [u] inserts: the encoded name and the
    encoded digest of the password. *)
Definition reg_row (d : db) : Prop :=
  exists nb h hb, utf8_encode (uc_username u) = Some nb /\ hash_password (uc_password u) = Some h /\
    utf8_encode h = Some hb /\ has_user nb hb d.

(** The name [u] registers is taken in [d]. *)
Definition reg_taken (d : db) : Prop :=
  exists nb, utf8_encode (uc_username u) = Some nb /\ name_in nb d.

Definition register_post (o : option nat) (r : outcome exn response) (w : world) : Prop :=
  (r = Ok (RMessage "User registered") -> reg_row (store w)) /\
  (forall m, r = Raise (HTTPException 400 m) -> reg_taken (store w)).

(** After [try ... except ...], and after the [finally]. *)
Definition reg_try_post (a : nat) (o : option nat) (r : outcome exn unit) (w : world) : Prop :=
  o = Some a /\ (r = Ok tt -> reg_row (store w)) /\
  (forall m, r = Raise (HTTPException 400 m) -> reg_taken (store w)).

(** After the INSERT and the commit, before [except]. *)
Definition reg_body_post (a : nat) (o : option nat) (r : outcome exn unit) (w : world) : Prop :=
  o = Some a /\ (r = Ok tt -> reg_row (store w)) /\
  (forall m, r = Raise (SqliteError (IntegrityError m)) -> reg_taken (store w)) /\
  (forall s m, r <> Raise (HTTPException s m)).

Lemma reg_row_grows d d' : grows d d' -> reg_row d -> reg_row d'.
Proof. intros Hg (nb & h & hb & ? & ? & ? & Hu). exists nb, h, hb. split_and!; eauto using has_user_grows. Qed.

Lemma reg_taken_grows d d' : grows d d' -> reg_taken d -> reg_taken d'.
Proof. intros Hg (nb & ? & Hn). exists nb. split; eauto using name_in_grows. Qed.

Lemma stable_reg_try_post a o o' r : stable o (reg_try_post a o' r).
Proof.
  intros w w' (Ho & Hok & H4) (_ & Hg & _). split_and!; [done| |].
  - intros Hr. eapply reg_row_grows; eauto.
  - intros m Hr. eapply reg_taken_grows; eauto.
Qed.

End Register.

(** The triple of [register_t], statement by statement. *)
Ltac register_t_spec u :=
  unfold register_t; apply hoare_let_get_db; [intros ?; apply stable_True|done|]; intros a;
  apply (hoare_bind (reg_try_post u a));
  [ | intros o' x; apply hoare_ret; intros w _ (-> & Hok & _); destruct x;
      split; [intros _; by apply Hok|done]
    | intros o' e w _ (_ & _ & H4); split; [done|]; intros m [= ->]; by eapply H4 ];
  apply (hoare_finally (reg_try_post u a));
  [ | intros o' r0; apply (hoare_pre_intro _ _ _ _ (o' = Some a)); [by intros ? ? [? _]|intros ->];
      apply (hoare_close _ _ _ a (reg_try_post u a (Some a) r0)); [done|done|apply stable_reg_try_post|];
      by intros w _ ? ];
  apply (hoare_except (reg_body_post u a));
  [ | intros o' e; destruct e as [[m|m]| |s m]; apply hoare_raise;
      intros w _ (-> & _ & Hint & Hh);
      [ split_and!; [done|done|]; intros m' _; by eapply Hint
      | split_and!; [done|done|]; by intros m' [=]
      | split_and!; [done|done|]; by intros m' [=]
      | by destruct (Hh s m) ]
    | intros o' x w _ (-> & Hok & _); split_and!; [done|done|by intros ? ?] ];
  eapply hoare_let_pure; [apply pure_hash_password_h|apply stable_fresh|];
  destruct (hash_password (uc_password u)) as [h|] eqn:Eh; [|by intros w _ _];
  eapply hoare_let_pure; [apply pure_bind_param|apply stable_fresh|];
  destruct (utf8_encode (uc_username u)) as [nb|] eqn:Enb; [|by intros w _ _];
  eapply hoare_let_pure; [apply pure_bind_param|apply stable_fresh|];
  destruct (utf8_encode h) as [hb|] eqn:Ehb; [|by intros w _ _];
  apply (hoare_let_write _ _ _ a _ (txn_holds a (has_user nb hb))
           (fun e w => forall m, e = IntegrityError m -> reg_taken u (store w)));
  [ done
  | intros ? ? ?; apply insert_user_keys
  | intros w d' _ [_ Hf] _ Hi; exists d'; split; [by eapply find_conn_set_txn_eq|];
    by eapply insert_user_has_user
  | intros w e _ [_ Hf] Hi m ->; rewrite conn_view_own in Hi by done;
    exists nb; split; [done|]; by eapply insert_user_integrity
  | intros e w _ Hint; split_and!; [done|done| |done]; intros m [= ->]; by apply (Hint m)
  | intros w _ _; split_and!; done
  | apply stable_txn_holds
  | intros e w w' Hint Hr m ->; eapply reg_taken_grows; [apply Hr|by apply (Hint m)]
  | apply (hoare_commit _ _ _ a (fun w => reg_row u (store w)));
    [ done
    | intros w _ (d & Hf & Hu); rewrite (commit_own a d w Hf); by exists nb, h, hb
    | apply stable_store, reg_row_grows
    | intros w _ Hr; by split_and! ] ].

Section RegisterCommitted.
Context `{Sha256}.

(** C12. Under any interleaving with other requests and clock changes, a
    registration thread of the server that has answered 200 "User
    registered" has its row (the encoded name and the encoded hex digest
    of the password) in the committed users table; one that has answered
    400 "Username already exists" saw the name already committed.  Either
    fact holds in the state where the answer is read. *)
Theorem register_committed c c' i u r :
  sreachable c -> threads c !! i = Some (dispatch_t (PostRegister u)) -> rtc sstep c c' ->
  threads c' !! i = Some (Done r) ->
  (r = Ok (RMessage "User registered") -> reg_row u (store (cworld c'))) /\
  (forall m, r = Raise (HTTPException 400 m) -> reg_taken u (store (cworld c'))).
Proof.
  assert (hoare (register_post u) None (fun _ => True) (register_t u)) as Hs by register_t_spec u.
  intros Hc Hi Hr Hd.
  by destruct (thread_post c c' i _ _ r Hc Hi Hs Hr Hd) as [o Hp].
Qed.
End RegisterCommitted.

(** ** Sending a message *)

(** Some committed message row has these sender, receiver and text. *)
Definition has_message (s r t : list Z) (d : db) : Prop :=
  exists ms m, messages d = Some ms /\ m ∈ ms /\ sender m = s /\ receiver m = r /\ text m = t.

Lemma has_message_grows s r t d d' : grows d d' -> has_message s r t d -> has_message s r t d'.
Proof.
  intros Hg (ms & m & E & Hin & ? & ? & ?). destruct (messages_grows _ _ _ Hg E) as (ms' & E' & Hp).
  exists ms', m. split_and!; [done|by eapply elem_of_prefix|done..].
Qed.

Lemma insert_message_has_message d now s r t d' :
  insert_message d now s r t = Ok d' -> has_message s r t d'.
Proof.
  unfold insert_message. destruct (messages d) as [ms|]; [|done]. case_match; [by intros|].
  intros [= <-]. eexists _, (mk_message_row _ s r t now). split_and!; [reflexivity| |done..].
  apply elem_of_app. right. by left.
Qed.

(** The message [msg] asks to send is committed in [d]. *)
Definition sent_row (msg : MessageCreate) (d : db) : Prop :=
  exists s r t, utf8_encode (mc_sender msg) = Some s /\ utf8_encode (mc_receiver msg) = Some r /\
    utf8_encode (mc_text msg) = Some t /\ has_message s r t d.

Lemma sent_row_grows msg d d' : grows d d' -> sent_row msg d -> sent_row msg d'.
Proof. intros Hg (s & r & t & ? & ? & ? & Hm). exists s, r, t. split_and!; eauto using has_message_grows. Qed.

Definition send_post (msg : MessageCreate) (o : option nat) (r : outcome exn response) (w : world) : Prop :=
  r = Ok (RMessage "Message sent") -> sent_row msg (store w).

Ltac send_message_t_spec msg :=
  unfold send_message_t; apply hoare_let_get_db; [intros ?; apply stable_True|done|]; intros a;
  eapply hoare_let_pure; [apply pure_bind_param|apply stable_fresh|];
  destruct (utf8_encode (mc_sender msg)) as [s|] eqn:Es; [|by intros w _ _];
  eapply hoare_let_pure; [apply pure_bind_param|apply stable_fresh|];
  destruct (utf8_encode (mc_receiver msg)) as [rc|] eqn:Er; [|by intros w _ _];
  eapply hoare_let_pure; [apply pure_bind_param|apply stable_fresh|];
  destruct (utf8_encode (mc_text msg)) as [t|] eqn:Et; [|by intros w _ _];
  apply (hoare_let_write _ _ _ a _ (txn_holds a (has_message s rc t)) (fun _ _ => True));
  [ done
  | intros ? ? ?; apply insert_message_keys
  | intros w d' _ [_ Hf] _ Hi; exists d'; split; [by eapply find_conn_set_txn_eq|];
    by eapply insert_message_has_message
  | done | by intros ? ? ? ? | by intros ? ? ? ? | apply stable_txn_holds | by intros ? ? ? ? ? |];
  apply (hoare_let_commit _ _ _ a (fun w => sent_row msg (store w)));
  [ done
  | intros w _ (d & Hf & Hm); rewrite (commit_own a d w Hf); by exists s, rc, t
  | apply stable_store; intros ? ?; apply sent_row_grows |];
  apply (hoare_let_close _ _ _ a (fun w => sent_row msg (store w)));
  [ done | by intros w _ ? | apply stable_store; intros ? ?; apply sent_row_grows |];
  apply hoare_ret; by intros w _ ? _.

Section SendCommitted.
Context `{Sha256}.

(** C13. Under any interleaving with other requests and clock changes, a
    send_message thread of the server that has answered "Message sent"
    has its message (the encoded sender, receiver and text) in the
    committed messages table. *)
Theorem send_message_committed c c' i msg r :
  sreachable c -> threads c !! i = Some (dispatch_t (PostSend msg)) -> rtc sstep c c' ->
  threads c' !! i = Some (Done r) ->
  r = Ok (RMessage "Message sent") -> sent_row msg (store (cworld c')).
Proof.
  assert (hoare (send_post msg) None (fun _ => True) (send_message_t msg)) as Hs
    by send_message_t_spec msg.
  intros Hc Hi Hr Hd. by destruct (thread_post c c' i _ _ r Hc Hi Hs Hr Hd) as [o Hp].
Qed.
End SendCommitted.

(** ** Logging in *)

(** Some committed user row has the name [nb] and a digest column [P]
    holds of. *)
Definition user_with (nb : list Z) (P : list Z -> Prop) (d : db) : Prop :=
  exists us r, users d = Some us /\ r ∈ us /\ username r = nb /\ P (password_hash r).

Lemma user_with_grows nb P d d' : grows d d' -> user_with nb P d -> user_with nb P d'.
Proof.
  intros Hg (us & r & E & Hin & Hn & HP). destruct (users_grows _ _ _ Hg E) as (us' & E' & Hp).
  exists us', r. split_and!; [done|by eapply elem_of_prefix|done..].
Qed.

Lemma stable_user_with o nb P : stable o (fun w => user_with nb P (store w)).
Proof. apply stable_store. intros ? ?. apply user_with_grows. Qed.

Lemma select_password_hash_some d nb bs :
  select_password_hash d nb = Ok (Some bs) -> user_with nb (fun b => b = bs) d.
Proof.
  unfold select_password_hash. destruct (users d) as [us|] eqn:E; [|done]. intros [= Hh].
  destruct (head (filter (fun r => username r = nb) us)) as [r|] eqn:Eh; [|done]. simplify_eq/=.
  apply head_Some_elem_of, list_elem_of_filter in Eh as [Hn Hin]. by exists us, r.
Qed.

(** A committed row of the name whose digest column decodes to the
    digest of the password [ul] gives. *)
Definition login_row `{Sha256} (ul : UserLogin) (d : db) : Prop :=
  exists nb h, utf8_encode (ul_username ul) = Some nb /\ hash_password (ul_password ul) = Some h /\
    user_with nb (fun b => utf8_decode b = Some h) d.

Definition login_post `{Sha256} (ul : UserLogin) (o : option nat) (r : outcome exn response) (w : world) : Prop :=
  r = Ok (RMessage "Login successful") -> login_row ul (store w).

(** After the row is fetched: [Some s] is the decoded digest column of a
    committed row of the name. *)
Definition login_fetch_post (a : nat) (nb : list Z) (o : option nat) (r : outcome exn (option pystr))
    (w : world) : Prop :=
  o = Some a /\ forall s, r = Ok (Some s) -> user_with nb (fun b => utf8_decode b = Some s) (store w).

Lemma stable_login_fetch_post a nb o o' r : stable o (login_fetch_post a nb o' r).
Proof.
  intros w w' [Ho Hs] (_ & Hg & _). split; [done|]. intros s Hr. eapply user_with_grows; eauto.
Qed.

Ltac login_t_spec ul :=
  unfold login_t; apply hoare_let_get_db; [intros ?; apply stable_True|done|]; intros a;
  eapply hoare_let_pure; [apply pure_bind_param|apply stable_fresh|];
  destruct (utf8_encode (ul_username ul)) as [nb|] eqn:Enb; [|by intros w _ _ [=]];
  apply (hoare_let_read _ _ _ a _
    (fun row w => match row with Some bs => user_with nb (fun b => b = bs) (store w) | None => True end));
  [ done
  | intros [bs|]; [apply stable_user_with|apply stable_True]
  | intros w [bs|] _ [_ Hf] Hs; rewrite conn_view_own in Hs by done; [by apply select_password_hash_some|done]
  | by intros w e _ _ [=]
  | apply stable_fresh |];
  intros row; apply (hoare_bind (login_fetch_post a nb));
  [ destruct row as [bs|];
    [ eapply hoare_let_pure; [apply pure_fetch_text|apply stable_user_with|];
      destruct (utf8_decode bs) as [s|] eqn:Ed;
      [ apply hoare_ret; intros w _ (us & r' & E & Hin & Hn & Hb); split; [done|];
        intros s' [= <-]; exists us, r'; split_and!; [done..|by rewrite Hb]
      | intros w _ _; split; [done|by intros ? [=]] ]
    | apply hoare_ret; intros w _ _; split; [done|by intros ? [=]] ]
  | intros o' x; apply (hoare_pre_intro _ _ _ _ (o' = Some a)); [by intros ? ? [? _]|intros ->];
    apply (hoare_let_close _ _ _ a (login_fetch_post a nb (Some a) (Ok x)));
    [ done | by intros w _ ? | apply stable_login_fetch_post |];
    destruct x as [stored|]; [|apply hoare_raise; by intros ? ? ? [=]];
    eapply hoare_let_pure; [apply pure_hash_password_h|apply stable_login_fetch_post|];
    destruct (hash_password (ul_password ul)) as [h|] eqn:Eh; [|by intros w _ _ [=]];
    destruct (decide (stored = h)) as [->|Hne];
    [ apply hoare_ret; intros w _ [_ Hu] _; exists nb, h; split_and!; [done|done|by apply Hu]
    | apply hoare_raise; by intros ? ? ? [=] ]
  | by intros o' e w _ _ [=] ].

Section LoginCommitted.
Context `{Sha256}.

(** C14. Under any interleaving with other requests and clock changes, a
    login thread of the server that has answered "Login successful" read
    a committed row: the committed users table has a row with the
    encoded name whose digest column decodes to the hex digest of the
    password.  No login succeeds on a row another request has not
    committed. *)
Theorem login_committed c c' i ul r :
  sreachable c -> threads c !! i = Some (dispatch_t (PostLogin ul)) -> rtc sstep c c' ->
  threads c' !! i = Some (Done r) ->
  r = Ok (RMessage "Login successful") -> login_row ul (store (cworld c')).
Proof.
  assert (hoare (login_post ul) None (fun _ => True) (login_t ul)) as Hs by login_t_spec ul.
  intros Hc Hi Hr Hd. by destruct (thread_post c c' i _ _ r Hc Hi Hs Hr Hd) as [o Hp].
Qed.
End LoginCommitted.

(** ** Reading a conversation *)

(** A statement that reads the world but does not change it. *)
Lemma hoare_let_local {A B} (Q : option nat -> outcome exn B -> world -> Prop) o P (m : Py A)
    (R : A -> world -> Prop) (f : A -> thread B) :
  (forall w, snd (m w) = w) -> (forall a, stable o (R a)) ->
  (forall w a, cinv w -> P w -> fst (m w) = Ok a -> R a w) ->
  (forall w e, cinv w -> P w -> Q o (Raise e) w) -> stable o P ->
  (forall a, hoare Q o (R a) (f a)) ->
  hoare Q o P (tbind (atom m) f).
Proof.
  intros Hm HR HFR HQe HP Hf. constructor. intros w Hw HPw. simpl. rewrite (Hm w).
  destruct (fst (m w)) as [a|e] eqn:E.
  - exists o, (R a). split_and!; [by apply guar_refl|eauto|done|apply Hf].
  - exists o, P. split_and!; [by apply guar_refl|done|done|]. constructor. eauto.
Qed.

(** The [Message] [fetch_message] builds from a row: its id, and its
    texts as the strict decoder reads them. *)
Definition row_read (m : Message) (r : message_row) : Prop :=
  msg_id m = id r /\ utf8_decode (sender r) = Some (msg_sender m) /\
  utf8_decode (receiver r) = Some (msg_receiver m) /\ utf8_decode (text r) = Some (msg_text m) /\
  utf8_decode (timestamp r) = Some (msg_timestamp m).

Lemma fetch_message_read r w m w' : fetch_message r w = (Ok m, w') -> row_read m r.
Proof.
  unfold fetch_message, bind, fetch_text.
  destruct (utf8_decode (sender r)) eqn:E1, (utf8_decode (receiver r)) eqn:E2,
    (utf8_decode (text r)) eqn:E3, (utf8_decode (timestamp r)) eqn:E4; simpl; intros [= <- _]; done.
Qed.

Lemma fetch_messages_read l w ms w' : fetch_messages l w = (Ok ms, w') -> Forall2 row_read ms l.
Proof.
  revert w ms w'. induction l as [|r l IH]; simpl; intros w ms w'.
  - intros [= <- _]. constructor.
  - unfold bind. destruct (fetch_message r w) as [[m|e] w1] eqn:E1; [|done].
    destruct (fetch_messages l w1) as [[ms1|e] w2] eqn:E2; [|done]. intros [= <- _].
    constructor; [by eapply fetch_message_read|by eapply IH].
Qed.

Lemma fetch_messages_same l w : snd (fetch_messages l w) = w.
Proof. apply (preserves_fetch_messages (fun w' => w' = w)). done. Qed.

(** Each message of [res] is read from a committed row of the
    conversation of [b1] and [b2]. *)
Definition conversation_read (b1 b2 : list Z) (res : list Message) (d : db) : Prop :=
  exists ms, messages d = Some ms /\
    Forall (fun m => exists r, r ∈ ms /\ conversation b1 b2 r /\ row_read m r) res.

Lemma conversation_read_grows b1 b2 res d d' :
  grows d d' -> conversation_read b1 b2 res d -> conversation_read b1 b2 res d'.
Proof.
  intros Hg (ms & E & Hf). destruct (messages_grows _ _ _ Hg E) as (ms' & E' & Hp).
  exists ms'. split; [done|]. eapply Forall_impl; [apply Hf|].
  intros m (r & Hr & Hc & Hm). exists r. split_and!; [by eapply elem_of_prefix|done..].
Qed.

(** The rows the query returned are committed rows of the conversation. *)
Definition rows_of (b1 b2 : list Z) (rows : list message_row) (d : db) : Prop :=
  exists ms, messages d = Some ms /\ Forall (fun r => r ∈ ms /\ conversation b1 b2 r) rows.

Lemma rows_of_grows b1 b2 rows d d' : grows d d' -> rows_of b1 b2 rows d -> rows_of b1 b2 rows d'.
Proof.
  intros Hg (ms & E & Hf). destruct (messages_grows _ _ _ Hg E) as (ms' & E' & Hp).
  exists ms'. split; [done|]. eapply Forall_impl; [apply Hf|]. intros r [Hr Hc]. split; [by eapply elem_of_prefix|done].
Qed.

Lemma select_messages_rows d b1 b2 rows : select_messages d b1 b2 = Ok rows -> rows_of b1 b2 rows d.
Proof.
  unfold select_messages. destruct (messages d) as [ms|] eqn:E; [|done]. intros [= <-].
  exists ms. split; [done|]. apply Forall_forall. intros r Hr.
  rewrite (sort_by_perm timestamp_leb), list_elem_of_filter in Hr. tauto.
Qed.

Lemma conversation_read_rows b1 b2 rows res d :
  rows_of b1 b2 rows d -> Forall2 row_read res rows -> conversation_read b1 b2 res d.
Proof.
  intros (ms & E & Hrows) Hread. exists ms. split; [done|].
  induction Hread as [|m r res rows Hmr _ IH]; [constructor|].
  apply Forall_cons in Hrows as [[Hr Hc] Hrows]. constructor; [by exists r|by apply IH].
Qed.

Definition get_messages_post (u1 u2 : pystr) (o : option nat) (r : outcome exn response) (w : world) : Prop :=
  forall res, r = Ok (RMessages res) -> exists b1 b2,
    utf8_encode u1 = Some b1 /\ utf8_encode u2 = Some b2 /\ conversation_read b1 b2 res (store w).

Ltac get_messages_t_spec u1 u2 :=
  unfold get_messages_t; apply hoare_let_get_db; [intros ?; apply stable_True|done|]; intros a;
  eapply hoare_let_pure; [apply pure_bind_param|apply stable_fresh|];
  destruct (utf8_encode u1) as [b1|] eqn:E1; [|by intros w _ _ ? [=]];
  eapply hoare_let_pure; [apply pure_bind_param|apply stable_fresh|];
  destruct (utf8_encode u2) as [b2|] eqn:E2; [|by intros w _ _ ? [=]];
  apply (hoare_let_read _ _ _ a _ (fun rows w => rows_of b1 b2 rows (store w)));
  [ done
  | intros rows; apply stable_store; intros ? ?; apply rows_of_grows
  | intros w rows _ [_ Hf] Hs; rewrite conn_view_own in Hs by done; by apply select_messages_rows
  | by intros w e _ _ ? [=]
  | apply stable_fresh |];
  intros rows;
  apply (hoare_let_local _ _ _ _ (fun msgs w => conversation_read b1 b2 msgs (store w)));
  [ apply fetch_messages_same
  | intros msgs; apply stable_store; intros ? ?; apply conversation_read_grows
  | intros w msgs _ Hrows Hm; apply (conversation_read_rows _ _ rows); [done|];
    apply (fetch_messages_read rows w msgs (snd (fetch_messages rows w)));
    by rewrite <- Hm, <- surjective_pairing
  | by intros w e _ _ ? [=]
  | apply stable_store; intros ? ?; apply rows_of_grows |];
  intros msgs;
  apply (hoare_let_close _ _ _ a (fun w => conversation_read b1 b2 msgs (store w)));
  [ done | by intros w _ ? | apply stable_store; intros ? ?; apply conversation_read_grows |];
  apply hoare_ret; intros w _ Hc msgs0 [= <-]; by exists b1, b2.

Section GetMessagesCommitted.
Context `{Sha256}.

(** C15. Under any interleaving with other requests and clock changes, a
    GET /messages thread of the server that has answered with a list of
    messages read each of them from a committed row of the conversation:
    the row's sender and receiver are the two encoded users (in either
    direction), and the message carries the row's id and its decoded
    texts.  No uncommitted row of a concurrent send is ever returned. *)
Theorem get_messages_committed c c' i u1 u2 r res :
  sreachable c -> threads c !! i = Some (dispatch_t (GetMessages u1 u2)) -> rtc sstep c c' ->
  threads c' !! i = Some (Done r) -> r = Ok (RMessages res) ->
  exists b1 b2, utf8_encode u1 = Some b1 /\ utf8_encode u2 = Some b2 /\
    conversation_read b1 b2 res (store (cworld c')).
Proof.
  assert (hoare (get_messages_post u1 u2) None (fun _ => True) (get_messages_t u1 u2)) as Hs
    by get_messages_t_spec u1 u2.
  intros Hc Hi Hr Hd Hres. destruct (thread_post c c' i _ _ r Hc Hi Hs Hr Hd) as [o Hp]. by apply Hp.
Qed.
End GetMessagesCommitted.
