(* ===== verification/Scenarios.v ===== *)
(** * Scenarios: the spec's test scenarios, run on the model

    The worlds of this file are the server after [boot] and after a few
    requests, with the executable SHA-256 of [Sha256Impl].  The lemmas
    apply the general theorems at these concrete worlds and inputs. *)

From stdpp Require Import base list gmap.
From Stdlib Require Import ZArith Lia Sorted.
From S2P Require Import Prelude Text Hasher Sha256Impl Clock Store Handlers Endpoints Service.

Open Scope Z_scope.

(** ** Concrete worlds *)

Definition w0 : world := boot 1700000000.
Definition w1 : world := snd (register (mk_UserCreate (py "alice") (py "pw")) w0).
Definition w2 : world := snd (send_message (mk_MessageCreate (py "alice") (py "bob") (py "hi")) w1).

Definition users_of (w : world) : list user_row := default [] (users (store w)).
Definition messages_of (w : world) : list message_row := default [] (messages (store w)).

(** The value of a statement that succeeded. *)
Definition ok_or {E A} (default : A) (o : outcome E A) : A :=
  match o with Ok a => a | Raise _ => default end.

Lemma wf_w0 : wf_world w0.
Proof. apply wf_boot. Qed.

Lemma wf_w1 : wf_world w1.
Proof. apply register_wf; [apply wf_w0|decide_vm]. Qed.

Lemma wf_w2 : wf_world w2.
Proof. apply send_message_wf; [apply wf_w1|decide_vm..]. Qed.

Lemma wf_db_w1 : wf_db (store w1).
Proof. apply wf_w1. Qed.

Lemma wf_db_w2 : wf_db (store w2).
Proof. apply wf_w2. Qed.

(** [concrete] discharges a hypothesis of a general theorem at these
    worlds: by one of the lemmas above or by evaluation. *)
Ltac concrete :=
  lazymatch goal with
  | |- wf_world w0 => apply wf_w0
  | |- wf_world w1 => apply wf_w1
  | |- wf_world w2 => apply wf_w2
  | |- wf_db (store w1) => apply wf_db_w1
  | |- wf_db (store w2) => apply wf_db_w2
  | |- is_text ?b => exists b; split; [decide_vm | vm_compute; reflexivity]
  | |- _ = _ => vm_compute; reflexivity
  | |- _ /\ _ => first [decide_vm | split; [decide_vm | vm_compute; reflexivity]]
  | |- _ => decide_vm
  end.

(** ** Theorems *)

(** ** The general theorems at concrete inputs *)

Lemma register_new_user_witness :
  register (mk_UserCreate (py "bob") (py "pw2")) w1 =
    (Ok (RMessage "User registered"),
     after w1 (mk_db (Some (users_of w1 ++ [mk_user_row (py "bob") (hexdigest (sha256 (py "pw2")))]))
                     (messages (store w1)) (sqlite_sequence (store w1)))).
Proof. apply register_new_user; concrete. Defined.

Lemma register_duplicate_witness :
  register (mk_UserCreate (py "alice") (py "x")) w1 =
    (Raise (HTTPException 400 "Username already exists"), after w1 (store w1)).
Proof.
  apply (register_duplicate w1 _ _ (py "alice") (hexdigest (sha256 (py "x"))) (users_of w1)); concrete.
Defined.

Lemma login_ok_iff_witness :
  fst (login (mk_UserLogin (py "alice") (py "pw")) w1) = Ok (RMessage "Login successful") <->
  exists h, users_map (users_of w1) !! py "alice" = Some h /\ hash_password (py "pw") = Some h.
Proof. apply login_ok_iff; concrete. Defined.

Lemma login_failure_uniform_witness :
  snd (login (mk_UserLogin (py "alice") (py "wrong")) w1) = after w1 (store w1) /\
  (fst (login (mk_UserLogin (py "alice") (py "wrong")) w1) = Ok (RMessage "Login successful") \/
   fst (login (mk_UserLogin (py "alice") (py "wrong")) w1) = Raise (HTTPException 401 "Invalid credentials")).
Proof.
  apply (login_failure_uniform w1 _ _ (py "alice") (hexdigest (sha256 (py "wrong")))); concrete.
Defined.

Lemma login_surrogate_password_witness :
  fst (login (mk_UserLogin (py "bob") [0xD800]) w1) =
    if bool_decide (py "bob" ∈ map username (users_of w1)) then Raise UnicodeEncodeError
    else Raise (HTTPException 401 "Invalid credentials").
Proof. apply login_surrogate_password; concrete. Defined.

Lemma get_messages_exact_witness :
  exists res, get_messages (py "alice") (py "bob") w2 = (Ok (RMessages res), after w2 (store w2)) /\
    NoDup res /\
    (forall m, m ∈ res <->
       (exists r, r ∈ messages_of w2 /\ row_message m r) /\
       ((msg_sender m = py "alice" /\ msg_receiver m = py "bob") \/
        (msg_sender m = py "bob" /\ msg_receiver m = py "alice"))) /\
    Sorted (fun a b => message_leb a b = true) res.
Proof. apply (get_messages_exact w2 _ _ _ (py "alice") (py "bob")); concrete. Defined.

Lemma send_message_appends_witness :
  send_message (mk_MessageCreate (py "alice") (py "dave") (py "hi")) w1 =
    (Ok (RMessage "Message sent"),
     after w1 (mk_db (users (store w1))
                     (Some (messages_of w1 ++ [mk_message_row (sqlite_sequence (store w1) + 1)
                                                 (py "alice") (py "dave") (py "hi")
                                                 (current_timestamp (clock w1))]))
                     (sqlite_sequence (store w1) + 1))).
Proof. apply send_message_appends; concrete. Defined.

Lemma get_users_exact_witness :
  exists names, get_users w1 = (Ok (RUsers names), after w1 (store w1)) /\ NoDup names /\
    forall s, s ∈ names <-> exists b, decodes s b /\ b ∈ map username (users_of w1).
Proof. apply get_users_exact; concrete. Defined.

Lemma reachable_wf_witness : wf_world w0.
Proof. apply reachable_wf. apply reachable_boot. Defined.

Lemma select_messages_ts_id_order_witness :
  Sorted (fun a b => ts_id_leb a b = true)
    (ok_or [] (select_messages (store w2) (py "alice") (py "bob"))).
Proof. apply (select_messages_ts_id_order (store w2) (messages_of w2) (py "alice") (py "bob")); concrete. Defined.

Lemma send_message_leaks_connection_witness :
  send_message (mk_MessageCreate (py "alice") (py "bob") [0xDC00]) w1 =
    (Raise UnicodeEncodeError, opened w1 (store w1) None) /\
  conns (snd (send_message (mk_MessageCreate (py "alice") (py "bob") [0xDC00]) w1)) =
    conns w1 ++ [mk_conn (next_conn w1) None].
Proof. apply send_message_leaks_connection; [concrete|right; right; concrete]. Defined.

Lemma reads_leak_connection_witness :
  login (mk_UserLogin [0xD800] (py "pw")) w1 = (Raise UnicodeEncodeError, opened w1 (store w1) None) /\
  get_messages (py "alice") [0xDFFF] w1 = (Raise UnicodeEncodeError, opened w1 (store w1) None).
Proof.
  pose proof (reads_leak_connection w1 (mk_UserLogin [0xD800] (py "pw")) (py "alice") [0xDFFF])
    as H; destruct H as [H1 H2]; [apply wf_w1|].
  split; [apply H1|apply H2; right]; concrete.
Defined.

Lemma register_closes_connection_witness :
  conns (snd (register (mk_UserCreate (py "carol") [0xD800]) w1)) = conns w1.
Proof. apply register_closes_connection; concrete. Defined.

Lemma init_db_idempotent_witness : init_db w1 = (Ok tt, after w1 (store w1)).
Proof. apply init_db_idempotent; concrete. Defined.

Lemma insert_message_id_witness :
  insert_message (store w1) (current_timestamp 0) (py "a") (py "b") (py "c") =
    if sqlite_sequence (store w1) <? max_rowid
    then Ok (mk_db (users (store w1))
                   (Some (messages_of w1 ++ [mk_message_row (sqlite_sequence (store w1) + 1)
                                               (py "a") (py "b") (py "c") (current_timestamp 0)]))
                   (sqlite_sequence (store w1) + 1))
    else Raise (OperationalError "database or disk is full").
Proof. apply insert_message_id; concrete. Defined.

Lemma insert_message_wf_witness :
  wf_db (ok_or (store w1) (insert_message (store w1) (current_timestamp 0) (py "a") (py "b") (py "c"))).
Proof. apply (insert_message_wf (store w1) (current_timestamp 0) (py "a") (py "b") (py "c")); concrete. Defined.

Lemma insert_user_wf_witness :
  wf_db (ok_or (store w1) (insert_user (store w1) (py "bob") (py "digest"))).
Proof. apply (insert_user_wf (store w1) (py "bob") (py "digest")); concrete. Defined.

Lemma select_password_hash_refines_witness :
  select_password_hash (store w1) (py "alice") = Ok (users_map (users_of w1) !! py "alice").
Proof. apply select_password_hash_refines; concrete. Defined.

Lemma insert_user_refines_witness :
  match insert_user (store w1) (py "alice") (py "x") with
  | Ok d' => exists us', users d' = Some us' /\
                         abs_register (users_map (users_of w1)) (py "alice") (py "x") = Some (users_map us')
  | Raise e => e = IntegrityError "UNIQUE constraint failed: users.username" /\
               abs_register (users_map (users_of w1)) (py "alice") (py "x") = None
  end.
Proof. apply insert_user_refines; concrete. Defined.

Lemma select_messages_contract_witness :
  exists res, select_messages (store w2) (py "bob") (py "alice") = Ok res /\
              order_by_contract (filter (conversation (py "bob") (py "alice")) (messages_of w2)) res.
Proof. apply select_messages_contract; concrete. Defined.

Lemma select_messages_members_witness :
  NoDup (ok_or [] (select_messages (store w2) (py "alice") (py "bob"))) /\
  forall m, m ∈ ok_or [] (select_messages (store w2) (py "alice") (py "bob")) <->
            m ∈ messages_of w2 /\ conversation (py "alice") (py "bob") m.
Proof. apply (select_messages_members (store w2) (messages_of w2)); concrete. Defined.

Definition sample_str : pystr := [104; 0xE9; 0x20AC; 0x1F600].

Lemma utf8_roundtrip_witness :
  utf8_decode [104; 195; 169; 226; 130; 172; 240; 159; 152; 128] = Some sample_str.
Proof. apply utf8_roundtrip; concrete. Defined.

Lemma utf8_encode_decode_witness :
  valid_str sample_str /\ utf8_encode sample_str = Some [104; 195; 169; 226; 130; 172; 240; 159; 152; 128].
Proof. apply utf8_encode_decode; concrete. Defined.

Lemma utf8_encode_inj_witness : sample_str = sample_str.
Proof. apply (utf8_encode_inj _ _ [104; 195; 169; 226; 130; 172; 240; 159; 152; 128]); concrete. Defined.

Lemma utf8_encode_bounds_witness :
  Forall is_byte [104; 195; 169; 226; 130; 172; 240; 159; 152; 128] /\
  (length sample_str <= length [104; 195; 169; 226; 130; 172; 240; 159; 152; 128] <=
   4 * length sample_str)%nat.
Proof. apply utf8_encode_bounds; concrete. Defined.

Lemma hexdigest_inj_witness : sha256 (py "secret") = sha256 (py "secret").
Proof. apply hexdigest_inj; [apply sha256_bytes..|reflexivity]. Defined.

Lemma hash_password_shape_witness :
  length (hexdigest (sha256 (py "secret"))) = 64%nat /\ Forall is_hex_char (hexdigest (sha256 (py "secret"))).
Proof. apply (hash_password_shape (py "secret")); concrete. Defined.

Lemma hash_password_eq_iff_witness :
  hexdigest (sha256 (py "secret")) = hexdigest (sha256 (py "other")) <->
  exists b1 b2, utf8_encode (py "secret") = Some b1 /\ utf8_encode (py "other") = Some b2 /\
                sha256 b1 = sha256 b2.
Proof. apply hash_password_eq_iff; concrete. Defined.

Lemma current_timestamp_order_witness :
  lex_leb (current_timestamp 1700000000) (current_timestamp 1700003600) = (1700000000 <=? 1700003600).
Proof. apply current_timestamp_order; unfold max_time; lia. Defined.
