(* ===== verification/Races.v ===== *)
(** * Races: concurrent requests on concrete configurations

    Two registrations of the same new name, sent at the same time after
    alice registered ([race_start]), and a schedule of their statements
    under which the loser gets "database is locked" rather than the 400
    of a conflict ([register_race_locked]), run with [run_schedule] and
    the executable SHA-256 of [Sha256Impl].  The file also applies the
    general theorems of [Concurrent] and [Committed] at concrete
    configurations. *)

From stdpp Require Import base list relations strings.
From Stdlib Require Import ZArith Lia.
From S2P Require Import Prelude Text Hasher Sha256Impl Clock Store Handlers Service Threads Concurrent ThreadLogic Committed Scenarios.

Open Scope Z_scope.

Definition race_start : cfg :=
  mk_cfg w1 [register_t (mk_UserCreate (py "carol") (py "pw1"));
             register_t (mk_UserCreate (py "carol") (py "pw2"))].

(** ** The general theorems at concrete inputs *)

Lemma sreachable_cinv_witness : cinv (cworld (mk_cfg w0 [dispatch_t GetUsers])).
Proof.
  apply sreachable_cinv. eapply sreachable_step; [apply sreachable_boot|].
  apply (sstep_request w0 [] GetUsers). done.
Defined.

Lemma sstep_grows_witness :
  grows (store (cworld (mk_cfg w0 []))) (store (cworld (mk_cfg (mk_world (store w0) (conns w0) (next_conn w0) 1700000060) []))).
Proof. apply sstep_grows; [apply sreachable_boot|apply sstep_clock]. Defined.

(** The losing registration is not always refused with 400: when the
    winner holds the write lock (its INSERT ran, its commit has not) for
    the whole busy timeout, the loser's INSERT raises "database is locked",
    which FastAPI answers with 500. *)
Lemma register_race_locked :
  exists c, rtc cstep race_start c /\
    threads c = [Done (Ok (RMessage "User registered")); Done (Raise database_locked)] /\
    (forall c', ~ cstep c c').
Proof.
  set (s := [0; 0; 0; 0; 0; 1; 1; 1; 1; 1; 1; 0; 0]%nat).
  exists (default race_start (run_schedule s race_start)). split_and!.
  - apply (run_schedule_rtc s). vm_compute. reflexivity.
  - vm_compute. reflexivity.
  - intros c'' Hs. apply next_spec in Hs.
    assert (next (default race_start (run_schedule s race_start)) = []) as E by (vm_compute; reflexivity).
    rewrite E in Hs. by apply elem_of_nil in Hs.
Qed.


(** ** The committed-state theorems on concrete runs *)

Lemma rtc_cstep_sstep c c' : rtc cstep c c' -> rtc sstep c c'.
Proof. induction 1 as [|c1 c2 c3 Hs _ IH]; [done|]. eapply rtc_l; [by apply sstep_thread|done]. Qed.

(** The server after [boot], with the requests [reqs] arrived. *)
Lemma sreachable_requests reqs :
  Forall valid_request reqs -> sreachable (mk_cfg w0 (map dispatch_t reqs)).
Proof.
  induction reqs as [|req reqs IH] using rev_ind; intros Hv; [apply sreachable_boot|].
  apply Forall_app in Hv as [Hv Hr]. rewrite map_app. eapply sreachable_step; [by apply IH|].
  apply sstep_request. by apply Forall_inv in Hr.
Qed.

Ltac valid_requests :=
  repeat (apply Forall_cons; split; [simpl; split_and!; apply py_valid|]); apply Forall_nil_2.

Definition bob_registers : request := PostRegister (mk_UserCreate (py "bob") (py "pw")).
Definition bob_logs_in : request := PostLogin (mk_UserLogin (py "bob") (py "pw")).
Definition bob_sends : request := PostSend (mk_MessageCreate (py "bob") (py "alice") (py "hi")).
Definition alice_reads : request := GetMessages (py "alice") (py "bob").

(** The configuration [s] reaches from the requests [reqs] just arrived. *)
Definition after_schedule (reqs : list request) (s : list nat) : cfg :=
  let c := mk_cfg w0 (map dispatch_t reqs) in default c (run_schedule s c).

(** The answer of thread [i]. *)
Definition answer (c : cfg) (i : nat) : outcome exn response :=
  match threads c !! i with Some (Done r) => r | _ => Raise UnicodeEncodeError end.

Definition messages_answer (r : outcome exn response) : list Message :=
  match r with Ok (RMessages l) => l | _ => [] end.

Lemma register_committed_witness :
  let c' := after_schedule [bob_registers] [0; 0; 0; 0; 0; 0; 0]%nat in
  (answer c' 0 = Ok (RMessage "User registered") ->
     reg_row (mk_UserCreate (py "bob") (py "pw")) (store (cworld c'))) /\
  (forall m, answer c' 0 = Raise (HTTPException 400 m) ->
     reg_taken (mk_UserCreate (py "bob") (py "pw")) (store (cworld c'))).
Proof.
  apply (register_committed (mk_cfg w0 (map dispatch_t [bob_registers])) _ 0).
  - apply sreachable_requests. valid_requests.
  - reflexivity.
  - apply rtc_cstep_sstep, (run_schedule_rtc [0; 0; 0; 0; 0; 0; 0]%nat). vm_compute. reflexivity.
  - vm_compute. reflexivity.
Defined.

Lemma send_message_committed_witness :
  let c' := after_schedule [bob_sends] [0; 0; 0; 0; 0; 0; 0]%nat in
  sent_row (mk_MessageCreate (py "bob") (py "alice") (py "hi")) (store (cworld c')).
Proof.
  apply (send_message_committed (mk_cfg w0 (map dispatch_t [bob_sends])) _ 0 _
           (Ok (RMessage "Message sent"))).
  - apply sreachable_requests. valid_requests.
  - reflexivity.
  - apply rtc_cstep_sstep, (run_schedule_rtc [0; 0; 0; 0; 0; 0; 0]%nat). vm_compute. reflexivity.
  - vm_compute. reflexivity.
  - reflexivity.
Defined.

Lemma login_committed_witness :
  let c' := after_schedule [bob_registers; bob_logs_in] [0; 0; 0; 0; 0; 0; 0; 1; 1; 1; 1; 1; 1]%nat in
  login_row (mk_UserLogin (py "bob") (py "pw")) (store (cworld c')).
Proof.
  apply (login_committed (mk_cfg w0 (map dispatch_t [bob_registers; bob_logs_in])) _ 1 _
           (Ok (RMessage "Login successful"))).
  - apply sreachable_requests. valid_requests.
  - reflexivity.
  - apply rtc_cstep_sstep, (run_schedule_rtc [0; 0; 0; 0; 0; 0; 0; 1; 1; 1; 1; 1; 1]%nat).
    vm_compute. reflexivity.
  - vm_compute. reflexivity.
  - reflexivity.
Defined.

Lemma get_messages_committed_witness :
  let c' := after_schedule [bob_sends; alice_reads] [0; 0; 0; 0; 0; 0; 0; 1; 1; 1; 1; 1; 1]%nat in
  exists b1 b2, utf8_encode (py "alice") = Some b1 /\ utf8_encode (py "bob") = Some b2 /\
    conversation_read b1 b2 (messages_answer (answer c' 1)) (store (cworld c')).
Proof.
  apply (get_messages_committed (mk_cfg w0 (map dispatch_t [bob_sends; alice_reads])) _ 1 _ _
           (answer (after_schedule [bob_sends; alice_reads] [0; 0; 0; 0; 0; 0; 0; 1; 1; 1; 1; 1; 1]%nat) 1)).
  - apply sreachable_requests. valid_requests.
  - reflexivity.
  - apply rtc_cstep_sstep, (run_schedule_rtc [0; 0; 0; 0; 0; 0; 0; 1; 1; 1; 1; 1; 1]%nat).
    vm_compute. reflexivity.
  - vm_compute. reflexivity.
  - vm_compute. reflexivity.
Defined.
